(** * FOREVER-AI: the file signature pipeline of [quantum_signatures.py]

    A shallow embedding of [QuantumSignatureEngine] and the proofs of its
    specified properties, followed by the part of [integration_hub.py] that
    receives its results: the scores, the threat analysis and the metrics.

    Modelling conventions.
    - Python [float] values are real numbers ([R]): arithmetic is exact,
      rounding, infinities and NaN are not modelled, and [int] of a float
      is total.  [math.sin], [math.pi] and [math.log2] are the real [sin],
      [PI] and [ln x / ln 2].
    - [bytes] are [list byte]; a file system maps a path to a file.
    - [hashlib] is external: the four one-shot digests are parameters, and
      an incremental hash object is the message fed to it so far.
    - The [random] module is a pair of tapes read through one counter:
      [random.random()] reads the unit tape, [random.randrange(n)] reads the
      integer tape modulo [n].
    - Methods of the engine thread the engine object ([self]) and the
      generator position through a state-and-exception monad; an exception
      leaves the mutations made before it in place, as in Python.
    - [print] calls are not modelled. *)

From Stdlib Require Import Reals Lra Lia ZArith NArith.
From Stdlib.Strings Require Import String Byte.
From stdpp Require Import base option list.
From Equations Require Import Equations.

Set Default Proof Using "Type".

Local Open Scope R_scope.

Notation bytes := (list byte).

(** ** Exceptions and results *)

Inductive exn :=
| OSError (filename : string)
| ZeroDivisionError
| IndexError
| ValueError.

(** [Diverge] stands for a loop that has not stopped within the fuel given
    to the model. *)
Inductive result (A : Type) :=
| Ok (a : A)
| Raise (e : exn)
| Diverge.
Arguments Ok {A} a.
Arguments Raise {A} e.
Arguments Diverge {A}.

(** ** Files *)

Record file := { content : bytes; readable : bool }.

Definition filesystem := string → option file.

(** [os.path.getsize(path)] *)
Definition getsize (fs : filesystem) (path : string) : result N :=
  match fs path with
  | Some f => Ok (N.of_nat (length (content f)))
  | None => Raise (OSError path)
  end.

(** [open(path, 'rb')]: the file object is the bytes not read yet. *)
Definition open_rb (fs : filesystem) (path : string) : result bytes :=
  match fs path with
  | Some f => if readable f then Ok (content f) else Raise (OSError path)
  | None => Raise (OSError path)
  end.

(** [f.read(n)]: the chunk and the advanced file object. *)
Definition read_n (n : nat) (f : bytes) : bytes * bytes := (take n f, drop n f).

(** ** The digest combiner *)

Module Hashlib.
(** An incremental hash object: its algorithm and the message so far. *)
Record hash_obj := { algorithm : bytes → bytes; message : bytes }.

Definition new (alg : bytes → bytes) (data : bytes) : hash_obj :=
  {| algorithm := alg; message := data |}.

Definition update (h : hash_obj) (chunk : bytes) : hash_obj :=
  {| algorithm := algorithm h; message := message h ++ chunk |}.

Definition digest (h : hash_obj) : bytes := algorithm h (message h).
End Hashlib.

Definition SIZE_THRESHOLD : N := 50 * 1024 * 1024.
Definition CHUNK : nat := 4096.

Definition inspect {A : Type} (x : A) : { y : A | x = y } := exist _ x eq_refl.

(** [while chunk := f.read(n): sha256.update(chunk); md5.update(chunk);
    sha1.update(chunk)] *)
Equations read_loop (n : nat)
  (hs : Hashlib.hash_obj * Hashlib.hash_obj * Hashlib.hash_obj) (f : bytes)
  : Hashlib.hash_obj * Hashlib.hash_obj * Hashlib.hash_obj
  by wf (length f) lt :=
  read_loop n hs f with inspect (fst (read_n n f)) := {
    | exist _ nil Hc => hs
    | exist _ (cons b chunk') Hc =>
        let chunk := b :: chunk' in
        let '(h256, hmd5, hsha1) := hs in
        read_loop n (Hashlib.update h256 chunk, Hashlib.update hmd5 chunk,
                     Hashlib.update hsha1 chunk) (snd (read_n n f)) }.
Next Obligation.
  simpl in *. destruct n as [|n]; [rewrite take_0 in Hc; discriminate|].
  destruct f as [|x f]; [discriminate|]. simpl. rewrite length_drop. lia.
Qed.

(** ** The engine object and the monad of its methods *)

Record Engine := {
  dimensions : nat;
  resolution : nat;
  color_space : string;
  superposition_count : nat;
  entanglement_pairs : list (nat * nat);
  confidence_level : R;
  evolution_steps : nat }.

(** [QuantumSignatureEngine.__init__] *)
Definition __init__ : Engine :=
  {| dimensions := 8;
     resolution := 256;
     color_space := "hsv";
     superposition_count := 16;
     entanglement_pairs := [];
     confidence_level := 0.95;
     evolution_steps := 3 |}.

(** The mutable world of one call: the engine and the position of the
    random generator on its tapes. *)
Record state := { self : Engine; rng_pos : nat }.

Definition M (A : Type) : Type := state → result A * state.

#[export] Instance M_ret : MRet M := λ A a s, (Ok a, s).

#[export] Instance M_bind : MBind M := λ A B k m s,
  match m s with
  | (Ok a, s') => k a s'
  | (Raise e, s') => (Raise e, s')
  | (Diverge, s') => (Diverge, s')
  end.

Definition raise {A} (e : exn) : M A := λ s, (Raise e, s).
Definition diverge {A} : M A := λ s, (Diverge, s).
Definition lift {A} (r : result A) : M A := λ s, (r, s).

(** Reading an attribute of [self]. *)
Definition attr {A} (field : Engine → A) : M A := λ s, (Ok (field (self s)), s).

(** The engine with its [entanglement_pairs] field re-assigned. *)
Definition with_pairs (e : Engine) (pairs : list (nat * nat)) : Engine :=
  {| dimensions := dimensions e;
     resolution := resolution e;
     color_space := color_space e;
     superposition_count := superposition_count e;
     entanglement_pairs := pairs;
     confidence_level := confidence_level e;
     evolution_steps := evolution_steps e |}.

(** [self.entanglement_pairs = pairs] *)
Definition set_entanglement_pairs (pairs : list (nat * nat)) : M unit := λ s,
  (Ok tt, {| self := with_pairs (self s) pairs; rng_pos := rng_pos s |}).

(** [try: body except Exception: handler] *)
Definition try_except {A} (body : M A) (handler : exn → M A) : M A := λ s,
  match body s with
  | (Raise e, s') => handler e s'
  | r => r
  end.

(** [for x in l: acc = body(x, acc)] *)
Fixpoint for_each {A S : Type} (l : list A) (body : A → S → M S) (acc : S) : M S :=
  match l with
  | [] => mret acc
  | x :: l' => acc' ← body x acc; for_each l' body acc'
  end.

(** [enumerate(l)] *)
Definition enumerate {A} (l : list A) : list (nat * A) := zip (seq 0 (length l)) l.

(** [l[start:end]] for [0 <= start] *)
Definition slice {A} (l : list A) (start end_ : nat) : list A :=
  take (end_ - start) (drop start l).

(** [a // b] on non-negative integers *)
Definition floordiv (a b : nat) : M nat :=
  if decide (b = 0%nat) then raise ZeroDivisionError else mret (a / b)%nat.

(** [l[i]] *)
Definition getitem {A} (l : list A) (i : nat) : M A :=
  match l !! i with
  | Some x => mret x
  | None => raise IndexError
  end.

(** [l[i] = x] *)
Definition setitem {A} (l : list A) (i : nat) (x : A) : M (list A) :=
  if decide (i < length l)%nat then mret (<[i:=x]> l) else raise IndexError.

(** [sum(l)] *)
Definition sum (l : list R) : R := foldl Rplus 0 l.

(** [min(1.0, max(0.0, x))] *)
Definition clamp01 (x : R) : R := Rmin 1 (Rmax 0 x).

Notation QuantumState := (list (list (list R))).
Notation Matrix := (list (list R)).

Record SignatureData := {
  amplitudes : Matrix;
  phases : Matrix;
  entanglement : list (nat * nat) }.

(** A PIL image in mode RGBA: its size and its pixels, row by row. *)
Record Image := { width : nat; height : nat; pixels : list (Z * Z * Z * Z) }.

(** A [QImage] of format RGBA8888 over a byte buffer. *)
Record QImage := { qdata : list Z; qwidth : nat; qheight : nat }.

Record SignatureResult := {
  res_signature_data : SignatureData;
  res_signature_image : QImage;
  res_confidence : R;
  res_uniqueness_score : R }.

(** [int(x)] on a float: truncation towards zero *)
Definition py_int (x : R) : Z :=
  if Rle_dec 0 x then Int_part x else (- Int_part (- x))%Z.

(** PIL stores a channel after clipping it to a byte. *)
Definition clip8 (v : Z) : Z := Z.max 0 (Z.min 255 v).

(** [Image.new('RGBA', (w, h), color)] *)
Definition Image_new (w h : nat) (color : Z * Z * Z * Z) : Image :=
  {| width := w; height := h; pixels := replicate (w * h) color |}.

(** Writing one pixel; a position outside the image is skipped. *)
Definition putpixel (img : Image) (xy : nat * nat) (fill : Z * Z * Z * Z) : Image :=
  let '(x, y) := xy in
  let '(r, g, b, a) := fill in
  if decide (x < width img ∧ y < height img)%nat then
    {| width := width img; height := height img;
       pixels := <[(y * width img + x)%nat := (clip8 r, clip8 g, clip8 b, clip8 a)]>
                   (pixels img) |}
  else img.

(** [img.tobytes("raw", "RGBA")] *)
Definition tobytes (img : Image) : list Z :=
  concat ((λ '(r, g, b, a), [r; g; b; a]) <$> pixels img).

(** The sector formula of the HSV to RGB conversion, written out twice in
    the source with the same cases. *)
Definition hsv_sector (i : Z) (value p q t : R) : R * R * R :=
  if decide (i = 0)%Z then (value, t, p)
  else if decide (i = 1)%Z then (q, value, p)
  else if decide (i = 2)%Z then (p, value, t)
  else if decide (i = 3)%Z then (p, q, value)
  else if decide (i = 4)%Z then (t, p, value)
  else (value, p, q).

(** * The integration hub of [integration_hub.py]

    Modelling conventions.
    - A Python value is a [pyval]; the keys of a [dict] are strings, and a
      [dict] is the list of its items in insertion order.  [PObj] stands for
      an object that is no number, string, list or dict: it supports no
      arithmetic and no ordering, and [json.dumps] rejects it.
    - A path is a string.  A dict that is handed to the hub is stored by
      value: its owner does not change it afterwards.
    - Methods of the hub thread the hub object, the trace of the signals
      emitted and the records logged, and the clock through a
      state-and-exception monad; an exception leaves the mutations made
      before it in place.  The slots connected to the signals are not
      modelled: the ones of the repository read the hub only.  Floats are
      real numbers, as for the engine. *)

#[warnings="-register-all"]
Inductive pyval :=
| PNone
| PBool (b : bool)
| PNum (x : R)
| PStr (s : string)
| PList (l : list pyval)
| PDict (d : list (string * pyval))
| PObj.

Notation pydict := (list (string * pyval)).

(** [d.get(key)] on the items of a dict *)
Fixpoint dict_get {V} (d : list (string * V)) (key : string) : option V :=
  match d with
  | [] => None
  | (k, v) :: d' => if String.eqb key k then Some v else dict_get d' key
  end.

(** [d[key] = v]: a key that is present keeps its place. *)
Fixpoint dict_set {V} (d : list (string * V)) (key : string) (v : V)
  : list (string * V) :=
  match d with
  | [] => [(key, v)]
  | (k, v') :: d' =>
      if String.eqb key k then (k, v) :: d' else (k, v') :: dict_set d' key v
  end.

(** [d.update(new)] *)
Definition dict_update {V} (d new : list (string * V)) : list (string * V) :=
  foldl (λ d '(k, v), dict_set d k v) d new.

(** The number that Python reads an int, float or bool as. *)
Definition as_num (v : pyval) : option R :=
  match v with
  | PNum x => Some x
  | PBool b => Some (if b then 1 else 0)
  | _ => None
  end.

(** [bool(v)] *)
Definition truthy (v : pyval) : bool :=
  match v with
  | PNone => false
  | PBool b => b
  | PNum x => if Req_dec_T x 0 then false else true
  | PStr s => negb (String.eqb s "")
  | PList l => negb (bool_decide (length l = 0%nat))
  | PDict d => negb (bool_decide (length d = 0%nat))
  | PObj => true
  end.

(** Whether [json.dumps(v)] returns. *)
Fixpoint json_ok (v : pyval) : bool :=
  match v with
  | PObj => false
  | PList l => forallb json_ok l
  | PDict d => forallb (λ kv, json_ok (snd kv)) d
  | _ => true
  end.

(** The dict that [generate_signature] returns, as a Python value: the two
    matrices and the image are objects that the hub does not look into; a
    pair of the entanglement is the list of its two indices. *)
Definition signature_dict (r : SignatureResult) : pyval :=
  PDict [("signature_data",
          PDict [("amplitudes", PObj);
                 ("phases", PObj);
                 ("entanglement",
                  PList ((λ '(dim1, dim2), PList [PNum (INR dim1); PNum (INR dim2)])
                           <$> entanglement (res_signature_data r)))]);
         ("signature_image", PObj);
         ("confidence", PNum (res_confidence r));
         ("uniqueness_score", PNum (res_uniqueness_score r))]%string.

Module Hub.

Inductive exn :=
| ValueError (message : string)
| TypeError
| AttributeError
| KeyError (key : string)
| SliceError.

Inductive result (A : Type) :=
| Ok (a : A)
| Raise (e : exn).
Arguments Ok {A} a.
Arguments Raise {A} e.

(** The signals of the hub and the records of its logger. *)
Inductive event :=
| threat_detected (threat_type : string) (confidence : R) (source : string)
| system_status (current_status : pydict)
| protection_score (final_score : R)
| logged_info (message : string)
| logged_warning (threat_data : pyval)
| logged_error (context : string) (e : exn).

Record IntegrationHub := {
  neural_data : pydict;
  quantum_signatures : pydict;
  temporal_predictions : pydict;
  system_status_data : pydict;
  components_status : list (string * bool);
  protection_weights : list (string * R);
  anomaly_counters : list (string * Z);
  threat_history : list pyval }.

(** [IntegrationHub.__init__] *)
Definition __init__ : IntegrationHub :=
  {| neural_data := [];
     quantum_signatures := [];
     temporal_predictions := [];
     system_status_data := [];
     components_status :=
       [("neural_ecosystem", false); ("quantum_signatures", false);
        ("temporal_prediction", false)]%string;
     protection_weights :=
       [("neural_ecosystem", 0.4); ("quantum_signatures", 0.3);
        ("temporal_prediction", 0.3)]%string;
     anomaly_counters :=
       [("high_cpu", 0); ("high_memory", 0); ("disk_activity", 0);
        ("network_activity", 0)]%string%Z;
     threat_history := [] |}.

(** The mutable world of a call: the hub, the signals emitted and records
    logged so far, and the clock, a tape of the strings that
    [datetime.now().isoformat()] returns, with the number of readings. *)
Record world := {
  self : IntegrationHub;
  events : list event;
  clock : nat → string;
  clock_pos : nat }.

Definition M (A : Type) : Type := world → result A * world.

#[export] Instance M_ret : MRet M := λ A a w, (Ok a, w).

#[export] Instance M_bind : MBind M := λ A B k m w,
  match m w with
  | (Ok a, w') => k a w'
  | (Raise e, w') => (Raise e, w')
  end.

Definition raise {A} (e : exn) : M A := λ w, (Raise e, w).

(** Reading an attribute of [self]. *)
Definition attr {A} (field : IntegrationHub → A) : M A := λ w, (Ok (field (self w)), w).

(** A mutation of [self]. *)
Definition on_self (f : IntegrationHub → IntegrationHub) : M unit := λ w,
  (Ok tt, {| self := f (self w); events := events w;
             clock := clock w; clock_pos := clock_pos w |}).

(** A signal emitted or a record logged. *)
Definition emit (e : event) : M unit := λ w,
  (Ok tt, {| self := self w; events := events w ++ [e];
             clock := clock w; clock_pos := clock_pos w |}).

(** [datetime.now().isoformat()] *)
Definition now_isoformat : M string := λ w,
  (Ok (clock w (clock_pos w)),
   {| self := self w; events := events w;
      clock := clock w; clock_pos := S (clock_pos w) |}).

(** [try: body except Exception as e: handler] *)
Definition try_except {A} (body : M A) (handler : exn → M A) : M A := λ w,
  match body w with
  | (Raise e, w') => handler e w'
  | r => r
  end.

(** [for x in l: acc = body(x, acc)] *)
Fixpoint for_each {A S : Type} (l : list A) (body : A → S → M S) (acc : S) : M S :=
  match l with
  | [] => mret acc
  | x :: l' => acc' ← body x acc; for_each l' body acc'
  end.

Definition with_quantum_signatures (h : IntegrationHub) (v : pydict) : IntegrationHub :=
  {| neural_data := neural_data h;
     quantum_signatures := v;
     temporal_predictions := temporal_predictions h;
     system_status_data := system_status_data h;
     components_status := components_status h;
     protection_weights := protection_weights h;
     anomaly_counters := anomaly_counters h;
     threat_history := threat_history h |}.

Definition with_components_status (h : IntegrationHub) (v : list (string * bool))
  : IntegrationHub :=
  {| neural_data := neural_data h;
     quantum_signatures := quantum_signatures h;
     temporal_predictions := temporal_predictions h;
     system_status_data := system_status_data h;
     components_status := v;
     protection_weights := protection_weights h;
     anomaly_counters := anomaly_counters h;
     threat_history := threat_history h |}.

Definition with_threat_history (h : IntegrationHub) (v : list pyval) : IntegrationHub :=
  {| neural_data := neural_data h;
     quantum_signatures := quantum_signatures h;
     temporal_predictions := temporal_predictions h;
     system_status_data := system_status_data h;
     components_status := components_status h;
     protection_weights := protection_weights h;
     anomaly_counters := anomaly_counters h;
     threat_history := v |}.

Definition with_temporal_predictions (h : IntegrationHub) (v : pydict) : IntegrationHub :=
  {| neural_data := neural_data h;
     quantum_signatures := quantum_signatures h;
     temporal_predictions := v;
     system_status_data := system_status_data h;
     components_status := components_status h;
     protection_weights := protection_weights h;
     anomaly_counters := anomaly_counters h;
     threat_history := threat_history h |}.

Definition with_system_status_data (h : IntegrationHub) (v : pydict) : IntegrationHub :=
  {| neural_data := neural_data h;
     quantum_signatures := quantum_signatures h;
     temporal_predictions := temporal_predictions h;
     system_status_data := v;
     components_status := components_status h;
     protection_weights := protection_weights h;
     anomaly_counters := anomaly_counters h;
     threat_history := threat_history h |}.

Definition with_anomaly_counters (h : IntegrationHub) (v : list (string * Z))
  : IntegrationHub :=
  {| neural_data := neural_data h;
     quantum_signatures := quantum_signatures h;
     temporal_predictions := temporal_predictions h;
     system_status_data := system_status_data h;
     components_status := components_status h;
     protection_weights := protection_weights h;
     anomaly_counters := v;
     threat_history := threat_history h |}.

(** ** Operations on Python values *)

(** [v.get(key, default)] *)
Definition py_get (v : pyval) (key : string) (fallback : pyval) : M pyval :=
  match v with
  | PDict d => mret (default fallback (dict_get d key))
  | _ => raise AttributeError
  end.

(** [v[key]] for a string [key] *)
Definition py_getitem (v : pyval) (key : string) : M pyval :=
  match v with
  | PDict d =>
      match dict_get d key with
      | Some x => mret x
      | None => raise (KeyError key)
      end
  | _ => raise TypeError
  end.

(** [v.values()] *)
Definition py_values (v : pyval) : M (list pyval) :=
  match v with
  | PDict d => mret (snd <$> d)
  | _ => raise AttributeError
  end.

(** The number in a numeric context, [TypeError] for other values. *)
Definition py_float (v : pyval) : M R :=
  match as_num v with
  | Some x => mret x
  | None => raise TypeError
  end.

(** [v > c] for a float [c] *)
Definition py_gt (v : pyval) (c : R) : M bool :=
  x ← py_float v;
  mret (if Rgt_dec x c then true else false).

(** [sum(l)] *)
Definition py_sum (l : list pyval) : M R :=
  for_each l (λ v total, x ← py_float v; mret (total + x)) 0.

(** [v[:n]]: a list or a string can be sliced; slicing a dict raises
    [TypeError] before Python 3.12 and [KeyError] from there on. *)
Definition py_take (n : nat) (v : pyval) : M (list pyval) :=
  match v with
  | PList l => mret (take n l)
  | PStr s => mret ((λ c, PStr (String c EmptyString)) <$> take n (list_ascii_of_string s))
  | PDict _ => raise SliceError
  | _ => raise TypeError
  end.

(** The values that [for x in v] runs through: the items of a list, the
    keys of a dict, the characters of a string. *)
Definition py_iter (v : pyval) : M (list pyval) :=
  match v with
  | PList l => mret l
  | PDict d => mret (PStr <$> (fst <$> d))
  | PStr s => mret ((λ c, PStr (String c EmptyString)) <$> list_ascii_of_string s)
  | _ => raise TypeError
  end.

(** [json.dumps(v)]; the string is used in a log record only. *)
Definition json_dumps (v : pyval) : M unit :=
  if json_ok v then mret tt else raise TypeError.

(** ** The methods *)

(** [_record_threat] *)
Definition _record_threat (threat_data : pyval) : M unit :=
  _ ← on_self (λ h, with_threat_history h (threat_history h ++ [threat_data]));
  _ ← json_dumps threat_data;
  _ ← emit (logged_warning threat_data);
  history ← attr threat_history;
  if decide (1000 < length history)%nat then
    on_self (λ h, with_threat_history h
                    (drop (length (threat_history h) - 1000) (threat_history h)))
  else mret tt.

(** The body of the loop of [_analyze_quantum_threats]. *)
Definition analyze_signature (file_path : string) (signature : pyval) : M unit :=
  score ← py_get signature "uniqueness_score" (PNum 0);
  suspicious ← py_gt score 0.9;
  if suspicious : bool then
    score ← py_getitem signature "uniqueness_score";
    confidence ← py_float score;
    _ ← emit (threat_detected "Подозрительная квантовая сигнатура" confidence
                "Quantum Signatures");
    timestamp ← now_isoformat;
    score ← py_getitem signature "uniqueness_score";
    _record_threat
      (PDict [("type", PStr "quantum_anomaly");
              ("source", PStr "quantum_signatures");
              ("timestamp", PStr timestamp);
              ("details", PDict [("file_path", PStr file_path);
                                 ("uniqueness_score", score)])]%string)
  else mret tt.

(** [_analyze_quantum_threats] *)
Definition _analyze_quantum_threats : M unit :=
  signatures ← attr quantum_signatures;
  for_each signatures (λ '(file_path, signature) _, analyze_signature file_path signature) tt.

(** [_calculate_neural_score] *)
Definition _calculate_neural_score : M R :=
  data ← attr neural_data;
  if bool_decide (length data = 0%nat) then mret 0
  else
    let system_health := default (PNum 0) (dict_get data "system_health") in
    processes ← py_values (default (PDict []) (dict_get data "processes"));
    anomaly_count ← for_each processes (λ p count,
      score ← py_get p "anomaly_score" (PNum 0);
      anomalous ← py_gt score 0.8;
      mret (if anomalous : bool then S count else count)) 0%nat;
    health ← py_float system_health;
    let base_score := health * 0.7 in
    let anomaly_penalty := Rmin 0.3 (INR anomaly_count * 0.1) in
    mret (Rmax 0 (base_score - anomaly_penalty)).

(** The loop of [_calculate_quantum_score]: the two lists of scores. *)
Definition collect_scores (signatures : pydict) : list pyval * list pyval :=
  foldl (λ '(uniqueness_scores, confidence_scores) '(file_path, signature_data),
           match signature_data with
           | PDict d =>
               (uniqueness_scores ++ [default (PNum 0.5) (dict_get d "uniqueness")],
                confidence_scores ++ [default (PNum 0.5) (dict_get d "confidence")])
           | _ => (uniqueness_scores, confidence_scores)
           end) ([], []) signatures.

(** [_calculate_quantum_score] *)
Definition _calculate_quantum_score : M R :=
  signatures ← attr quantum_signatures;
  if bool_decide (length signatures = 0%nat) then mret 0.5
  else
    let '(uniqueness_scores, confidence_scores) := collect_scores signatures in
    if bool_decide (length uniqueness_scores = 0%nat)
       || bool_decide (length confidence_scores = 0%nat) then mret 0.5
    else
      total ← py_sum uniqueness_scores;
      let avg_uniqueness := total / INR (length uniqueness_scores) in
      total ← py_sum confidence_scores;
      let avg_confidence := total / INR (length confidence_scores) in
      mret (avg_uniqueness * 0.7 + avg_confidence * 0.3).

(** [_calculate_temporal_score] *)
Definition _calculate_temporal_score : M R :=
  predictions ← attr temporal_predictions;
  if bool_decide (length predictions = 0%nat) then mret 0.5
  else
    let history := default (PList []) (dict_get predictions "history") in
    if negb (truthy history) then mret 0.5
    else
      days ← py_take 7 history;
      let threat_counts :=
        omap (λ day_data,
                match day_data with
                | PDict d => Some (default (PNum 0) (dict_get d "count"))
                | _ => None
                end) days in
      if bool_decide (length threat_counts = 0%nat) then mret 0.5
      else
        total ← py_sum threat_counts;
        let avg_threats := total / INR (length threat_counts) in
        mret (Rmax 0 (1 - avg_threats / 10)).

(** [self.protection_weights[component]] *)
Definition weight_of (component : string) : M R :=
  weights ← attr protection_weights;
  match dict_get weights component with
  | Some weight => mret weight
  | None => raise (KeyError component)
  end.

(** The body of the loop of [_update_protection_score]; the accumulator
    holds [total_score], [active_components] and [total_weight]. *)
Definition add_component (item : string * bool) (acc : R * nat * R) : M (R * nat * R) :=
  let '(component, status) := item in
  let '(total_score, active_components, total_weight) := acc in
  if status then
    weight ← weight_of component;
    let total_weight := total_weight + weight in
    score ← (if String.eqb component "neural_ecosystem" then _calculate_neural_score
             else if String.eqb component "quantum_signatures" then _calculate_quantum_score
             else _calculate_temporal_score);
    mret (total_score + score * weight, S active_components, total_weight)
  else mret acc.

(** [_update_protection_score] *)
Definition _update_protection_score : M R :=
  status ← attr components_status;
  '(total_score, active_components, total_weight) ←
    for_each status add_component (0, 0%nat, 0);
  if bool_decide (0 < active_components)%nat && (if Rgt_dec total_weight 0 then true else false)
  then
    let final_score := total_score / total_weight in
    _ ← emit (protection_score final_score);
    components ← attr components_status;
    history ← attr threat_history;
    last_update ← now_isoformat;
    _ ← emit (system_status
                [("protection_score", PNum final_score);
                 ("active_components", PNum (INR active_components));
                 ("components", PDict ((λ '(k, b), (k, PBool b)) <$> components));
                 ("threat_count", PNum (INR (length history)));
                 ("last_update", PStr last_update)]%string);
    mret final_score
  else mret 0.

(** [update_quantum_signature] *)
Definition update_quantum_signature (file_path : string) (signature_data : pyval) : M unit :=
  try_except
    (_ ← match signature_data with
         | PDict _ => mret tt
         | _ => raise (ValueError "Signature data must be a dictionary")
         end;
     _ ← on_self (λ h, with_quantum_signatures h
                         (dict_set (quantum_signatures h) file_path signature_data));
     _ ← on_self (λ h, with_components_status h
                         (dict_set (components_status h) "quantum_signatures" true));
     _ ← _analyze_quantum_threats;
     _ ← _update_protection_score;
     emit (logged_info (String.append "Quantum signature updated for " file_path)))
    (λ e,
     _ ← emit (logged_error "Error updating quantum signature" e);
     on_self (λ h, with_components_status h
                     (dict_set (components_status h) "quantum_signatures" false))).

(** The body of the loop of [_analyze_temporal_threats]. *)
Definition analyze_prediction (threat : pyval) : M unit :=
  probability ← py_get threat "probability" (PNum 0);
  probable ← py_gt probability 0.7;
  if probable : bool then
    probability ← py_getitem threat "probability";
    confidence ← py_float probability;
    _ ← emit (threat_detected "Прогноз потенциальной угрозы" confidence
                "Temporal Prediction");
    timestamp ← now_isoformat;
    _record_threat
      (PDict [("type", PStr "predicted_threat");
              ("source", PStr "temporal_prediction");
              ("timestamp", PStr timestamp);
              ("details", threat)]%string)
  else mret tt.

(** [_analyze_temporal_threats] *)
Definition _analyze_temporal_threats : M unit :=
  predictions ← attr temporal_predictions;
  if bool_decide (length predictions = 0%nat) then mret tt
  else
    future_threats ← py_iter (default (PList []) (dict_get predictions "future_threats"));
    for_each future_threats (λ threat _, analyze_prediction threat) tt.

(** [update_temporal_prediction] *)
Definition update_temporal_prediction (prediction_data : pyval) : M unit :=
  try_except
    (_ ← match prediction_data with
         | PDict d => on_self (λ h, with_temporal_predictions h d)
         | _ => raise (ValueError "Prediction data must be a dictionary")
         end;
     _ ← on_self (λ h, with_components_status h
                         (dict_set (components_status h) "temporal_prediction" true));
     _ ← _analyze_temporal_threats;
     _ ← _update_protection_score;
     emit (logged_info "Temporal prediction data updated successfully"))
    (λ e,
     _ ← emit (logged_error "Error updating temporal prediction" e);
     on_self (λ h, with_components_status h
                     (dict_set (components_status h) "temporal_prediction" false))).

(** [self.anomaly_counters[counter] += 1] when [high], else
    [self.anomaly_counters[counter] = max(0, self.anomaly_counters[counter] - 1)] *)
Definition count_anomaly (counter : string) (high : bool) : M unit :=
  counters ← attr anomaly_counters;
  match dict_get counters counter with
  | Some value =>
      on_self (λ h, with_anomaly_counters h
                      (dict_set (anomaly_counters h) counter
                         (if high then value + 1 else Z.max 0 (value - 1))%Z))
  | None => raise (KeyError counter)
  end.

(** The body of the loop of [update_system_status] over the counters. *)
Definition report_anomaly (item : string * Z) : M unit :=
  let '(counter_name, counter_value) := item in
  if decide (5 < counter_value)%Z then
    let threat_confidence := Rmin (IZR counter_value / 10) 0.9 in
    emit (threat_detected (String.append "system_" counter_name) threat_confidence
            "system_monitor")
  else mret tt.

(** [update_system_status] *)
Definition update_system_status (status_info : pyval) : M unit :=
  try_except
    (_ ← match status_info with
         | PDict d => on_self (λ h, with_system_status_data h d)
         | _ => raise (ValueError "Status info must be a dictionary")
         end;
     cpu_percent ← py_get status_info "cpu_percent" (PNum 0);
     mem_percent ← py_get status_info "memory_percent" (PNum 0);
     high ← py_gt cpu_percent 80;
     _ ← count_anomaly "high_cpu" high;
     high ← py_gt mem_percent 85;
     _ ← count_anomaly "high_memory" high;
     counters ← attr anomaly_counters;
     _ ← for_each counters (λ item _, report_anomaly item) tt;
     emit (logged_info "System status updated"))
    (λ e, emit (logged_error "Error updating system status" e)).

(** ** Notions for the properties of the hub *)

(** From [w] to [w'] the counters have stayed non-negative, no counter
    but the two of the processor and of the memory has changed, and every
    threat among the events emitted has a confidence within
    [[0.6, 0.9]]. *)
Definition monitored (w w' : world) : Prop :=
  Forall (λ item, 0 ≤ item.2)%Z (anomaly_counters (self w')) ∧
  (∀ counter, counter ≠ "high_cpu"%string → counter ≠ "high_memory"%string →
     dict_get (anomaly_counters (self w')) counter =
     dict_get (anomaly_counters (self w)) counter) ∧
  ∃ new, events w' = events w ++ new ∧
         Forall (λ e, ∀ threat_type confidence source,
                   e = threat_detected threat_type confidence source →
                   0.6 <= confidence <= 0.9 ∧ source = "system_monitor"%string) new.


(** [m], run from [w], returns a value and a world that satisfy [Q], or
    raises an exception that satisfies [E] with the world it leaves. *)
Definition ends {A} (m : M A) (w : world) (Q : A → world → Prop)
  (E : exn → world → Prop) : Prop :=
  match m w with
  | (Ok a, w') => Q a w'
  | (Raise e, w') => E e w'
  end.

(** The components and their weights are the constructed ones. *)
Definition standard (h : IntegrationHub) : Prop :=
  fst <$> components_status h = fst <$> components_status __init__ ∧
  protection_weights h = protection_weights __init__.

(** The status of a component, [False] for one that is not there. *)
Definition active (h : IntegrationHub) (component : string) : bool :=
  default false (dict_get (components_status h) component).

(** The uniqueness score that the threat analysis reads from a signature,
    when it can read one. *)
Definition read_score (signature : pyval) : option R :=
  match signature with
  | PDict d => as_num (default (PNum 0) (dict_get d "uniqueness_score"))
  | _ => None
  end.

(** The threat analysis flags the signature. *)
Definition is_suspicious (signature : pyval) : bool :=
  match read_score signature with
  | Some x => if Rgt_dec x 0.9 then true else false
  | None => false
  end.

(** The last [1000] entries of a history. *)
Definition trimmed (history : list pyval) : list pyval :=
  if decide (1000 < length history)%nat then drop (length history - 1000) history
  else history.

(** The record of a flagged signature. *)
Definition quantum_threat (timestamp file_path : string) (score : pyval) : pyval :=
  PDict [("type", PStr "quantum_anomaly");
         ("source", PStr "quantum_signatures");
         ("timestamp", PStr timestamp);
         ("details", PDict [("file_path", PStr file_path);
                            ("uniqueness_score", score)])]%string.

(** The world after the analysis has flagged [signature], stored under
    [file_path], with the score [x]. *)
Definition flagged (file_path : string) (signature : pyval) (x : R) (w : world) : world :=
  let score := match signature with
               | PDict d => default PNone (dict_get d "uniqueness_score")
               | _ => PNone
               end in
  {| self := with_threat_history (self w)
               (trimmed (threat_history (self w) ++
                         [quantum_threat (clock w (clock_pos w)) file_path score]));
     events := events w ++
               [threat_detected "Подозрительная квантовая сигнатура" x "Quantum Signatures";
                logged_warning (quantum_threat (clock w (clock_pos w)) file_path score)];
     clock := clock w;
     clock_pos := S (clock_pos w) |}.

(** [h'] is [h] but for its history of threats. *)
Definition same_but_history (h h' : IntegrationHub) : Prop :=
  with_threat_history h' [] = with_threat_history h [].

(** [m] changes nothing: it reads the world only. *)
Definition reads {A} (m : M A) : Prop := ∀ w, (m w).2 = w.

(** No protection score is among the events. *)
Definition no_score (new : list event) : Prop :=
  Forall (λ e, ∀ x, e ≠ protection_score x) new.

(** The history holds at most [1000] threats. *)
Definition bounded (h : IntegrationHub) : Prop := (length (threat_history h) ≤ 1000)%nat.

(** From [w] to [w'] the hub has changed in its history of threats only,
    which has stayed bounded if it was, and no protection score has been
    emitted. *)
Definition analysed (w w' : world) : Prop :=
  same_but_history (self w) (self w') ∧
  (bounded (self w) → bounded (self w')) ∧
  ∃ new, events w' = events w ++ new ∧ no_score new.

(** A signature dict with the confidence [c] and no key ['uniqueness']. *)
Definition confident (signature : pyval) (c : R) : Prop :=
  ∃ d, signature = PDict d ∧
       dict_get d "uniqueness" = None ∧ dict_get d "confidence" = Some (PNum c).

(** The world after the two assignments of [update_quantum_signature]. *)
Definition stored (file_path : string) (signature_data : pyval) (w : world) : world :=
  {| self := with_components_status
               (with_quantum_signatures (self w)
                  (dict_set (quantum_signatures (self w)) file_path signature_data))
               (dict_set (components_status (self w)) "quantum_signatures" true);
     events := events w; clock := clock w; clock_pos := clock_pos w |}.

(** The number of signatures that the threat analysis flags. *)
Definition count_suspicious (signatures : pydict) : nat :=
  length (filter (λ item, Is_true (is_suspicious item.2)) signatures).

End Hub.

(** * The metrics of [IntegrationMetrics]

    The three dicts of the components are objects of their own on a heap:
    the outer dict [self.metrics], and every shallow copy of it, holds
    their addresses.  The argument [new_metrics] is a dict, as annotated. *)

Module Metrics.

Record IntegrationMetrics := {
  metrics : list (string * nat);
  metrics_history : list (nat * list (string * nat));
  max_history : nat }.

(** The mutable world of a call: the object, the heap of the inner dicts,
    the dicts that [metrics_updated] was emitted with, and the number of
    readings of the clock; a timestamp is the number of its reading. *)
Record world := {
  self : IntegrationMetrics;
  heap : list pydict;
  emitted : list (list (string * nat));
  clock_pos : nat }.

(** The world that [IntegrationMetrics.__init__] leaves. *)
Definition __init__ : world :=
  {| self :=
       {| metrics := [("neural", 0); ("quantum", 1); ("temporal", 2)]%string%nat;
          metrics_history := [];
          max_history := 1000 |};
     heap :=
       [ [("anomaly_score", PNum 0); ("system_health", PNum 100);
          ("active_threats", PNum 0)];
         [("signature_matches", PNum 0); ("suspicious_files", PNum 0);
          ("confidence_level", PNum 0)];
         [("threat_probability", PNum 0); ("prediction_accuracy", PNum 0);
          ("risk_level", PStr "Low")] ]%string;
     emitted := [];
     clock_pos := 0 |}.

Definition M (A : Type) : Type := world → Hub.result A * world.

#[export] Instance M_ret : MRet M := λ A a w, (Hub.Ok a, w).

#[export] Instance M_bind : MBind M := λ A B k m w,
  match m w with
  | (Hub.Ok a, w') => k a w'
  | (Hub.Raise e, w') => (Hub.Raise e, w')
  end.

Definition raise {A} (e : Hub.exn) : M A := λ w, (Hub.Raise e, w).

Definition attr {A} (field : IntegrationMetrics → A) : M A := λ w,
  (Hub.Ok (field (self w)), w).

Definition with_history (o : IntegrationMetrics)
  (history : list (nat * list (string * nat))) : IntegrationMetrics :=
  {| metrics := metrics o; metrics_history := history; max_history := max_history o |}.

(** [self.metrics[component].update(new_metrics)], for the address of the
    dict of the component *)
Definition update_at (address : nat) (new_metrics : pydict) : M unit := λ w,
  (Hub.Ok tt,
   {| self := self w;
      heap := alter (λ d, dict_update d new_metrics) address (heap w);
      emitted := emitted w; clock_pos := clock_pos w |}).

(** [datetime.now()] *)
Definition now : M nat := λ w,
  (Hub.Ok (clock_pos w),
   {| self := self w; heap := heap w; emitted := emitted w;
      clock_pos := S (clock_pos w) |}).

(** A mutation of [self.metrics_history]. *)
Definition on_history
  (f : list (nat * list (string * nat)) → list (nat * list (string * nat))) : M unit :=
  λ w,
  (Hub.Ok tt,
   {| self := with_history (self w) (f (metrics_history (self w)));
      heap := heap w; emitted := emitted w; clock_pos := clock_pos w |}).

(** [self.metrics_updated.emit(d)] *)
Definition emit (d : list (string * nat)) : M unit := λ w,
  (Hub.Ok tt,
   {| self := self w; heap := heap w; emitted := emitted w ++ [d];
      clock_pos := clock_pos w |}).

(** [update_metrics] *)
Definition update_metrics (component : string) (new_metrics : pydict) : M unit :=
  outer ← attr metrics;
  match dict_get outer component with
  | Some address =>
      _ ← update_at address new_metrics;
      timestamp ← now;
      copy ← attr metrics;
      _ ← on_history (λ history, history ++ [(timestamp, copy)]);
      history ← attr metrics_history;
      limit ← attr max_history;
      _ ← (if decide (limit < length history)%nat then on_history (drop 1)
           else mret tt);
      outer ← attr metrics;
      emit outer
  | None => mret tt
  end.

(** [d[component][key]] for an outer dict [d] *)
Definition getitem2 (d : list (string * nat)) (component key : string) : M pyval := λ w,
  match dict_get d component with
  | Some address =>
      match dict_get (default [] (heap w !! address)) key with
      | Some v => (Hub.Ok v, w)
      | None => (Hub.Raise (Hub.KeyError key), w)
      end
  | None => (Hub.Raise (Hub.KeyError component), w)
  end.

(** The number in a numeric context. *)
Definition py_float (v : pyval) : M R :=
  match as_num v with
  | Some x => mret x
  | None => raise Hub.TypeError
  end.

(** [{'Low': 0.2, 'Medium': 0.5, 'High': 0.8, 'Critical': 1.0}.get(v, 0.0)]:
    a list or a dict is no key. *)
Definition risk_of (v : pyval) : M R :=
  match v with
  | PStr s =>
      mret (if String.eqb s "Low" then 0.2
            else if String.eqb s "Medium" then 0.5
            else if String.eqb s "High" then 0.8
            else if String.eqb s "Critical" then 1
            else 0)
  | PList _ | PDict _ => raise Hub.TypeError
  | _ => mret 0
  end.

(** [get_threat_level] *)
Definition get_threat_level : M R :=
  outer ← attr metrics;
  v ← getitem2 outer "neural" "system_health";
  system_health ← py_float v;
  let neural_threat := (100 - system_health) / 100 in
  outer ← attr metrics;
  v ← getitem2 outer "quantum" "suspicious_files";
  suspicious_files ← py_float v;
  let quantum_threat := suspicious_files / 100 in
  outer ← attr metrics;
  v ← getitem2 outer "temporal" "risk_level";
  temporal_threat ← risk_of v;
  mret (neural_threat * 0.4 + quantum_threat * 0.3 + temporal_threat * 0.3).

(** [get_system_status] *)
Definition get_system_status : M string :=
  threat_level ← get_threat_level;
  mret (if Rlt_dec threat_level 0.2 then "Система безопасна"
        else if Rlt_dec threat_level 0.4 then "Требуется внимание"
        else if Rlt_dec threat_level 0.6 then "Повышенная опасность"
        else if Rlt_dec threat_level 0.8 then "Высокий риск"
        else "Критическая ситуация")%string.

(** ** Notions for the properties of the metrics *)

(** What an outer dict, the live one or a copy, shows for a key of a
    component. *)
Definition shown (w : world) (d : list (string * nat)) (component key : string)
  : option pyval :=
  address ← dict_get d component;
  inner ← heap w !! address;
  dict_get inner key.

(** Every entry of the history is a shallow copy of the live dict. *)
Definition shallow_copies (o : IntegrationMetrics) : Prop :=
  Forall (λ entry, entry.2 = metrics o) (metrics_history o).

End Metrics.

(** ** Concrete hubs for the examples *)

Definition example_clock : nat → string := λ _, "2024-01-01T00:00:00"%string.

(** A constructed hub that has emitted nothing. *)
Definition example_hub : Hub.world :=
  {| Hub.self := Hub.__init__; Hub.events := [];
     Hub.clock := example_clock; Hub.clock_pos := 0 |}.

(** A hub with the signatures [signatures] and the statuses [status]. *)
Definition example_hub_with (signatures : pydict) (status : list (string * bool))
  : Hub.world :=
  {| Hub.self :=
       Hub.with_components_status (Hub.with_quantum_signatures Hub.__init__ signatures)
         status;
     Hub.events := []; Hub.clock := example_clock; Hub.clock_pos := 0 |}.

(** A stored signature whose score is a string. *)
Definition example_unreadable : pydict :=
  [("old.bin", PDict [("uniqueness_score", PStr "high")])]%string.

(** A stored signature as the engine returns it, without its objects. *)
Definition example_signatures : pydict :=
  [("a.bin", PDict [("confidence", PNum 0.95); ("uniqueness_score", PNum 0.2)])]%string.

Definition example_quantum_active : list (string * bool) :=
  [("neural_ecosystem", false); ("quantum_signatures", true);
   ("temporal_prediction", false)]%string.

(** A hub with the neural data [data], the predictions [predictions] and
    the neural component active. *)
Definition example_hub_data (data predictions : pydict) : Hub.world :=
  {| Hub.self :=
       {| Hub.neural_data := data;
          Hub.quantum_signatures := [];
          Hub.temporal_predictions := predictions;
          Hub.system_status_data := [];
          Hub.components_status :=
            [("neural_ecosystem", true); ("quantum_signatures", false);
             ("temporal_prediction", false)]%string;
          Hub.protection_weights := Hub.protection_weights Hub.__init__;
          Hub.anomaly_counters := Hub.anomaly_counters Hub.__init__;
          Hub.threat_history := [] |};
     Hub.events := []; Hub.clock := example_clock; Hub.clock_pos := 0 |}.

(** A predicted threat that holds an object. *)
Definition example_prediction : pydict :=
  [("probability", PNum 0.9); ("payload", PObj)]%string.

(** Seven days of one threat each. *)
Definition example_week : list pyval := replicate 7 (PDict [("count", PNum 1)]%string).

(** * The pipeline *)

Section Pipeline.

(** [hashlib.sha256], [hashlib.md5], [hashlib.sha1], [hashlib.blake2b] *)
Variables sha256 md5 sha1 blake2b : bytes → bytes.

(** The tapes of the random generator. *)
Variable unit_tape : nat → R.
Variable int_tape : nat → nat.

(** The bound on the iterations of a [while] loop in the model. *)
Variable fuel : nat.

(** The pixels that PIL's rasteriser covers for the ellipse inscribed in a
    bounding box [(x0, y0, x1, y1)]. *)
Variable ellipse_pixels : R → R → R → R → list (nat * nat).

(** *** [random] *)

(** [random.random()] *)
Definition random : M R := λ s,
  (Ok (unit_tape (rng_pos s)), {| self := self s; rng_pos := S (rng_pos s) |}).

(** [random.uniform(a, b)] *)
Definition uniform (a b : R) : M R :=
  u ← random; mret (a + (b - a) * u).

(** [random.randrange(n)] *)
Definition randrange (n : nat) : M nat := λ s,
  if decide (n = 0%nat) then (Raise ValueError, s)
  else (Ok (int_tape (rng_pos s) mod n)%nat,
        {| self := self s; rng_pos := S (rng_pos s) |}).

(** *** [_calculate_complex_hash] *)

(** The branch for files below the threshold: [f.read()], three one-shot
    hashes, and the hash of their concatenation. *)
Definition hash_whole (f : bytes) : bytes :=
  let content := f in
  let sha256_d := Hashlib.digest (Hashlib.new sha256 content) in
  let md5_d := Hashlib.digest (Hashlib.new md5 content) in
  let sha1_d := Hashlib.digest (Hashlib.new sha1 content) in
  let combined := sha256_d ++ md5_d ++ sha1_d in
  Hashlib.digest (Hashlib.new blake2b combined).

(** The branch for large files: three incremental hashes fed chunk by
    chunk. *)
Definition hash_streamed (f : bytes) : bytes :=
  let '(h256, hmd5, hsha1) :=
    read_loop CHUNK (Hashlib.new sha256 [], Hashlib.new md5 [], Hashlib.new sha1 []) f in
  let combined := Hashlib.digest h256 ++ Hashlib.digest hmd5 ++ Hashlib.digest hsha1 in
  Hashlib.digest (Hashlib.new blake2b combined).

(** The handler of [_calculate_complex_hash] prints and re-raises, so an
    exception passes through unchanged. *)
Definition _calculate_complex_hash (fs : filesystem) (file_path : string) : result bytes :=
  match getsize fs file_path with
  | Ok size =>
      if (size <? SIZE_THRESHOLD)%N then
        match open_rb fs file_path with
        | Ok f => Ok (hash_whole f)
        | Raise e => Raise e
        | Diverge => Diverge
        end
      else
        match open_rb fs file_path with
        | Ok f => Ok (hash_streamed f)
        | Raise e => Raise e
        | Diverge => Diverge
        end
  | Raise e => Raise e
  | Diverge => Diverge
  end.

(** *** [_hash_to_quantum_state] *)

(** [while dim1 == dim2: dim2 = random.randrange(n)] *)
Fixpoint redraw (k : nat) (n dim1 dim2 : nat) : M nat :=
  if decide (dim1 = dim2) then
    match k with
    | O => diverge
    | S k' => dim2' ← randrange n; redraw k' n dim1 dim2'
    end
  else mret dim2.

(** [self.entanglement_pairs.append(pair)] *)
Definition append_pair (pair : nat * nat) : M unit :=
  pairs ← attr entanglement_pairs;
  set_entanglement_pairs (pairs ++ [pair]).

(** [[min(1.0, max(0.0, v + random.uniform(-0.1, 0.1))) for v in values]] *)
Definition variation_of (values : list R) : M (list R) :=
  mapM (λ v, u ← uniform (-0.1) 0.1; mret (clamp01 (v + u))) values.

Definition _hash_to_quantum_state (hash_bytes : bytes) : M QuantumState :=
  D ← attr dimensions;
  chunk_size ← floordiv (length hash_bytes) D;
  quantum_state ← for_each (seq 0 D) (λ i quantum_state,
    D ← attr dimensions;
    let start := (i * chunk_size)%nat in
    let end_ := if decide (i < D - 1)%nat then (start + chunk_size)%nat
                else length hash_bytes in
    let chunk := slice hash_bytes start end_ in
    let values := (λ b, INR (Byte.to_nat b) / 255) <$> chunk in
    count ← attr superposition_count;
    superposition ← for_each (seq 0 count) (λ _ superposition,
      variation ← variation_of values;
      mret (superposition ++ [variation])) [];
    mret (quantum_state ++ [superposition])) [];
  set_entanglement_pairs [];;
  D ← attr dimensions;
  for_each (seq 0 (D / 2)) (λ _ _,
    D ← attr dimensions;
    dim1 ← randrange D;
    dim2 ← randrange D;
    dim2 ← redraw fuel D dim1 dim2;
    append_pair (dim1, dim2)) tt;;
  mret quantum_state.

(** *** [_evolve_quantum_state] *)

(** [[v / total for v in superposition]] when [total > 0], else the
    superposition itself *)
Definition normalize (superposition : list R) : list R :=
  let total := sum superposition in
  if Rlt_dec 0 total then (λ v, v / total) <$> superposition
  else superposition.

(** [min(1.0, max(0.0, math.sin(v * math.pi) ** 2))] *)
Definition transform (v : R) : R := clamp01 (sin (v * PI) ^ 2).

(** The gate applied to one superposition. *)
Definition gate (superposition : list R) : list R :=
  let normalized := normalize superposition in
  transform <$> normalized.

(** [evolved_state[d][i][j]] *)
Definition getitem3 (st : QuantumState) (d i j : nat) : M R :=
  dimension ← getitem st d;
  superposition ← getitem dimension i;
  getitem superposition j.

(** [evolved_state[d][i][j] = v]: the inner list is updated in place, so
    the lists that hold it see the new value. *)
Definition setitem3 (st : QuantumState) (d i j : nat) (v : R) : M QuantumState :=
  dimension ← getitem st d;
  superposition ← getitem dimension i;
  superposition' ← setitem superposition j v;
  dimension' ← setitem dimension i superposition';
  setitem st d dimension'.

(** The body of the innermost entanglement loop. *)
Definition entangle_value (dim1 dim2 i j : nat) (evolved_state : QuantumState)
  : M QuantumState :=
  x ← getitem3 evolved_state dim1 i j;
  y ← getitem3 evolved_state dim2 i j;
  let mean := (x + y) / 2 in
  x ← getitem3 evolved_state dim1 i j;
  y ← getitem3 evolved_state dim2 i j;
  let diff := Rabs (x - y) / 4 in
  evolved_state ← setitem3 evolved_state dim1 i j (mean + diff);
  setitem3 evolved_state dim2 i j (mean - diff).

(** The loops over [i] and [j] for one pair [(dim1, dim2)]. *)
Definition entangle_pair (pair : nat * nat) (evolved_state : QuantumState)
  : M QuantumState :=
  let '(dim1, dim2) := pair in
  a ← getitem evolved_state dim1;
  b ← getitem evolved_state dim2;
  for_each (seq 0 (length a `min` length b)) (λ i evolved_state,
    r ← random;
    if Rlt_dec r 0.5 then
      a ← getitem evolved_state dim1;
      ai ← getitem a i;
      b ← getitem evolved_state dim2;
      bi ← getitem b i;
      for_each (seq 0 (length ai `min` length bi)) (entangle_value dim1 dim2 i)
        evolved_state
    else mret evolved_state) evolved_state.

(** The entanglement loop over [self.entanglement_pairs]. *)
Definition entangle (evolved_state : QuantumState) : M QuantumState :=
  pairs ← attr entanglement_pairs;
  for_each pairs entangle_pair evolved_state.

Definition _evolve_quantum_state (quantum_state : QuantumState) : M QuantumState :=
  let evolved_state :=
    (λ dimension : list (list R), gate <$> dimension) <$> quantum_state in
  entangle evolved_state.

(** [range(self.evolution_steps)] rounds of evolution, as in
    [generate_signature]. *)
Definition evolve_rounds (steps : nat) (quantum_state : QuantumState) : M QuantumState :=
  for_each (seq 0 steps) (λ _ quantum_state, _evolve_quantum_state quantum_state)
    quantum_state.

(** *** [_analyze_quantum_state] *)

(** [np.zeros((n, m))] *)
Definition zeros (n m : nat) : Matrix := replicate n (replicate m 0).

(** [a[i, j]] *)
Definition getitem2 (a : Matrix) (i j : nat) : M R :=
  row ← getitem a i; getitem row j.

(** [a[i, j] = v] *)
Definition setitem2 (a : Matrix) (i j : nat) (v : R) : M Matrix :=
  row ← getitem a i;
  row' ← setitem row j v;
  setitem a i row'.

(** One row of [np.divide(a, row_sums, out=np.zeros_like(a),
    where=row_sums != 0)], for its sum [row_sum] in
    [row_sums = a.sum(axis=1, keepdims=True)]. *)
Definition normalize_row (row : list R) : list R :=
  let row_sum := sum row in
  (λ c, if Req_dec_T row_sum 0 then 0 else c / row_sum) <$> row.

Definition normalize_rows (a : Matrix) : Matrix := normalize_row <$> a.

(** [i in pair] *)
Definition in_pair (i : nat) (pair : nat * nat) : bool :=
  bool_decide (i = pair.1) || bool_decide (i = pair.2).

(** [any(i in pair or j in pair for pair in pairs)] *)
Definition any_coupled (i j : nat) (pairs : list (nat * nat)) : bool :=
  existsb (λ pair, in_pair i pair || in_pair j pair) pairs.

(** [x % m] on floats, for [m > 0] *)
Definition fmod (x m : R) : R := x - IZR (Int_part (x / m)) * m.

(** The first loop of [_analyze_quantum_state]: the matrix of the
    "collapsed" state. *)
Definition collapse (quantum_state : QuantumState) : M Matrix :=
  D ← attr dimensions;
  let collapsed_state := zeros D D in
  for_each (enumerate quantum_state) (λ '(i, dimension) collapsed_state,
    for_each dimension (λ superposition collapsed_state,
      D ← attr dimensions;
      for_each (enumerate (take D superposition)) (λ '(j, value) collapsed_state,
        c ← getitem2 collapsed_state i j;
        setitem2 collapsed_state i j (c + value)) collapsed_state) collapsed_state)
    collapsed_state.

(** The loop of [_analyze_quantum_state] that fills the phases. *)
Definition phase_matrix : M Matrix :=
  D ← attr dimensions;
  let phases := zeros D D in
  D ← attr dimensions;
  for_each (seq 0 D) (λ i phases,
    D ← attr dimensions;
    for_each (seq 0 D) (λ j phases,
      pairs ← attr entanglement_pairs;
      if any_coupled i j pairs then
        v ← uniform 0 (2 * PI);
        setitem2 phases i j v
      else
        setitem2 phases i j (fmod (INR (i * j)) (2 * PI))) phases) phases.

Definition _analyze_quantum_state (quantum_state : QuantumState) : M SignatureData :=
  collapsed_state ← collapse quantum_state;
  let normalized_state := normalize_rows collapsed_state in
  phases ← phase_matrix;
  pairs ← attr entanglement_pairs;
  mret {| amplitudes := normalized_state; phases := phases; entanglement := pairs |}.

(** *** [_calculate_uniqueness] *)

(** [math.log2(x)] *)
Definition log2 (x : R) : M R :=
  if Rlt_dec 0 x then mret (ln x / ln 2) else raise ValueError.

(** [a / b] on floats *)
Definition truediv (a b : R) : M R :=
  if Req_dec_T b 0 then raise ZeroDivisionError else mret (a / b).

Definition _calculate_uniqueness (signature_data : SignatureData) : M R :=
  let amplitudes := concat (amplitudes signature_data) in
  entropy ← for_each amplitudes (λ a entropy,
    if Rlt_dec 0 a then l ← log2 a; mret (entropy - a * l)
    else mret entropy) 0;
  max_entropy ← log2 (INR (length amplitudes));
  normalized_entropy ←
    (if Rlt_dec 0 max_entropy then truediv entropy max_entropy else mret 0);
  D ← attr dimensions;
  half ← truediv (INR D) 2;
  entanglement_factor ← truediv (INR (length (entanglement signature_data))) half;
  let uniqueness := normalized_entropy * 0.7 + entanglement_factor * 0.3 in
  mret (Rmin 1 uniqueness).

(** *** [_visualize_quantum_signature] *)

(** [a[i, j]] for integer indices, negative ones counting from the end *)
Definition getitem2z (a : Matrix) (i j : Z) : M R :=
  let index (n : nat) (k : Z) : nat :=
    if decide (k < 0)%Z then
      (if decide (k + Z.of_nat n < 0)%Z then n else Z.to_nat (k + Z.of_nat n))
    else Z.to_nat k in
  row ← getitem a (index (length a) i);
  getitem row (index (length row) j).

(** [draw.point((x, y), fill=...)] *)
Definition draw_point (img : Image) (xy : nat * nat) (fill : Z * Z * Z * Z) : M Image :=
  mret (putpixel img xy fill).

(** [draw.ellipse((x0, y0, x1, y1), fill=...)] *)
Definition draw_ellipse (img : Image) (x0 y0 x1 y1 : R) (fill : Z * Z * Z * Z) : M Image :=
  if Rlt_dec x1 x0 then raise ValueError
  else if Rlt_dec y1 y0 then raise ValueError
  else mret (foldl (λ img xy, putpixel img xy fill) img (ellipse_pixels x0 y0 x1 y1)).

(** The body of the background loop for the pixel [(x, y)]. *)
Definition draw_cell (signature_data : SignatureData) (cell_width cell_height : R)
  (y x : nat) (img : Image) : M Image :=
  q ← truediv (INR y) cell_height;
  let i := py_int q in
  q ← truediv (INR x) cell_width;
  let j := py_int q in
  D ← attr dimensions;
  if decide (i < Z.of_nat D ∧ j < Z.of_nat D)%Z then
    amplitude ← getitem2z (amplitudes signature_data) i j;
    phase ← getitem2z (phases signature_data) i j;
    let hue := (phase / (2 * PI)) * 360 in
    let saturation := 0.8 + amplitude * 0.2 in
    let value := 0.5 + amplitude * 0.5 in
    let h := hue / 60 in
    let i := py_int h in
    let f := h - IZR i in
    let p := value * (1 - saturation) in
    let q := value * (1 - saturation * f) in
    let t := value * (1 - saturation * (1 - f)) in
    let '(r, g, b) := hsv_sector i value p q t in
    let '(r, g, b) := (py_int (r * 255), py_int (g * 255), py_int (b * 255)) in
    let alpha := py_int (127 + 128 * amplitude) in
    draw_point img (x, y) (r, g, b, alpha)
  else mret img.

(** The body of the connector loop for the step [i] of the line between
    [(x1, y1)] and [(x2, y2)]. *)
Definition draw_step (x1 y1 x2 y2 : R) (steps : nat) (i : nat) (img : Image) : M Image :=
  t ← truediv (INR i) (INR steps);
  let x := x1 + (x2 - x1) * t + 20 * sin (t * PI) in
  let y := y1 + (y2 - y1) * t + 20 * sin (t * PI) in
  let hue := fmod (t * 360) 360 in
  let saturation := 0.8 in
  let value := 0.9 in
  let h := hue / 60 in
  let i := py_int h in
  let f := h - IZR i in
  let p := value * (1 - saturation) in
  let q := value * (1 - saturation * f) in
  let t_val := value * (1 - saturation * (1 - f)) in
  let '(r, g, b) := hsv_sector i value p q t_val in
  let '(r, g, b) := (py_int (r * 255), py_int (g * 255), py_int (b * 255)) in
  let size := IZR (py_int (3 + 2 * sin (t * PI * 2))) in
  draw_ellipse img (x - size) (y - size) (x + size) (y + size) (r, g, b, 200%Z).

Definition _visualize_quantum_signature (signature_data : SignatureData) : M QImage :=
  res ← attr resolution;
  let img := Image_new res res (0, 0, 0, 0)%Z in
  res ← attr resolution;
  D ← attr dimensions;
  cell_width ← truediv (INR res) (INR D);
  res ← attr resolution;
  D ← attr dimensions;
  cell_height ← truediv (INR res) (INR D);
  res ← attr resolution;
  img ← for_each (seq 0 res) (λ y img,
    res ← attr resolution;
    for_each (seq 0 res) (draw_cell signature_data cell_width cell_height y) img) img;
  img ← for_each (entanglement signature_data) (λ '(dim1, dim2) img,
    let x1 := (INR dim1 + 0.5) * cell_width in
    let y1 := (INR dim1 + 0.5) * cell_height in
    let x2 := (INR dim2 + 0.5) * cell_width in
    let y2 := (INR dim2 + 0.5) * cell_height in
    let steps := 100%nat in
    for_each (seq 0 steps) (draw_step x1 y1 x2 y2 steps) img) img;
  mret {| qdata := tobytes img; qwidth := width img; qheight := height img |}.

(** *** [generate_signature] *)

Definition generate_signature (fs : filesystem) (file_path : string) (evolution : bool)
  : M (option SignatureResult) :=
  try_except
    (file_hash ← lift (_calculate_complex_hash fs file_path);
     quantum_state ← _hash_to_quantum_state file_hash;
     quantum_state ←
       (if evolution then
          steps ← attr evolution_steps;
          evolve_rounds steps quantum_state
        else mret quantum_state);
     signature_data ← _analyze_quantum_state quantum_state;
     signature_image ← _visualize_quantum_signature signature_data;
     confidence ← attr confidence_level;
     uniqueness_score ← _calculate_uniqueness signature_data;
     mret (Some {| res_signature_data := signature_data;
                   res_signature_image := signature_image;
                   res_confidence := confidence;
                   res_uniqueness_score := uniqueness_score |}))
    (λ e, mret None).

(** ** Specifications of monadic code *)

(** [wp strict m s Q]: run from [s], the computation [m] raises nothing and,
    when it returns, its value and final state satisfy [Q]; with
    [strict = true] it does return. *)
Definition wp {A} (strict : bool) (m : M A) (s : state) (Q : A → state → Prop) : Prop :=
  match m s with
  | (Ok a, s') => Q a s'
  | (Raise _, _) => False
  | (Diverge, _) => strict = false
  end.

(** In every window of [k] consecutive draws of the integer tape, not all
    draws are the index [d] modulo [n]: the rejection loop of
    [_hash_to_quantum_state] then stops within [k] iterations. *)
Definition fair (k n : nat) : Prop :=
  ∀ p d, ∃ j, (j < k)%nat ∧ (int_tape (p + j) mod n)%nat ≠ d.

Definition in01 (v : R) : Prop := 0 <= v <= 1.

(** Every value of a state lies in [[0, 1]]. *)
Definition unit_state (st : QuantumState) : Prop := Forall (Forall (Forall in01)) st.

(** A coupling pair over [n] dimensions: two distinct indices below [n]. *)
Definition valid_pair (n : nat) (pair : nat * nat) : Prop :=
  pair.1 ≠ pair.2 ∧ (pair.1 < n)%nat ∧ (pair.2 < n)%nat.

(** The value at position [(i, j)] of dimension [d], when there is one. *)
Definition cell (st : QuantumState) (d i j : nat) : option R :=
  a ← st !! d; ai ← a !! i; ai !! j.

(** The state with the value at [(d, i, j)] replaced, when there is one. *)
Definition update3 (st : QuantumState) (d i j : nat) (v : R) : QuantumState :=
  match st !! d with
  | Some a =>
      match a !! i with
      | Some ai => <[d := <[i := <[j := v]> ai]> a]> st
      | None => st
      end
  | None => st
  end.

(** The lengths of the variants of every dimension. *)
Definition shape (st : QuantumState) : list (list nat) :=
  (λ a : list (list R), length <$> a) <$> st.

(** The two values that the entanglement writes for the values [x], [y]. *)
Definition coupled (x y : R) : R * R :=
  let mean := (x + y) / 2 in
  let diff := Rabs (x - y) / 4 in
  (mean + diff, mean - diff).

(** The state after one run of the body of the innermost entanglement
    loop at [(i, j)] for the dimensions [dim1] and [dim2] with values [x]
    and [y]. *)
Definition couple_at (st : QuantumState) (dim1 dim2 i j : nat) (x y : R) : QuantumState :=
  update3 (update3 st dim1 i j (coupled x y).1) dim2 i j (coupled x y).2.

(** The sum of the two values of a pair of dimensions at one position. *)
Definition pair_sum (st : QuantumState) (dim1 dim2 i j : nat) : option R :=
  x ← cell st dim1 i j; y ← cell st dim2 i j; Some (x + y).

(** The entry [(i, j)] of a matrix, when there is one. *)
Definition entry (a : Matrix) (i j : nat) : option R := row ← a !! i; row !! j.

(** The matrix with the entry [(i, j)] replaced, when there is one. *)
Definition update2 (a : Matrix) (i j : nat) (v : R) : Matrix :=
  match a !! i with
  | Some row => <[i := <[j := v]> row]> a
  | None => a
  end.

(** A matrix of [n] rows and [m] columns. *)
Definition has_shape (n m : nat) (a : Matrix) : Prop :=
  length a = n ∧ Forall (λ row, length row = m) a.

(** The draws of [random.random()] lie in [[0, 1)]. *)
Definition unit_draws : Prop := ∀ k, 0 <= unit_tape k < 1.

(** [i] or [j] takes part in one of the pairs. *)
Definition participates (i j : nat) (pairs : list (nat * nat)) : Prop :=
  ∃ dim1 dim2, (dim1, dim2) ∈ pairs ∧ (i = dim1 ∨ i = dim2 ∨ j = dim1 ∨ j = dim2).

(** What the phase loop writes at [(i, j)], for the generator at position
    [p0] before the loop and [p] after it: a fresh draw of
    [random.uniform(0, 2 * math.pi)] when [i] or [j] is coupled, else
    [(i * j) % (2 * math.pi)]; a value of [[0, 2π)] in both cases, for
    draws of [random.random()] in [[0, 1)]. *)
Definition phase_ok (pairs : list (nat * nat)) (p0 p : nat) (i j : nat) (v : R) : Prop :=
  (unit_draws → 0 <= v < 2 * PI) ∧
  if any_coupled i j pairs
  then ∃ k, (p0 ≤ k < p)%nat ∧ v = 0 + (2 * PI - 0) * unit_tape k
  else v = fmod (INR (i * j)) (2 * PI).

(** *** The uniqueness score as the specification words it *)

(** [H = −Σ a·log2(a)] over the entries [a > 0]; an entry equal to zero
    contributes zero. *)
Definition spec_entropy (entries : list R) : R :=
  - sum ((λ a, if Rlt_dec 0 a then a * (ln a / ln 2) else 0) <$> entries).

(** [uniqueness = clamp(0.7·H_norm + 0.3·entanglement_factor, 0, 1)] with
    [H_norm = H / log2(D²)], zero when [D² ≤ 1], and
    [entanglement_factor = |CouplingSet| / (D/2)] clamped to [[0, 1]]. *)
Definition spec_uniqueness (D : nat) (signature_data : SignatureData) : R :=
  let H := spec_entropy (concat (amplitudes signature_data)) in
  let H_norm :=
    if decide (D * D ≤ 1)%nat then 0 else H / (ln (INR (D * D)) / ln 2) in
  let entanglement_factor :=
    clamp01 (INR (length (entanglement signature_data)) / (INR D / 2)) in
  clamp01 (0.7 * H_norm + 0.3 * entanglement_factor).

(** A byte. *)
Definition is_byte (v : Z) : Prop := (0 ≤ v ≤ 255)%Z.

(** An RGBA image of [res] by [res] pixels. *)
Definition valid_image (res : nat) (img : Image) : Prop :=
  width img = res ∧ height img = res ∧ length (pixels img) = (res * res)%nat ∧
  Forall (λ '(r, g, b, a), is_byte r ∧ is_byte g ∧ is_byte b ∧ is_byte a) (pixels img).

(** A valid image buffer: a [QImage] of [res] by [res] pixels over four
    bytes per pixel. *)
Definition valid_buffer (res : nat) (q : QImage) : Prop :=
  qwidth q = res ∧ qheight q = res ∧
  length (qdata q) = (4 * (res * res))%nat ∧ Forall is_byte (qdata q).

(** ** Notions for the further properties *)

(** The chunk of the digest that the dimension [i] of [D] is built from:
    [hash_bytes[start:end]] in [_hash_to_quantum_state]. *)
Definition chunk_of (hash_bytes : bytes) (D i : nat) : bytes :=
  let chunk_size := (length hash_bytes / D)%nat in
  let start := (i * chunk_size)%nat in
  let end_ := if decide (i < D - 1)%nat then (start + chunk_size)%nat
              else length hash_bytes in
  slice hash_bytes start end_.

(** [b / 255] *)
Definition scaled (b : byte) : R := INR (Byte.to_nat b) / 255.

(** A value [v] drawn around [x]: it lies in [[0, 1]], within the jitter of
    [x] when the draws of the generator lie in [[0, 1)] and [x] in [[0, 1]]. *)
Definition jitter_ok (v x : R) : Prop :=
  in01 v ∧ (unit_draws → in01 x → Rabs (v - x) <= 0.1).

(** The value that [collapse] accumulates at [(i, j)]: the sum over the
    variants of the dimension [i] of their value at [j], for [j < D]. *)
Definition column_sum (quantum_state : QuantumState) (D i j : nat) : R :=
  sum ((λ superposition : list R, default 0 (take D superposition !! j))
         <$> default [] (quantum_state !! i)).

(** A pair of two different indices, each a draw of [random.randrange(n)]. *)
Definition drawn_pair (n : nat) (pair : nat * nat) : Prop :=
  pair.1 ≠ pair.2 ∧
  ∃ p1 p2, pair.1 = (int_tape p1 mod n)%nat ∧ pair.2 = (int_tape p2 mod n)%nat.

(** The entry [(i, j)] of a matrix, zero where there is none. *)
Definition get2 (a : Matrix) (i j : nat) : R := default 0 (entry a i j).

(** Every value of a state is zero. *)
Definition zero_state (st : QuantumState) : Prop :=
  Forall (Forall (Forall (λ v, v = 0))) st.

(** A pixel that has been painted: its alpha channel is at least [127]. *)
Definition painted (p : Z * Z * Z * Z) : Prop := (127 ≤ p.2 ≤ 255)%Z.

(** The first [k] pixels of an image, row by row, are painted. *)
Definition painted_upto (k : nat) (img : Image) : Prop :=
  ∀ idx p, (idx < k)%nat → pixels img !! idx = Some p → painted p.

(** The computation never returns from [s]. *)
Definition diverges {A} (m : M A) (s : state) : Prop := (m s).1 = Diverge.

(** ** Concrete inputs for the examples *)

(** A generator whose [random.random()] always draws [0] and whose integer
    draws count upwards. *)
Definition example_unit_tape : nat → R := λ _, 0.
Definition example_int_tape : nat → nat := λ k, k.

(** Stand-ins for the digests of [hashlib], of the sizes of the real ones. *)
Definition example_digest (size : nat) : bytes → bytes := λ _, replicate size x00.

(** A rasteriser that covers no pixel. *)
Definition example_ellipse_pixels : R → R → R → R → list (nat * nat) := λ _ _ _ _, [].

(** A file system with one empty file. *)
Definition example_fs : filesystem := λ path,
  if String.eqb path "empty.bin" then Some {| content := []; readable := true |}
  else None.

(** A freshly constructed engine and generator. *)
Definition example_state : state := {| self := __init__; rng_pos := 0 |}.

(** A state with one non-zero and one zero dimension, and an engine after a
    construction that coupled the dimensions [0] and [1] four times. *)
Definition example_quantum_state : QuantumState := [[[1]]; [[0]]].
Definition example_pairs : list (nat * nat) := [(0, 1); (1, 0); (0, 1); (1, 0)]%nat.
Definition example_analysis_state : state :=
  {| self := with_pairs __init__ example_pairs; rng_pos := 1032 |}.

Definition empty_signature_data : SignatureData :=
  {| amplitudes := []; phases := []; entanglement := [] |}.

(** A generator whose integer draws are all [0]. *)
Definition example_constant_tape : nat → nat := λ _, 0%nat.

(** A generator whose integer draws come in equal pairs, [0, 0, 1, 1, 2,
    2, ...]: two draws at an even position collide, so the rejection loop
    of [_hash_to_quantum_state] is entered. *)
Definition example_colliding_tape : nat → nat := λ k, (k / 2)%nat.

(** An engine whose [dimensions] attribute was set to [1], the other
    attributes as constructed. *)
Definition example_single_state : state :=
  {| self :=
       {| dimensions := 1;
          resolution := resolution __init__;
          color_space := color_space __init__;
          superposition_count := superposition_count __init__;
          entanglement_pairs := entanglement_pairs __init__;
          confidence_level := confidence_level __init__;
          evolution_steps := evolution_steps __init__ |};
     rng_pos := 0 |}.

(** Signature data of an engine of eight dimensions with all entries zero. *)
Definition example_flat_data : SignatureData :=
  {| amplitudes := replicate 8 (replicate 8 0);
     phases := replicate 8 (replicate 8 0);
     entanglement := [(0, 1)]%nat |}.

(** The value of a run that returned, else [default]. *)
Definition value_of {A} (default : A) (r : result A) : A :=
  match r with
  | Ok a => a
  | _ => default
  end.

(** An evolved state of eight dimensions, one variant and one value each,
    with pairs that share the dimension [1]. *)
Definition overlap_state : QuantumState :=
  [[[1]]; [[0]]; [[1]]; [[0]]; [[0]]; [[0]]; [[0]]; [[0]]].
Definition overlap_pairs : list (nat * nat) := [(0, 1); (1, 2); (3, 4); (5, 6)]%nat.
Definition overlap_start : state :=
  {| self := with_pairs __init__ overlap_pairs; rng_pos := 0 |}.
Definition overlap_result : QuantumState :=
  [[[(coupled 1 0).1]];
   [[(coupled (coupled 1 0).2 1).1]];
   [[(coupled (coupled 1 0).2 1).2]];
   [[(coupled 0 0).1]]; [[(coupled 0 0).2]];
   [[(coupled 0 0).1]]; [[(coupled 0 0).2]];
   [[0]]].

(** * Properties *)

(** ** Rules for [wp] *)

Lemma wp_mono {A} b (m : M A) s (Q Q' : A → state → Prop) :
  wp b m s Q → (∀ a s', Q a s' → Q' a s') → wp b m s Q'.
Proof. unfold wp. destruct (m s) as [[a| |] s']; auto. Qed.

Lemma wp_ret {A} b (a : A) s (Q : A → state → Prop) : Q a s → wp b (mret a) s Q.
Proof. done. Qed.

Lemma wp_bind {A B} b (m : M A) (k : A → M B) s (Q : B → state → Prop) :
  wp b m s (λ a s', wp b (k a) s' Q) → wp b (m ≫= k) s Q.
Proof.
  unfold wp, mbind, M_bind. destruct (m s) as [[a| |] s']; auto.
Qed.

Lemma bind_ok {A B} (m : M A) (k : A → M B) s b s' :
  (m ≫= k) s = (Ok b, s') → ∃ a s1, m s = (Ok a, s1) ∧ k a s1 = (Ok b, s').
Proof.
  unfold mbind, M_bind. destruct (m s) as [[a| |] s1]; try done. eauto.
Qed.

Lemma wp_ok {A} b (m : M A) s Q a s' : wp b m s Q → m s = (Ok a, s') → Q a s'.
Proof. unfold wp. intros H Hm. by rewrite Hm in H. Qed.

Lemma wp_strict_ok {A} (m : M A) s Q : wp true m s Q → ∃ a s', m s = (Ok a, s') ∧ Q a s'.
Proof. unfold wp. destruct (m s) as [[a| |] s']; try done. eauto. Qed.

Lemma wp_attr {A} b (field : Engine → A) s (Q : A → state → Prop) :
  Q (field (self s)) s → wp b (attr field) s Q.
Proof. done. Qed.

Lemma wp_lift {A} b (a : A) s (Q : A → state → Prop) : Q a s → wp b (lift (Ok a)) s Q.
Proof. done. Qed.

Lemma wp_random b s (Q : R → state → Prop) :
  Q (unit_tape (rng_pos s)) {| self := self s; rng_pos := S (rng_pos s) |} →
  wp b random s Q.
Proof. done. Qed.

Lemma wp_uniform b lo hi s (Q : R → state → Prop) :
  Q (lo + (hi - lo) * unit_tape (rng_pos s))
    {| self := self s; rng_pos := S (rng_pos s) |} →
  wp b (uniform lo hi) s Q.
Proof. done. Qed.

Lemma wp_randrange b n s (Q : nat → state → Prop) :
  n ≠ 0%nat →
  Q (int_tape (rng_pos s) mod n)%nat {| self := self s; rng_pos := S (rng_pos s) |} →
  wp b (randrange n) s Q.
Proof. intros Hn HQ. unfold wp, randrange. by destruct (decide (n = 0%nat)). Qed.

Lemma wp_set_entanglement_pairs b pairs s (Q : unit → state → Prop) :
  Q tt {| self := with_pairs (self s) pairs; rng_pos := rng_pos s |} →
  wp b (set_entanglement_pairs pairs) s Q.
Proof. done. Qed.

Lemma wp_getitem {A} b (l : list A) i x s (Q : A → state → Prop) :
  l !! i = Some x → Q x s → wp b (getitem l i) s Q.
Proof. intros Hl HQ. unfold wp, getitem. by rewrite Hl. Qed.

Lemma wp_setitem {A} b (l : list A) i x s (Q : list A → state → Prop) :
  (i < length l)%nat → Q (<[i:=x]> l) s → wp b (setitem l i x) s Q.
Proof. intros Hi HQ. unfold wp, setitem. by destruct (decide (i < length l)%nat). Qed.

Lemma wp_truediv b x y s (Q : R → state → Prop) :
  y ≠ 0 → Q (x / y) s → wp b (truediv x y) s Q.
Proof. intros Hy HQ. unfold wp, truediv. by destruct (Req_dec_T y 0). Qed.

(** The loop rule: an invariant indexed by the elements already visited. *)
Lemma wp_for_each_prefix {A S} b (I : list A → S → state → Prop)
    (l : list A) (body : A → S → M S) acc s :
  I [] acc s →
  (∀ done x rest acc s, l = done ++ x :: rest → I done acc s →
     wp b (body x acc) s (λ acc' s', I (done ++ [x]) acc' s')) →
  wp b (for_each l body acc) s (λ acc' s', I l acc' s').
Proof.
  intros H0 Hbody.
  enough (∀ rest done acc s, l = done ++ rest → I done acc s →
            wp b (for_each rest body acc) s (λ acc' s', I l acc' s')) as Hgen
    by (by apply (Hgen l [])).
  clear acc s H0. induction rest as [|x rest IH]; intros done acc s Hl HI.
  - rewrite app_nil_r in Hl. subst. by apply wp_ret.
  - simpl. apply wp_bind. eapply wp_mono; [by eapply Hbody|].
    intros acc' s' HI'. apply (IH (done ++ [x])); [|done].
    by rewrite <- app_assoc.
Qed.

Lemma for_each_cons {A S} (x : A) l (body : A → S → M S) acc :
  for_each (x :: l) body acc = body x acc ≫= λ acc', for_each l body acc'.
Proof. reflexivity. Qed.

(** The loop rule for a run that returns: an invariant of the returning
    runs of the body holds at the end. *)
Lemma for_each_ok {A S} (I : S → state → Prop) (l : list A) (body : A → S → M S)
    acc s acc' s' :
  for_each l body acc s = (Ok acc', s') →
  I acc s →
  (∀ x acc s acc' s', x ∈ l → I acc s → body x acc s = (Ok acc', s') → I acc' s') →
  I acc' s'.
Proof.
  revert acc s. induction l as [|x l IH]; intros acc s Hrun HI Hbody.
  - by injection Hrun as <- <-.
  - rewrite for_each_cons in Hrun.
    apply bind_ok in Hrun as (acc1 & s1 & Hx & Hrun).
    eapply IH; [exact Hrun| |].
    + eapply Hbody; [|exact HI|exact Hx]. by apply elem_of_cons; left.
    + intros y acc2 s2 acc3 s3 Hy. apply Hbody. by apply elem_of_cons; right.
Qed.

Lemma wp_for_each {A S} b (I : S → state → Prop)
    (l : list A) (body : A → S → M S) acc s :
  I acc s →
  (∀ x acc s, x ∈ l → I acc s → wp b (body x acc) s I) →
  wp b (for_each l body acc) s I.
Proof.
  intros H0 Hbody.
  apply (wp_for_each_prefix b (λ _, I)); [done|].
  intros done x rest acc' s' -> HI. apply Hbody; [|done].
  apply elem_of_app. right. apply elem_of_cons. by left.
Qed.


(** ** State construction *)

Lemma clamp01_in01 x : in01 (clamp01 x).
Proof.
  unfold in01, clamp01, Rmin, Rmax.
  repeat destruct Rle_dec; lra.
Qed.

Lemma clamp01_id x : in01 x → clamp01 x = x.
Proof.
  unfold in01, clamp01, Rmin, Rmax.
  repeat destruct Rle_dec; lra.
Qed.

Lemma wp_variation_of b values s :
  wp b (variation_of values) s
    (λ variation s', self s' = self s ∧ Forall in01 variation).
Proof.
  unfold variation_of. revert s.
  induction values as [|v values IH]; intros s; simpl.
  - by apply wp_ret.
  - apply wp_bind, wp_bind, wp_uniform, wp_ret, wp_bind.
    eapply wp_mono; [apply IH|]. intros variation s' [Hs Hv]. apply wp_ret.
    split; [done|]. constructor; [apply clamp01_in01 | done].
Qed.

(** The rejection loop returns an index below [n] other than [dim1]; it
    stops when one of the next [k] draws differs from [dim1]. *)
Lemma wp_redraw b k n dim1 dim2 s :
  n ≠ 0%nat → (dim2 < n)%nat →
  (b = true → dim1 = dim2 →
     ∃ j, (j < k)%nat ∧ (int_tape (rng_pos s + j) mod n)%nat ≠ dim1) →
  wp b (redraw k n dim1 dim2) s
    (λ d s', self s' = self s ∧ d ≠ dim1 ∧ (d < n)%nat).
Proof.
  intros Hn. revert dim2 s. induction k as [|k IH]; intros dim2 s Hlt Hfair; simpl.
  - destruct (decide (dim1 = dim2)) as [->|Hne]; [|by apply wp_ret].
    destruct b; [|done]. destruct Hfair as (j & Hj & _); [done..|lia].
  - destruct (decide (dim1 = dim2)) as [->|Hne]; [|by apply wp_ret].
    apply wp_bind, wp_randrange; [done|].
    eapply wp_mono; [apply IH|]; simpl.
    + by apply Nat.mod_upper_bound.
    + intros Hb Heq. destruct Hfair as (j & Hj & Hd); [done..|].
      destruct j as [|j].
      * rewrite Nat.add_0_r in Hd. congruence.
      * exists j. split; [lia|].
        by rewrite Nat.add_succ_r in Hd.
    + intros d s' (Hs & Hd & Hdn). by rewrite Hs.
Qed.

Lemma wp_append_pair b pair s (Q : unit → state → Prop) :
  Q tt {| self := with_pairs (self s) (entanglement_pairs (self s) ++ [pair]);
          rng_pos := rng_pos s |} →
  wp b (append_pair pair) s Q.
Proof. done. Qed.

(** What [_hash_to_quantum_state] establishes: a state of [D] dimensions
    with values in [[0, 1]], and [D // 2] valid pairs stored on [self].
    The rejection loop is reached only when the loop over [range(D // 2)]
    has an iteration, that is when [D] is at least [2]: with one dimension
    no integer is drawn and nothing is asked of the generator. *)
Lemma wp__hash_to_quantum_state_from_two b hash_bytes s :
  dimensions (self s) ≠ 0%nat →
  (b = true → (2 ≤ dimensions (self s))%nat → fair fuel (dimensions (self s))) →
  wp b (_hash_to_quantum_state hash_bytes) s
    (λ quantum_state s',
       self s' = with_pairs (self s) (entanglement_pairs (self s')) ∧
       length (entanglement_pairs (self s')) = (dimensions (self s) / 2)%nat ∧
       Forall (valid_pair (dimensions (self s))) (entanglement_pairs (self s')) ∧
       length quantum_state = dimensions (self s) ∧
       unit_state quantum_state).
Proof.
  intros HD Hfair. unfold _hash_to_quantum_state.
  set (e := self s). set (D := dimensions e) in *.
  apply wp_bind, wp_attr, wp_bind. unfold floordiv.
  destruct (decide (dimensions (self s) = 0%nat)) as [|_]; [done|].
  apply wp_ret, wp_bind.
  eapply wp_mono.
  { apply (wp_for_each_prefix b
             (λ done (qs : QuantumState) s',
                self s' = e ∧ length qs = length done ∧ unit_state qs)).
    { repeat split. constructor. }
    intros done i rest qs s1 _ (Hs1 & Hlen & Hunit).
    apply wp_bind, wp_attr, wp_bind, wp_attr, wp_bind.
    eapply wp_mono.
    { apply (wp_for_each b (λ (sup : list (list R)) s',
                              self s' = e ∧ Forall (Forall in01) sup)).
      { split; [done|constructor]. }
      intros _ sup s2 _ [Hs2 Hsup]. apply wp_bind.
      eapply wp_mono; [apply wp_variation_of|].
      intros variation s3 [Hs3 Hvar]. apply wp_ret. split; [congruence|].
      apply Forall_app. split; [done|]. by constructor. }
    intros sup s2 [Hs2 Hsup]. apply wp_ret. split; [done|].
    rewrite !length_app. simpl. split; [lia|].
    apply Forall_app. split; [done|]. by constructor. }
  simpl. intros qs s1 (Hs1 & Hlen & Hunit). rewrite length_seq in Hlen.
  apply wp_bind, wp_set_entanglement_pairs, wp_bind, wp_attr; simpl.
  rewrite Hs1. fold D. apply wp_bind.
  eapply wp_mono.
  { apply (wp_for_each_prefix b
             (λ (done : list nat) (_ : unit) s',
                self s' = with_pairs e (entanglement_pairs (self s')) ∧
                length (entanglement_pairs (self s')) = length done ∧
                Forall (valid_pair D) (entanglement_pairs (self s')))).
    { simpl. repeat split. constructor. }
    intros done x rest [] s2 Hseq (Hs2 & Hlen2 & Hvalid).
    assert (2 ≤ D)%nat as Htwo.
    { apply (f_equal length) in Hseq.
      rewrite length_seq, length_app in Hseq. cbn [length] in Hseq.
      change (Nat.divmod D 1 0 1).1 with (D / 2)%nat in Hseq.
      destruct (decide (D < 2)%nat) as [Hsmall|]; [|lia].
      rewrite (Nat.div_small D 2) in Hseq by done. lia. }
    assert (dimensions (self s2) = D) as HD2 by (by rewrite Hs2).
    apply wp_bind, wp_attr. rewrite HD2.
    apply wp_bind, wp_randrange; [done|].
    apply wp_bind, wp_randrange; [done|]. simpl. apply wp_bind.
    eapply wp_mono.
    { apply wp_redraw; [done|by apply Nat.mod_upper_bound|].
      intros Hb _. by apply Hfair. }
    simpl. intros d s3 (Hs3 & Hd & HdD). apply wp_append_pair. simpl.
    rewrite Hs3. simpl. rewrite Hs2. simpl.
    split; [done|]. rewrite !length_app. simpl. split; [lia|].
    apply Forall_app. split; [done|]. constructor; [|constructor].
    repeat split; simpl; [done| |done]. by apply Nat.mod_upper_bound. }
  simpl. intros [] s2 (Hs2 & Hlen2 & Hvalid). apply wp_ret.
  rewrite length_seq in Hlen2. done.
Qed.

Lemma wp__hash_to_quantum_state b hash_bytes s :
  dimensions (self s) ≠ 0%nat →
  (b = true → fair fuel (dimensions (self s))) →
  wp b (_hash_to_quantum_state hash_bytes) s
    (λ quantum_state s',
       self s' = with_pairs (self s) (entanglement_pairs (self s')) ∧
       length (entanglement_pairs (self s')) = (dimensions (self s) / 2)%nat ∧
       Forall (valid_pair (dimensions (self s))) (entanglement_pairs (self s')) ∧
       length quantum_state = dimensions (self s) ∧
       unit_state quantum_state).
Proof.
  intros HD Hfair. apply wp__hash_to_quantum_state_from_two; [done|].
  intros Hb _. by apply Hfair.
Qed.

(** C6: [_hash_to_quantum_state] produces a coupling set, and every
    coupling set it produces has exactly [D // 2] pairs, each of two
    distinct indices below [D].  First, for an engine with at least one
    dimension the construction returns: the rejection loop
    [while dim1 == dim2] is reached only when [D] is at least [2], and it
    stops when the generator is fair, that is when no [fuel] consecutive
    integer draws are all the same index.  Second, whatever the generator
    and the engine, the pairs left on the engine by a run that returns
    are [D // 2] in number, distinct in their two indices and below
    [D]. *)
Theorem coupling_cardinality hash_bytes s :
  (dimensions (self s) ≠ 0%nat →
   ((2 ≤ dimensions (self s))%nat → fair fuel (dimensions (self s))) →
   ∃ quantum_state s',
     _hash_to_quantum_state hash_bytes s = (Ok quantum_state, s')) ∧
  (∀ quantum_state s',
     _hash_to_quantum_state hash_bytes s = (Ok quantum_state, s') →
     length (entanglement_pairs (self s')) = (dimensions (self s) / 2)%nat ∧
     ∀ dim1 dim2, (dim1, dim2) ∈ entanglement_pairs (self s') →
       dim1 ≠ dim2 ∧
       (dim1 < dimensions (self s))%nat ∧ (dim2 < dimensions (self s))%nat).
Proof.
  split.
  - intros HD Hfair.
    pose proof (wp__hash_to_quantum_state_from_two true hash_bytes s HD
                  (λ _, Hfair)) as Hwp.
    apply wp_strict_ok in Hwp as (quantum_state & s' & Hrun & _). eauto.
  - intros quantum_state s' Hrun.
    destruct (decide (dimensions (self s) = 0%nat)) as [HD|HD].
    { unfold _hash_to_quantum_state, mbind, M_bind, attr, floordiv in Hrun.
      rewrite HD in Hrun. simpl in Hrun. discriminate. }
    pose proof (wp__hash_to_quantum_state false hash_bytes s HD) as Hwp.
    eapply wp_ok in Hwp; [|done|done].
    destruct Hwp as (_ & Hlen & Hvalid & _). split; [done|].
    intros dim1 dim2 Hin. rewrite Forall_forall in Hvalid.
    apply (Hvalid _ Hin).
Qed.

(** ** The digest combiner *)

Lemma update_nil h : Hashlib.update h [] = h.
Proof. destruct h. unfold Hashlib.update. simpl. by rewrite app_nil_r. Qed.

Lemma update_update h a b :
  Hashlib.update (Hashlib.update h a) b = Hashlib.update h (a ++ b).
Proof. unfold Hashlib.update. simpl. by rewrite app_assoc. Qed.

(** Feeding a file chunk by chunk leaves every hash object with the whole
    file appended to its message. *)
Lemma read_loop_feeds n h256 hmd5 hsha1 f :
  (0 < n)%nat →
  read_loop n (h256, hmd5, hsha1) f =
  (Hashlib.update h256 f, Hashlib.update hmd5 f, Hashlib.update hsha1 f).
Proof.
  intros Hn. remember (length f) as len eqn:Hlen.
  revert f h256 hmd5 hsha1 Hlen.
  induction len as [len IH] using lt_wf_ind. intros f h256 hmd5 hsha1 ->.
  rewrite read_loop_equation_1. simpl.
  destruct f as [|x f].
  - rewrite take_nil. simpl. by rewrite !update_nil.
  - destruct n as [|n]; [lia|]. simpl.
    rewrite (IH (length (drop n f))); [|rewrite length_drop; simpl; lia|done].
    rewrite !update_update. simpl.
    by rewrite (take_drop n f).
Qed.

Lemma hash_streamed_whole f : hash_streamed f = hash_whole f.
Proof.
  unfold hash_streamed, hash_whole, CHUNK.
  rewrite read_loop_feeds by lia. reflexivity.
Qed.

(** C5: the whole-file branch and the streamed branch of
    [_calculate_complex_hash] compute the same digest of the same bytes:
    the blake2b digest of the SHA-256, MD5 and SHA-1 digests, concatenated. *)
Theorem streamed_digest_eq_whole (f : bytes) :
  hash_streamed f = hash_whole f ∧
  hash_whole f = blake2b (sha256 f ++ md5 f ++ sha1 f).
Proof.
  split; [apply hash_streamed_whole | reflexivity].
Qed.

(** The digest of a readable file does not depend on the branch taken. *)
Lemma _calculate_complex_hash_readable fs file_path c :
  fs file_path = Some {| content := c; readable := true |} →
  _calculate_complex_hash fs file_path = Ok (blake2b (sha256 c ++ md5 c ++ sha1 c)).
Proof.
  intros Hfs. unfold _calculate_complex_hash, getsize, open_rb. rewrite Hfs. simpl.
  destruct (_ <? _)%N; [|rewrite hash_streamed_whole]; reflexivity.
Qed.

(** ** Evolution *)

Lemma sum_foldl acc l : foldl Rplus acc l = acc + sum l.
Proof.
  unfold sum. revert acc. induction l as [|x l IH]; intros acc; simpl; [lra|].
  rewrite (IH (acc + x)), (IH (0 + x)). lra.
Qed.

Lemma sum_nil : sum [] = 0.
Proof. reflexivity. Qed.

Lemma sum_cons x l : sum (x :: l) = x + sum l.
Proof. unfold sum at 1. simpl. rewrite sum_foldl. lra. Qed.

Lemma sum_app l1 l2 : sum (l1 ++ l2) = sum l1 + sum l2.
Proof.
  induction l1 as [|x l1 IH]; simpl; [rewrite sum_nil; lra|].
  rewrite !sum_cons, IH. lra.
Qed.

Lemma sum_nonneg l : Forall (λ v, 0 <= v) l → 0 <= sum l.
Proof.
  induction 1 as [|x l Hx Hl IH]; [rewrite sum_nil; lra|].
  rewrite sum_cons. lra.
Qed.

Lemma sum_ge_elem l v : Forall (λ v, 0 <= v) l → v ∈ l → v <= sum l.
Proof.
  induction 1 as [|x l Hx Hl IH]; intros Hin; [by apply elem_of_nil in Hin|].
  rewrite sum_cons. pose proof (sum_nonneg l Hl).
  apply elem_of_cons in Hin as [->|Hin]; [lra|]. specialize (IH Hin). lra.
Qed.

Lemma in01_nonneg l : Forall in01 l → Forall (λ v, 0 <= v) l.
Proof. intros H. eapply Forall_impl; [exact H|]. unfold in01. intros; simpl; lra. Qed.

Lemma div_in01 v t : 0 <= v <= t → 0 < t → in01 (v / t).
Proof.
  intros [H0 Hle] Ht. unfold in01, Rdiv.
  pose proof (Rinv_0_lt_compat t Ht) as Hinv. split.
  - apply Rmult_le_pos; lra.
  - apply (Rmult_le_reg_r t); [done|].
    rewrite Rmult_assoc, Rinv_l by lra. lra.
Qed.

Lemma normalize_in01 superposition :
  Forall in01 superposition → Forall in01 (normalize superposition).
Proof.
  intros H01. unfold normalize. destruct (Rlt_dec 0 (sum superposition)) as [Hpos|]; [|done].
  apply Forall_fmap, Forall_forall. intros v Hv. simpl.
  pose proof (sum_ge_elem _ v (in01_nonneg _ H01) Hv) as Hle.
  rewrite Forall_forall in H01. destruct (H01 v Hv) as [H0 _].
  apply div_in01; lra.
Qed.

Lemma transform_in01 v : in01 (transform v).
Proof. apply clamp01_in01. Qed.

Lemma gate_in01 superposition : Forall in01 (gate superposition).
Proof.
  unfold gate. apply Forall_fmap, Forall_forall. intros v _. apply transform_in01.
Qed.

Lemma normalize_length superposition : length (normalize superposition) = length superposition.
Proof. unfold normalize. destruct Rlt_dec; [by rewrite length_fmap|done]. Qed.

Lemma gate_length superposition : length (gate superposition) = length superposition.
Proof. unfold gate. by rewrite length_fmap, normalize_length. Qed.

Lemma coupled_in01 x y : in01 x → in01 y → in01 (coupled x y).1 ∧ in01 (coupled x y).2.
Proof.
  unfold in01, coupled. simpl. intros Hx Hy.
  unfold Rabs. destruct Rcase_abs; lra.
Qed.

Lemma coupled_sum x y : (coupled x y).1 + (coupled x y).2 = x + y.
Proof. unfold coupled. simpl. lra. Qed.

(** *** Cells of a state *)

Lemma cell_Some st d i j x :
  cell st d i j = Some x ↔
  ∃ a ai, st !! d = Some a ∧ a !! i = Some ai ∧ ai !! j = Some x.
Proof.
  unfold cell. split.
  - destruct (st !! d) as [a|]; simpl; [|done].
    destruct (a !! i) as [ai|] eqn:Hai; simpl; [|done]. eauto.
  - intros (a & ai & -> & Hai & Hx). simpl. rewrite Hai. done.
Qed.

Lemma unit_state_cell st :
  unit_state st ↔ ∀ d i j x, cell st d i j = Some x → in01 x.
Proof.
  unfold unit_state. split.
  - intros H d i j x (a & ai & Ha & Hai & Hx)%cell_Some.
    rewrite Forall_lookup in H. specialize (H _ _ Ha).
    rewrite Forall_lookup in H. specialize (H _ _ Hai).
    rewrite Forall_lookup in H. by apply (H _ _ Hx).
  - intros H. apply Forall_lookup. intros d a Ha.
    apply Forall_lookup. intros i ai Hai.
    apply Forall_lookup. intros j x Hx.
    apply (H d i j x). apply cell_Some. eauto.
Qed.

Lemma cell_update3 st d i j v d' i' j' :
  cell (update3 st d i j v) d' i' j' =
  if decide (d = d' ∧ i = i' ∧ j = j') then (λ _, v) <$> cell st d i j
  else cell st d' i' j'.
Proof.
  unfold update3, cell.
  destruct (st !! d) as [a|] eqn:Ha; simpl.
  2:{ case_decide as H; [|done]. destruct H as (<- & _). by rewrite Ha. }
  destruct (a !! i) as [ai|] eqn:Hai; simpl.
  2:{ case_decide as H; [|done]. destruct H as (<- & <- & _).
      rewrite Ha. simpl. by rewrite Hai. }
  assert (d < length st)%nat as Hd by (by eapply lookup_lt_Some).
  assert (i < length a)%nat as Hi by (by eapply lookup_lt_Some).
  destruct (decide (d = d')) as [<-|Hdd].
  - rewrite list_lookup_insert_eq by done. simpl.
    destruct (decide (i = i')) as [<-|Hii].
    + rewrite list_lookup_insert_eq by done. simpl.
      destruct (decide (j = j')) as [<-|Hjj].
      * rewrite decide_True by done.
        destruct (ai !! j) eqn:Hj; simpl.
        -- apply list_lookup_insert_eq. by eapply lookup_lt_Some.
        -- rewrite list_insert_ge; [done|]. by apply lookup_ge_None.
      * rewrite decide_False by (intros (? & ? & ?); done).
        rewrite list_lookup_insert_ne by done. by rewrite Ha; simpl; rewrite Hai.
    + rewrite decide_False by (intros (? & ? & ?); done).
      rewrite list_lookup_insert_ne by done. by rewrite Ha.
  - rewrite decide_False by (intros (? & ? & ?); done).
    by rewrite list_lookup_insert_ne.
Qed.

Lemma shape_update3 st d i j v : shape (update3 st d i j v) = shape st.
Proof.
  unfold update3, shape.
  destruct (st !! d) as [a|] eqn:Ha; [|done].
  destruct (a !! i) as [ai|] eqn:Hai; [|done].
  rewrite list_fmap_insert. apply list_insert_id.
  rewrite list_lookup_fmap, Ha. simpl. f_equal.
  rewrite list_fmap_insert. symmetry. apply list_insert_id.
  rewrite list_lookup_fmap, Hai. simpl. by rewrite length_insert.
Qed.

Lemma shape_length st st' : shape st' = shape st → length st' = length st.
Proof. unfold shape. intros H. apply (f_equal length) in H. by rewrite !length_fmap in H. Qed.

Lemma shape_dim st st' d a :
  shape st' = shape st → st !! d = Some a →
  ∃ a', st' !! d = Some a' ∧ length <$> a' = length <$> a.
Proof.
  unfold shape. intros Hsh Ha.
  apply (f_equal (λ l, l !! d)) in Hsh. rewrite !list_lookup_fmap, Ha in Hsh.
  destruct (st' !! d) as [a'|]; simpl in Hsh; [|done].
  exists a'. split; [done|]. congruence.
Qed.

Lemma shape_variant (a a' : list (list R)) i ai :
  length <$> a' = length <$> a → a !! i = Some ai →
  ∃ ai', a' !! i = Some ai' ∧ length ai' = length ai.
Proof.
  intros Hsh Hai.
  apply (f_equal (λ l, l !! i)) in Hsh. rewrite !list_lookup_fmap, Hai in Hsh.
  destruct (a' !! i) as [ai'|]; simpl in Hsh; [|done].
  exists ai'. split; [done|]. congruence.
Qed.

Lemma getitem3_run st d i j s :
  getitem3 st d i j s =
  match cell st d i j with
  | Some x => (Ok x, s)
  | None => (Raise IndexError, s)
  end.
Proof.
  unfold getitem3, cell, mbind at 1 2, M_bind, getitem.
  destruct (st !! d) as [a|]; simpl; [|done].
  destruct (a !! i) as [ai|]; simpl; [|done].
  by destruct (ai !! j).
Qed.

Lemma setitem3_run st d i j v s :
  setitem3 st d i j v s =
  match cell st d i j with
  | Some _ => (Ok (update3 st d i j v), s)
  | None => (Raise IndexError, s)
  end.
Proof.
  unfold setitem3, update3, cell, mbind at 1 2 3 4, M_bind, getitem, setitem.
  destruct (st !! d) as [a|] eqn:Ha; simpl; [|done].
  destruct (a !! i) as [ai|] eqn:Hai; simpl; [|done].
  destruct (decide (j < length ai)%nat) as [Hj|Hj]; simpl.
  - destruct (lookup_lt_is_Some_2 ai j Hj) as [x ->].
    rewrite decide_True by (by eapply lookup_lt_Some). simpl.
    rewrite decide_True by (by eapply lookup_lt_Some). done.
  - rewrite lookup_ge_None_2 by lia. done.
Qed.

Lemma entangle_value_run st dim1 dim2 i j x y s :
  cell st dim1 i j = Some x → cell st dim2 i j = Some y →
  entangle_value dim1 dim2 i j st s = (Ok (couple_at st dim1 dim2 i j x y), s).
Proof.
  intros Hx Hy. unfold entangle_value, mbind, M_bind.
  do 2 (rewrite getitem3_run, Hx; simpl; rewrite getitem3_run, Hy; simpl).
  rewrite setitem3_run, Hx. simpl. rewrite setitem3_run.
  rewrite cell_update3. case_decide; [rewrite Hx|rewrite Hy]; done.
Qed.

Lemma cell_in_shape st st' d i j a ai :
  shape st' = shape st → st !! d = Some a → a !! i = Some ai → (j < length ai)%nat →
  ∃ x, cell st' d i j = Some x.
Proof.
  intros Hsh Ha Hai Hj.
  destruct (shape_dim _ _ _ _ Hsh Ha) as (a' & Ha' & Hsa).
  destruct (shape_variant _ _ _ _ Hsa Hai) as (ai' & Hai' & Hlen).
  destruct (lookup_lt_is_Some_2 ai' j) as [x Hx]; [lia|].
  exists x. apply cell_Some. eauto.
Qed.

Lemma shape_couple_at st dim1 dim2 i j x y :
  shape (couple_at st dim1 dim2 i j x y) = shape st.
Proof. unfold couple_at. by rewrite !shape_update3. Qed.

(** The loops of one pair keep every property of the state that each
    single replacement keeps. *)
Lemma wp_entangle_pair b (I : QuantumState → Prop) dim1 dim2 st s :
  (dim1 < length st)%nat → (dim2 < length st)%nat →
  (∀ st1 i j x y, shape st1 = shape st → I st1 →
     cell st1 dim1 i j = Some x → cell st1 dim2 i j = Some y →
     I (couple_at st1 dim1 dim2 i j x y)) →
  I st →
  wp b (entangle_pair (dim1, dim2) st) s
    (λ st' s', self s' = self s ∧ shape st' = shape st ∧ I st').
Proof.
  intros Hd1 Hd2 Hstep HI. unfold entangle_pair.
  destruct (lookup_lt_is_Some_2 st dim1 Hd1) as [a Ha].
  destruct (lookup_lt_is_Some_2 st dim2 Hd2) as [a2 Ha2].
  apply wp_bind, (wp_getitem _ _ _ a); [done|].
  apply wp_bind, (wp_getitem _ _ _ a2); [done|].
  apply (wp_for_each b (λ st1 s1, self s1 = self s ∧ shape st1 = shape st ∧ I st1));
    [done|].
  intros i st1 s1 Hi (Hs1 & Hsh1 & HI1).
  apply elem_of_seq in Hi. simpl in Hi.
  destruct (lookup_lt_is_Some_2 a i) as [ai Hai]; [lia|].
  destruct (lookup_lt_is_Some_2 a2 i) as [a2i Ha2i]; [lia|].
  apply wp_bind, wp_random. destruct Rlt_dec as [_|_]; [|by apply wp_ret].
  destruct (shape_dim _ _ _ _ Hsh1 Ha) as (a' & Ha' & Hsa).
  destruct (shape_variant _ _ _ _ Hsa Hai) as (ai' & Hai' & Hlen).
  destruct (shape_dim _ _ _ _ Hsh1 Ha2) as (a2' & Ha2' & Hsa2).
  destruct (shape_variant _ _ _ _ Hsa2 Ha2i) as (a2i' & Ha2i' & Hlen2).
  apply wp_bind, (wp_getitem _ _ _ a'); [done|].
  apply wp_bind, (wp_getitem _ _ _ ai'); [done|].
  apply wp_bind, (wp_getitem _ _ _ a2'); [done|].
  apply wp_bind, (wp_getitem _ _ _ a2i'); [done|].
  apply (wp_for_each b (λ st2 s2, self s2 = self s ∧ shape st2 = shape st ∧ I st2));
    [done|].
  intros j st2 s2 Hj (Hs2 & Hsh2 & HI2).
  apply elem_of_seq in Hj. simpl in Hj.
  destruct (cell_in_shape st st2 dim1 i j a ai) as [x Hx]; [done..|lia|].
  destruct (cell_in_shape st st2 dim2 i j a2 a2i) as [y Hy]; [done..|lia|].
  unfold wp. rewrite (entangle_value_run _ _ _ _ _ x y) by done.
  split; [done|]. split; [by rewrite shape_couple_at|]. by apply Hstep.
Qed.

(** The same for the whole entanglement loop. *)
Lemma wp_entangle b (I : QuantumState → Prop) st s :
  Forall (λ pair, (pair.1 < length st)%nat ∧ (pair.2 < length st)%nat)
    (entanglement_pairs (self s)) →
  (∀ pair st1 i j x y, pair ∈ entanglement_pairs (self s) →
     shape st1 = shape st → I st1 →
     cell st1 pair.1 i j = Some x → cell st1 pair.2 i j = Some y →
     I (couple_at st1 pair.1 pair.2 i j x y)) →
  I st →
  wp b (entangle st) s (λ st' s', self s' = self s ∧ shape st' = shape st ∧ I st').
Proof.
  intros Hrange Hstep HI. unfold entangle. apply wp_bind, wp_attr.
  apply (wp_for_each b (λ st1 s1, self s1 = self s ∧ shape st1 = shape st ∧ I st1));
    [done|].
  intros [dim1 dim2] st1 s1 Hpair (Hs1 & Hsh1 & HI1).
  rewrite Forall_forall in Hrange. destruct (Hrange _ Hpair) as [Hd1 Hd2]. simpl in *.
  eapply wp_mono.
  { apply (wp_entangle_pair b (λ st2, shape st2 = shape st ∧ I st2)).
    - by rewrite (shape_length _ _ Hsh1).
    - by rewrite (shape_length _ _ Hsh1).
    - intros st2 i j x y Hsh2 [Hsh2' HI2] Hx Hy.
      split; [by rewrite shape_couple_at|].
      by apply (Hstep (dim1, dim2)).
    - done. }
  simpl. intros st2 s2 (Hs2 & _ & Hsh2 & HI2). split; [congruence|done].
Qed.

Lemma unit_state_couple_at st dim1 dim2 i j x y :
  unit_state st → cell st dim1 i j = Some x → cell st dim2 i j = Some y →
  unit_state (couple_at st dim1 dim2 i j x y).
Proof.
  intros Hunit Hx Hy. rewrite unit_state_cell in Hunit.
  destruct (coupled_in01 x y) as [H1 H2]; [by eapply Hunit..|].
  apply unit_state_cell. intros d' i' j' v. unfold couple_at.
  rewrite cell_update3. case_decide.
  { intros Hv. apply fmap_Some in Hv as (? & _ & ->). done. }
  rewrite cell_update3. case_decide.
  { intros Hv. apply fmap_Some in Hv as (? & _ & ->). done. }
  apply Hunit.
Qed.

Lemma unit_state_gate (st : QuantumState) :
  unit_state ((λ dimension : list (list R), gate <$> dimension) <$> st).
Proof.
  unfold unit_state. apply Forall_fmap, Forall_forall. intros a _. simpl.
  apply Forall_fmap, Forall_forall. intros ai _. apply gate_in01.
Qed.

(** One round of evolution keeps the number of dimensions and leaves a
    state with values in [[0, 1]]; it raises nothing when the pairs on
    [self] index dimensions of the state. *)
Lemma wp__evolve_quantum_state b st s :
  Forall (λ pair, (pair.1 < length st)%nat ∧ (pair.2 < length st)%nat)
    (entanglement_pairs (self s)) →
  wp b (_evolve_quantum_state st) s
    (λ st' s', self s' = self s ∧ length st' = length st ∧ unit_state st').
Proof.
  intros Hrange. unfold _evolve_quantum_state.
  eapply wp_mono.
  { apply (wp_entangle b unit_state).
    - by rewrite length_fmap.
    - intros pair st1 i j x y _ _ Hunit Hx Hy. by apply unit_state_couple_at.
    - apply unit_state_gate. }
  simpl. intros st' s' (Hs & Hsh & Hunit). split; [done|]. split; [|done].
  by rewrite (shape_length _ _ Hsh), length_fmap.
Qed.

Lemma wp_evolve_rounds b steps st s :
  Forall (λ pair, (pair.1 < length st)%nat ∧ (pair.2 < length st)%nat)
    (entanglement_pairs (self s)) →
  unit_state st →
  wp b (evolve_rounds steps st) s
    (λ st' s', self s' = self s ∧ length st' = length st ∧ unit_state st').
Proof.
  intros Hrange Hunit. unfold evolve_rounds.
  apply (wp_for_each b (λ st' s', self s' = self s ∧ length st' = length st ∧ unit_state st'));
    [done|].
  intros _ st1 s1 _ (Hs1 & Hlen1 & Hunit1).
  eapply wp_mono; [apply wp__evolve_quantum_state; by rewrite Hs1, Hlen1|].
  simpl. intros st2 s2 (Hs2 & Hlen2 & Hunit2). split; [congruence|]. split; [congruence|done].
Qed.

Lemma construction_raises_without_dimensions hash_bytes s :
  dimensions (self s) = 0%nat →
  _hash_to_quantum_state hash_bytes s = (Raise ZeroDivisionError, s).
Proof.
  intros HD. unfold _hash_to_quantum_state, mbind, M_bind, attr, floordiv.
  by rewrite HD.
Qed.

Lemma valid_pairs_in_range n (st : QuantumState) pairs :
  length st = n → Forall (valid_pair n) pairs →
  Forall (λ pair, (pair.1 < length st)%nat ∧ (pair.2 < length st)%nat) pairs.
Proof.
  intros <- H. eapply Forall_impl; [exact H|]. by intros pair (_ & ? & ?).
Qed.

(** C9: the values of the state stay in [[0, 1]]: normalisation, the
    transform and the replacement by the entanglement each keep values in
    [[0, 1]], and so does every state reached from the construction by any
    number of rounds of evolution. *)
Theorem evolution_keeps_unit_interval :
  (∀ superposition, Forall in01 superposition → Forall in01 (normalize superposition)) ∧
  (∀ v, in01 v → in01 (transform v)) ∧
  (∀ dim1 dim2 i j st s st' s',
     unit_state st → entangle_value dim1 dim2 i j st s = (Ok st', s') → unit_state st') ∧
  (∀ hash_bytes steps s st s',
     (quantum_state ← _hash_to_quantum_state hash_bytes;
      evolve_rounds steps quantum_state) s = (Ok st, s') →
     unit_state st).
Proof.
  split; [apply normalize_in01|]. split; [intros v _; apply transform_in01|]. split.
  - intros dim1 dim2 i j st s st' s' Hunit Hrun.
    destruct (cell st dim1 i j) as [x|] eqn:Hx.
    2:{ unfold entangle_value, mbind, M_bind in Hrun.
        rewrite getitem3_run, Hx in Hrun. discriminate. }
    destruct (cell st dim2 i j) as [y|] eqn:Hy.
    2:{ unfold entangle_value, mbind, M_bind in Hrun.
        rewrite getitem3_run, Hx in Hrun. simpl in Hrun.
        rewrite getitem3_run, Hy in Hrun. discriminate. }
    rewrite (entangle_value_run _ _ _ _ _ x y) in Hrun by done.
    injection Hrun as <- _. by apply unit_state_couple_at.
  - intros hash_bytes steps s st s' Hrun.
    destruct (decide (dimensions (self s) = 0%nat)) as [HD|HD].
    { unfold mbind, M_bind in Hrun.
      by rewrite construction_raises_without_dimensions in Hrun. }
    enough (wp false (quantum_state ← _hash_to_quantum_state hash_bytes;
                      evolve_rounds steps quantum_state) s
              (λ st _, unit_state st)) as Hwp
      by (by eapply wp_ok in Hwp).
    apply wp_bind. eapply wp_mono; [by apply wp__hash_to_quantum_state|].
    simpl. intros qs s1 (_ & _ & Hvalid & Hlen & Hunit).
    eapply wp_mono; [apply wp_evolve_rounds; [|done]|].
    + by eapply valid_pairs_in_range.
    + simpl. by intros st2 s2 (_ & _ & ?).
Qed.

(** *** Sums under the entanglement *)

Lemma cell_couple_at_other st dim1 dim2 i0 j0 x y d i j :
  (i, j) ≠ (i0, j0) ∨ (d ≠ dim1 ∧ d ≠ dim2) →
  cell (couple_at st dim1 dim2 i0 j0 x y) d i j = cell st d i j.
Proof.
  intros H. unfold couple_at. rewrite cell_update3.
  rewrite decide_False by (intros (<- & <- & <-); destruct H as [?|[? ?]]; done).
  rewrite cell_update3.
  rewrite decide_False by (intros (<- & <- & <-); destruct H as [?|[? ?]]; done). done.
Qed.

Lemma cell_couple_at_1 st dim1 dim2 i j x y :
  dim1 ≠ dim2 → cell st dim1 i j = Some x →
  cell (couple_at st dim1 dim2 i j x y) dim1 i j = Some (coupled x y).1.
Proof.
  intros Hne Hx. unfold couple_at. rewrite cell_update3.
  rewrite decide_False by (intros (? & ? & ?); done).
  rewrite cell_update3, decide_True by done. by rewrite Hx.
Qed.

Lemma cell_couple_at_2 st dim1 dim2 i j x y :
  cell st dim1 i j = Some x → cell st dim2 i j = Some y →
  cell (couple_at st dim1 dim2 i j x y) dim2 i j = Some (coupled x y).2.
Proof.
  intros Hx Hy. unfold couple_at. rewrite cell_update3, decide_True by done.
  rewrite cell_update3. case_decide; [rewrite Hx|rewrite Hy]; done.
Qed.

Lemma pair_sum_comm st dim1 dim2 i j :
  pair_sum st dim2 dim1 i j = pair_sum st dim1 dim2 i j.
Proof.
  unfold pair_sum. destruct (cell st dim1 i j), (cell st dim2 i j); simpl; try done.
  f_equal. lra.
Qed.

(** One replacement on the pair [(dim1, dim2)] keeps all its sums. *)
Lemma pair_sum_couple_at st dim1 dim2 i0 j0 x y i j :
  dim1 ≠ dim2 → cell st dim1 i0 j0 = Some x → cell st dim2 i0 j0 = Some y →
  pair_sum (couple_at st dim1 dim2 i0 j0 x y) dim1 dim2 i j = pair_sum st dim1 dim2 i j.
Proof.
  intros Hne Hx Hy. unfold pair_sum.
  destruct (decide ((i, j) = (i0, j0))) as [[= -> ->]|Hij].
  - rewrite cell_couple_at_1, cell_couple_at_2, Hx, Hy by done. simpl.
    f_equal. apply coupled_sum.
  - rewrite !cell_couple_at_other by (by left). done.
Qed.

(** A replacement on a pair that shares no dimension with [(dim1, dim2)]
    leaves the sums of [(dim1, dim2)] alone. *)
Lemma pair_sum_couple_at_disjoint st a b i0 j0 x y dim1 dim2 i j :
  a ≠ dim1 → a ≠ dim2 → b ≠ dim1 → b ≠ dim2 →
  pair_sum (couple_at st a b i0 j0 x y) dim1 dim2 i j = pair_sum st dim1 dim2 i j.
Proof.
  intros. unfold pair_sum. rewrite !cell_couple_at_other by (right; done). done.
Qed.

Lemma entangle_pair_in_range dim1 dim2 st s st' s' :
  entangle_pair (dim1, dim2) st s = (Ok st', s') →
  (dim1 < length st)%nat ∧ (dim2 < length st)%nat.
Proof.
  unfold entangle_pair, mbind at 1 2, M_bind, getitem. intros Hrun.
  destruct (st !! dim1) as [a|] eqn:Ha; [|done].
  destruct (st !! dim2) as [a2|] eqn:Ha2; [|done].
  split; by eapply lookup_lt_Some.
Qed.

(** Every property kept by each single replacement holds after a run of
    the entanglement loop that returns. *)
Lemma for_each_entangle_pair_inv (I : QuantumState → Prop) pairs st s st' s' :
  for_each pairs entangle_pair st s = (Ok st', s') →
  (∀ pair st1 i j x y, pair ∈ pairs → I st1 →
     cell st1 pair.1 i j = Some x → cell st1 pair.2 i j = Some y →
     I (couple_at st1 pair.1 pair.2 i j x y)) →
  I st → I st'.
Proof.
  revert st s. induction pairs as [|[dim1 dim2] pairs IH]; intros st s Hrun Hstep HI.
  - by injection Hrun as <- _.
  - rewrite for_each_cons in Hrun. unfold mbind, M_bind in Hrun.
    destruct (entangle_pair (dim1, dim2) st s) as [[st1| |] s1] eqn:Hpair; try done.
    destruct (entangle_pair_in_range _ _ _ _ _ _ Hpair) as [Hd1 Hd2].
    assert (wp false (entangle_pair (dim1, dim2) st) s
              (λ st' s', self s' = self s ∧ shape st' = shape st ∧ I st')) as Hwp.
    { apply wp_entangle_pair; [done|done| |done].
      intros st2 i j x y _. apply (Hstep (dim1, dim2)). by apply elem_of_cons; left. }
    eapply wp_ok in Hwp; [|exact Hpair].
    destruct Hwp as (_ & _ & HI1). eapply IH; [exact Hrun| |done].
    intros pair st2 i j x y Hin. apply Hstep. by apply elem_of_cons; right.
Qed.

(** C10 (amended): each replacement of [(x, y)] by [(mean + diff, mean -
    diff)] keeps [x + y], so a run of the body of the entanglement on two
    distinct dimensions keeps the sum of their two values at every
    position; the whole entanglement loop keeps the sums of a pair
    [(dim1, dim2)] when every pair on the engine is this pair, in either
    order, or shares no dimension with it, whatever the random draws. *)
Theorem coupling_preserves_pair_sum :
  (∀ dim1 dim2 i0 j0 st s st' s' i j,
     dim1 ≠ dim2 →
     entangle_value dim1 dim2 i0 j0 st s = (Ok st', s') →
     pair_sum st' dim1 dim2 i j = pair_sum st dim1 dim2 i j) ∧
  (∀ dim1 dim2 st s st' s' i j,
     dim1 ≠ dim2 →
     (∀ pair, pair ∈ entanglement_pairs (self s) →
        pair = (dim1, dim2) ∨ pair = (dim2, dim1) ∨
        (pair.1 ≠ dim1 ∧ pair.1 ≠ dim2 ∧ pair.2 ≠ dim1 ∧ pair.2 ≠ dim2)) →
     entangle st s = (Ok st', s') →
     pair_sum st' dim1 dim2 i j = pair_sum st dim1 dim2 i j).
Proof.
  split.
  - intros dim1 dim2 i0 j0 st s st' s' i j Hne Hrun.
    destruct (cell st dim1 i0 j0) as [x|] eqn:Hx.
    2:{ unfold entangle_value, mbind, M_bind in Hrun.
        rewrite getitem3_run, Hx in Hrun. discriminate. }
    destruct (cell st dim2 i0 j0) as [y|] eqn:Hy.
    2:{ unfold entangle_value, mbind, M_bind in Hrun.
        rewrite getitem3_run, Hx in Hrun. simpl in Hrun.
        rewrite getitem3_run, Hy in Hrun. discriminate. }
    rewrite (entangle_value_run _ _ _ _ _ x y) in Hrun by done.
    injection Hrun as <- _. by apply pair_sum_couple_at.
  - intros dim1 dim2 st s st' s' i j Hne Hpairs Hrun.
    unfold entangle, mbind, M_bind, attr in Hrun.
    revert i j.
    apply (for_each_entangle_pair_inv
             (λ st1, ∀ i j, pair_sum st1 dim1 dim2 i j = pair_sum st dim1 dim2 i j)
             _ _ _ _ _ Hrun); [|done].
    intros pair st1 i0 j0 x y Hin HI Hx Hy i j. rewrite <- HI.
    destruct (Hpairs _ Hin) as [->|[->|(? & ? & ? & ?)]]; simpl in *.
    + by apply pair_sum_couple_at.
    + rewrite <- !(pair_sum_comm _ dim1 dim2). by apply pair_sum_couple_at.
    + by apply pair_sum_couple_at_disjoint.
Qed.

(** ** Analysis *)

(** *** Entries of a matrix *)

Lemma entry_Some a i j v :
  entry a i j = Some v ↔ ∃ row, a !! i = Some row ∧ row !! j = Some v.
Proof.
  unfold entry. split.
  - destruct (a !! i) as [row|]; simpl; [|done]. eauto.
  - by intros (row & -> & Hv).
Qed.

Lemma entry_update2 a i j v i' j' :
  entry (update2 a i j v) i' j' =
  if decide (i = i' ∧ j = j') then (λ _, v) <$> entry a i j else entry a i' j'.
Proof.
  unfold update2, entry.
  destruct (a !! i) as [row|] eqn:Hrow; simpl.
  2:{ case_decide as H; [|done]. destruct H as [<- _]. by rewrite Hrow. }
  assert (i < length a)%nat as Hi by (by eapply lookup_lt_Some).
  destruct (decide (i = i')) as [<-|Hii].
  - rewrite list_lookup_insert_eq by done. simpl.
    destruct (decide (j = j')) as [<-|Hjj].
    + rewrite decide_True by done.
      destruct (row !! j) eqn:Hj; simpl.
      * apply list_lookup_insert_eq. by eapply lookup_lt_Some.
      * rewrite list_insert_ge; [done|]. by apply lookup_ge_None.
    + rewrite decide_False by (intros [? ?]; done).
      rewrite list_lookup_insert_ne by done. by rewrite Hrow.
  - rewrite decide_False by (intros [? ?]; done).
    by rewrite list_lookup_insert_ne.
Qed.

Lemma has_shape_zeros n m : has_shape n m (zeros n m).
Proof.
  unfold has_shape, zeros. split; [by rewrite length_replicate|].
  apply Forall_replicate. by rewrite length_replicate.
Qed.

Lemma has_shape_update2 n m a i j v : has_shape n m a → has_shape n m (update2 a i j v).
Proof.
  unfold has_shape, update2. intros [Hlen Hrows].
  destruct (a !! i) as [row|] eqn:Hrow; [|done].
  split; [by rewrite length_insert|].
  apply Forall_insert; [done|]. rewrite length_insert.
  rewrite Forall_lookup in Hrows. by eapply Hrows.
Qed.

Lemma has_shape_entry n m a i j :
  has_shape n m a → (i < n)%nat → (j < m)%nat → is_Some (entry a i j).
Proof.
  intros [Hlen Hrows] Hi Hj.
  destruct (lookup_lt_is_Some_2 a i) as [row Hrow]; [lia|].
  rewrite Forall_lookup in Hrows. pose proof (Hrows _ _ Hrow) as Hm.
  destruct (lookup_lt_is_Some_2 row j) as [v Hv]; [lia|].
  exists v. apply entry_Some. eauto.
Qed.

Lemma getitem2_run a i j s :
  getitem2 a i j s =
  match entry a i j with
  | Some v => (Ok v, s)
  | None => (Raise IndexError, s)
  end.
Proof.
  unfold getitem2, entry, mbind at 1, M_bind, getitem.
  destruct (a !! i) as [row|]; simpl; [|done]. by destruct (row !! j).
Qed.

Lemma setitem2_run a i j v s :
  setitem2 a i j v s =
  match entry a i j with
  | Some _ => (Ok (update2 a i j v), s)
  | None => (Raise IndexError, s)
  end.
Proof.
  unfold setitem2, update2, entry, mbind at 1 2, M_bind, getitem, setitem.
  destruct (a !! i) as [row|] eqn:Hrow; simpl; [|done].
  destruct (decide (j < length row)%nat) as [Hj|Hj]; simpl.
  - destruct (lookup_lt_is_Some_2 row j Hj) as [x ->].
    rewrite decide_True by (by eapply lookup_lt_Some). done.
  - rewrite lookup_ge_None_2 by lia. done.
Qed.

(** *** Row normalisation *)

Lemma sum_fmap_div t l : sum ((λ c, c / t) <$> l) = sum l / t.
Proof.
  induction l as [|x l IH].
  - rewrite fmap_nil, sum_nil. unfold Rdiv. lra.
  - rewrite fmap_cons, !sum_cons, IH. unfold Rdiv. lra.
Qed.

Lemma sum_zeros l : Forall (λ v, v = 0) l → sum l = 0.
Proof.
  induction 1 as [|x l Hx Hl IH]; [apply sum_nil|].
  rewrite sum_cons, IH, Hx. lra.
Qed.

Lemma normalize_row_sum row : sum row ≠ 0 → sum (normalize_row row) = 1.
Proof.
  intros Hne. unfold normalize_row.
  destruct (Req_dec_T (sum row) 0) as [|_]; [done|].
  rewrite sum_fmap_div. by apply Rdiv_diag.
Qed.

Lemma normalize_row_zero row :
  sum row = 0 → Forall (λ v, v = 0) (normalize_row row).
Proof.
  intros Hz. unfold normalize_row.
  destruct (Req_dec_T (sum row) 0) as [_|]; [|done].
  apply Forall_fmap, Forall_forall. by intros.
Qed.

(** A normalised row sums to one, or is zero everywhere; it is zero
    everywhere exactly when the row summed to zero. *)
Lemma normalize_row_stochastic row :
  (sum (normalize_row row) = 1 ∨ Forall (λ v, v = 0) (normalize_row row)) ∧
  (Forall (λ v, v = 0) (normalize_row row) ↔ sum row = 0).
Proof.
  destruct (Req_dec_T (sum row) 0) as [Hz|Hnz].
  - split; [right|split; [done|intros _]]; by apply normalize_row_zero.
  - split; [by left; apply normalize_row_sum|].
    split; [|done]. intros Hall. apply sum_zeros in Hall.
    rewrite normalize_row_sum in Hall by done. lra.
Qed.

Lemma normalize_row_length row : length (normalize_row row) = length row.
Proof. unfold normalize_row. by rewrite length_fmap. Qed.

(** *** The collapsed state *)

(** The run of the body of the innermost loop of [collapse]. *)
Lemma collapse_cell_run a i j value s :
  (c ← getitem2 a i j; setitem2 a i j (c + value)) s =
  match entry a i j with
  | Some c => (Ok (update2 a i j (c + value)), s)
  | None => (Raise IndexError, s)
  end.
Proof.
  unfold mbind, M_bind. rewrite getitem2_run.
  destruct (entry a i j) as [c|] eqn:Hc; [|done].
  by rewrite setitem2_run, Hc.
Qed.

(** A run of [collapse] that returns leaves the state alone and yields a
    square matrix of [D] rows. *)
Lemma collapse_ok quantum_state s collapsed s' :
  collapse quantum_state s = (Ok collapsed, s') →
  s' = s ∧ has_shape (dimensions (self s)) (dimensions (self s)) collapsed.
Proof.
  unfold collapse. intros Hrun.
  apply bind_ok in Hrun as (D & s0 & [= <- <-] & Hrun).
  set (D := dimensions (self s)) in *.
  pose (I := λ (a : Matrix) (s1 : state), s1 = s ∧ has_shape D D a).
  apply (for_each_ok I) in Hrun; [done|by split; [|apply has_shape_zeros]|].
  intros [i dimension] a1 s1 a2 s2 _ HI1 Hrun1.
  apply (for_each_ok I) in Hrun1; [done..|].
  intros superposition a3 s3 a4 s4 _ HI3 Hrun3.
  apply bind_ok in Hrun3 as (D' & s5 & [= <- <-] & Hrun3).
  apply (for_each_ok I) in Hrun3; [done..|].
  intros [j value] a5 s5 a6 s6 _ [-> Hsh] Hrun5.
  rewrite collapse_cell_run in Hrun5.
  destruct (entry a5 i j); [|done]. injection Hrun5 as <- <-.
  split; [done|]. by apply has_shape_update2.
Qed.

(** C2: every amplitude matrix that [_analyze_quantum_state] returns has
    [D] rows, and each row sums to one (so within 1e-9 of it) or is zero
    everywhere; a row is zero everywhere exactly when the row of the
    collapsed state it was computed from summed to zero. *)
Theorem amplitude_rows_stochastic quantum_state s signature_data s' :
  _analyze_quantum_state quantum_state s = (Ok signature_data, s') →
  ∃ collapsed_state s1,
    collapse quantum_state s = (Ok collapsed_state, s1) ∧
    length (amplitudes signature_data) = dimensions (self s) ∧
    ∀ i row, amplitudes signature_data !! i = Some row →
      ∃ collapsed_row, collapsed_state !! i = Some collapsed_row ∧
        (Rabs (sum row - 1) <= 1e-9 ∨ Forall (λ v, v = 0) row) ∧
        (Forall (λ v, v = 0) row ↔ sum collapsed_row = 0).
Proof.
  unfold _analyze_quantum_state. intros Hrun.
  apply bind_ok in Hrun as (collapsed & s1 & Hcollapse & Hrun).
  apply bind_ok in Hrun as (ph & s2 & _ & Hrun).
  apply bind_ok in Hrun as (pairs & s3 & _ & Hrun).
  injection Hrun as <- _. simpl.
  exists collapsed, s1. split; [done|].
  destruct (collapse_ok _ _ _ _ Hcollapse) as [-> [Hlen _]].
  split; [by unfold normalize_rows; rewrite length_fmap|].
  intros i row Hrow. unfold normalize_rows in Hrow.
  rewrite list_lookup_fmap in Hrow.
  destruct (collapsed !! i) as [crow|]; simpl in Hrow; [|done].
  injection Hrow as <-. exists crow. split; [done|].
  destruct (normalize_row_stochastic crow) as [[Hone|Hzero] Hiff].
  - split; [left|done]. rewrite Hone.
    replace (1 - 1) with 0 by lra. rewrite Rabs_R0. lra.
  - split; [by right|done].
Qed.

(** *** The phases *)

Lemma any_coupled_participates i j pairs :
  any_coupled i j pairs = true ↔ participates i j pairs.
Proof.
  unfold any_coupled, participates, in_pair. rewrite existsb_exists. split.
  - intros ([dim1 dim2] & Hin & Hb). exists dim1, dim2.
    split; [by apply list_elem_of_In|]. simpl in Hb.
    repeat (apply orb_true_iff in Hb as [Hb|Hb]);
      apply bool_decide_eq_true in Hb; auto.
  - intros (dim1 & dim2 & Hin & Hor). exists (dim1, dim2).
    split; [by apply list_elem_of_In|]. simpl.
    rewrite !orb_true_iff, !bool_decide_eq_true.
    destruct Hor as [?|[?|[?|?]]]; auto.
Qed.

Lemma fmod_range x m : 0 < m → 0 <= fmod x m < m.
Proof.
  intros Hm. unfold fmod.
  destruct (base_Int_part (x / m)) as [Hle Hgt].
  assert (x = x / m * m) as Hx by (field; lra).
  set (q := IZR (Int_part (x / m))) in *.
  assert (x - q * m = (x / m - q) * m) as -> by lra.
  split.
  - apply Rmult_le_pos; lra.
  - assert ((x / m - q) * m < 1 * m); [|lra].
    apply Rmult_lt_compat_r; lra.
Qed.

Lemma uniform_phase_range u : 0 <= u < 1 → 0 <= 0 + (2 * PI - 0) * u < 2 * PI.
Proof.
  intros [H0 H1]. pose proof PI_RGT_0 as Hpi. split.
  - assert (0 <= 2 * PI * u); [|lra]. apply Rmult_le_pos; lra.
  - assert (2 * PI * u < 2 * PI * 1); [|lra]. apply Rmult_lt_compat_l; lra.
Qed.

Lemma phase_ok_mono pairs p0 p p' i j v :
  (p ≤ p')%nat → phase_ok pairs p0 p i j v → phase_ok pairs p0 p' i j v.
Proof.
  unfold phase_ok. intros Hp [Hrange Hv]. split; [done|].
  destruct (any_coupled i j pairs); [|done].
  destruct Hv as (k & Hk & ->). exists k. split; [lia|done].
Qed.

Lemma seq_split n done x rest :
  seq 0 n = done ++ x :: rest → x = length done ∧ (x < n)%nat.
Proof.
  intros Hseq. pose proof (list_lookup_middle done rest x (length done) eq_refl) as Hx.
  rewrite <- Hseq in Hx. apply lookup_seq in Hx. lia.
Qed.

Lemma wp_setitem2 b a i j v s (Q : Matrix → state → Prop) :
  is_Some (entry a i j) → Q (update2 a i j v) s → wp b (setitem2 a i j v) s Q.
Proof. intros [c Hc] HQ. unfold wp. by rewrite setitem2_run, Hc. Qed.

(** The phase loop fills a square matrix of [D] rows with phases, reads
    only the generator, and raises nothing. *)
Lemma wp_phase_matrix b s :
  wp b phase_matrix s
    (λ phases s',
       self s' = self s ∧ (rng_pos s ≤ rng_pos s')%nat ∧
       has_shape (dimensions (self s)) (dimensions (self s)) phases ∧
       ∀ i j, (i < dimensions (self s))%nat → (j < dimensions (self s))%nat →
         ∃ v, entry phases i j = Some v ∧
              phase_ok (entanglement_pairs (self s)) (rng_pos s) (rng_pos s') i j v).
Proof.
  unfold phase_matrix.
  set (e := self s). set (D := dimensions e). set (p0 := rng_pos s).
  set (pairs := entanglement_pairs e).
  apply wp_bind, wp_attr, wp_bind, wp_attr. fold e D.
  eapply wp_mono.
  { apply (wp_for_each_prefix b
      (λ (done : list nat) (ph : Matrix) s1,
         self s1 = e ∧ (p0 ≤ rng_pos s1)%nat ∧ has_shape D D ph ∧
         ∀ i j, (i < length done)%nat → (j < D)%nat →
           ∃ v, entry ph i j = Some v ∧ phase_ok pairs p0 (rng_pos s1) i j v)).
    { split; [done|]. split; [done|]. split; [apply has_shape_zeros|].
      intros i j Hi. simpl in Hi. lia. }
    intros done x rest ph s1 Hseq (Hs1 & Hp1 & Hsh1 & Hdone).
    apply seq_split in Hseq as [-> Hx].
    apply wp_bind, wp_attr. rewrite Hs1. fold D.
    eapply wp_mono.
    { apply (wp_for_each_prefix b
        (λ (donej : list nat) (ph : Matrix) s2,
           self s2 = e ∧ (p0 ≤ rng_pos s2)%nat ∧ has_shape D D ph ∧
           (∀ i j, (i < length done)%nat → (j < D)%nat →
              ∃ v, entry ph i j = Some v ∧ phase_ok pairs p0 (rng_pos s2) i j v) ∧
           (∀ j, (j < length donej)%nat →
              ∃ v, entry ph (length done) j = Some v ∧
                   phase_ok pairs p0 (rng_pos s2) (length done) j v))).
      { repeat (split; [done|]). intros j Hj. simpl in Hj. lia. }
      intros donej y restj ph2 s2 Hseqj (Hs2 & Hp2 & Hsh2 & Hrows & Hrow).
      apply seq_split in Hseqj as [-> Hy].
      apply wp_bind, wp_attr. rewrite Hs2. fold pairs.
      set (i0 := length done) in *. set (j0 := length donej) in *.
      assert (∀ v (s3 : state),
        self s3 = e → (rng_pos s2 ≤ rng_pos s3)%nat →
        phase_ok pairs p0 (rng_pos s3) i0 j0 v →
        wp b (setitem2 ph2 i0 j0 v) s3
          (λ ph3 s4,
             self s4 = e ∧ (p0 ≤ rng_pos s4)%nat ∧ has_shape D D ph3 ∧
             (∀ i j, (i < i0)%nat → (j < D)%nat →
                ∃ v, entry ph3 i j = Some v ∧ phase_ok pairs p0 (rng_pos s4) i j v) ∧
             (∀ j, (j < length (donej ++ [j0]))%nat →
                ∃ v, entry ph3 i0 j = Some v ∧
                     phase_ok pairs p0 (rng_pos s4) i0 j v))) as Hwrite.
      { intros v s3 Hs3 Hp3 Hv.
        apply wp_setitem2; [by eapply has_shape_entry|].
        split; [done|]. split; [lia|]. split; [by apply has_shape_update2|]. split.
        - intros i j Hi Hj. rewrite entry_update2.
          rewrite decide_False by lia.
          destruct (Hrows i j Hi Hj) as (w & Hw & Hok). exists w.
          split; [done|]. by eapply phase_ok_mono.
        - intros j Hj. rewrite length_app in Hj. simpl in Hj.
          rewrite entry_update2. destruct (decide (j = j0)) as [->|Hne].
          + rewrite decide_True by done.
            destruct (has_shape_entry D D ph2 i0 j0) as [w ->]; [done..|].
            by exists v.
          + rewrite decide_False by (intros [? ?]; done).
            destruct (Hrow j) as (w & Hw & Hok); [fold j0; lia|]. exists w.
            split; [done|]. by eapply phase_ok_mono. }
      destruct (any_coupled i0 j0 pairs) eqn:Hany.
      - apply wp_bind, wp_uniform. apply Hwrite; simpl; [done|lia|].
        split; [by intros Hdraws; apply uniform_phase_range|]. rewrite Hany.
        exists (rng_pos s2). split; [lia|done].
      - apply Hwrite; [done|lia|].
        split; [intros _; apply fmod_range; pose proof PI_RGT_0; lra|]. by rewrite Hany. }
    simpl. intros ph2 s2 (Hs2 & Hp2 & Hsh2 & Hrows & Hrow).
    split; [done|]. split; [done|]. split; [done|].
    intros i j Hi Hj. rewrite length_app in Hi. simpl in Hi.
    rewrite length_seq in Hrow.
    destruct (decide (i = length done)) as [->|Hne]; [by apply Hrow|].
    apply Hrows; [lia|done]. }
  simpl. intros ph s1 (Hs1 & Hp1 & Hsh1 & Hdone). rewrite length_seq in Hdone. done.
Qed.

(** C7: every entry of the phase matrix that [_analyze_quantum_state]
    returns lies in [[0, 2π)]; an entry [(i, j)] whose [i] or [j] takes part
    in a pair is a draw of [random.uniform(0, 2π)] made by this call, and
    every other entry is [(i * j) mod 2π]. *)
Theorem phase_matrix_entries quantum_state s signature_data s' :
  unit_draws →
  _analyze_quantum_state quantum_state s = (Ok signature_data, s') →
  has_shape (dimensions (self s)) (dimensions (self s)) (phases signature_data) ∧
  ∀ i j v, entry (phases signature_data) i j = Some v →
    0 <= v < 2 * PI ∧
    (participates i j (entanglement_pairs (self s)) →
       ∃ k, (rng_pos s ≤ k < rng_pos s')%nat ∧ v = 0 + (2 * PI - 0) * unit_tape k) ∧
    (¬ participates i j (entanglement_pairs (self s)) →
       v = fmod (INR (i * j)) (2 * PI)).
Proof.
  intros Hdraws Hrun. unfold _analyze_quantum_state in Hrun.
  apply bind_ok in Hrun as (collapsed & s1 & Hcollapse & Hrun).
  apply collapse_ok in Hcollapse as [-> _].
  apply bind_ok in Hrun as (ph & s2 & Hph & Hrun).
  apply bind_ok in Hrun as (pairs & s3 & [= <- <-] & Hrun).
  injection Hrun as <- <-. simpl.
  pose proof (wp_phase_matrix false s) as Hwp.
  eapply wp_ok in Hwp; [|exact Hph].
  destruct Hwp as (Hs2 & Hp2 & Hsh & Hentries). split; [done|].
  intros i j v Hv.
  assert (i < dimensions (self s) ∧ j < dimensions (self s))%nat as [Hi Hj].
  { apply entry_Some in Hv as (row & Hrow & Hv). destruct Hsh as [Hlen Hrows].
    rewrite Forall_lookup in Hrows. specialize (Hrows _ _ Hrow).
    apply lookup_lt_Some in Hrow, Hv. lia. }
  destruct (Hentries i j Hi Hj) as (w & Hw & Hrange & Hok).
  rewrite Hv in Hw. injection Hw as <-. split; [by apply Hrange|].
  destruct (any_coupled i j (entanglement_pairs (self s))) eqn:Hany.
  - split; [done|]. intros Hnot. apply any_coupled_participates in Hany. done.
  - split; [|done]. intros Hpart. apply any_coupled_participates in Hpart. congruence.
Qed.

(** *** The analysis of a state with values in [[0, 1]] *)

Lemma elem_of_enumerate {A} (l : list A) i x :
  (i, x) ∈ enumerate l → l !! i = Some x.
Proof.
  unfold enumerate. intros Hin. apply list_elem_of_lookup in Hin as [k Hk].
  apply lookup_zip_with_Some in Hk as (i' & x' & [= <- <-] & Hi & Hx).
  apply lookup_seq in Hi as [-> _]. done.
Qed.

Lemma nonneg_update2 (a : Matrix) i j v :
  Forall (Forall (λ v, 0 <= v)) a → 0 <= v →
  Forall (Forall (λ v, 0 <= v)) (update2 a i j v).
Proof.
  intros Ha Hv. unfold update2. destruct (a !! i) as [row|] eqn:Hrow; [|done].
  apply Forall_insert; [done|]. apply Forall_insert; [|done].
  rewrite Forall_lookup in Ha. by eapply Ha.
Qed.

Lemma nonneg_entry (a : Matrix) i j v :
  Forall (Forall (λ v, 0 <= v)) a → entry a i j = Some v → 0 <= v.
Proof.
  intros Ha (row & Hrow & Hv)%entry_Some.
  rewrite Forall_lookup in Ha. specialize (Ha _ _ Hrow).
  rewrite Forall_lookup in Ha. by eapply Ha.
Qed.

(** On a state of at most [D] dimensions [collapse] raises nothing; the
    collapsed values of a state with values in [[0, 1]] are not negative. *)
Lemma wp_collapse b quantum_state s :
  (length quantum_state ≤ dimensions (self s))%nat →
  unit_state quantum_state →
  wp b (collapse quantum_state) s
    (λ collapsed s',
       s' = s ∧ has_shape (dimensions (self s)) (dimensions (self s)) collapsed ∧
       Forall (Forall (λ v, 0 <= v)) collapsed).
Proof.
  intros Hlen Hunit. unfold collapse.
  set (D := dimensions (self s)) in *.
  pose (I := λ (a : Matrix) (s1 : state),
          s1 = s ∧ has_shape D D a ∧ Forall (Forall (λ v, 0 <= v)) a).
  apply wp_bind, wp_attr. fold D.
  apply (wp_for_each b I).
  { split; [done|]. split; [apply has_shape_zeros|].
    apply Forall_replicate, Forall_replicate. lra. }
  intros [i dimension] a1 s1 Hdim HI1. apply elem_of_enumerate in Hdim.
  assert (i < D)%nat as Hi by (apply lookup_lt_Some in Hdim; lia).
  assert (Forall (Forall in01) dimension) as Hdim01.
  { unfold unit_state in Hunit. rewrite Forall_lookup in Hunit. by eapply Hunit. }
  apply (wp_for_each b I); [done|].
  intros superposition a2 s2 Hsup HI2.
  assert (Forall in01 superposition) as Hsup01.
  { rewrite Forall_forall in Hdim01. by apply Hdim01. }
  destruct HI2 as (-> & Hsh2 & Hnn2).
  apply wp_bind, wp_attr. fold D.
  apply (wp_for_each b I); [done|].
  intros [j value] a3 s3 Hval (-> & Hsh3 & Hnn3). apply elem_of_enumerate in Hval.
  assert (j < D)%nat as Hj.
  { apply lookup_lt_Some in Hval. rewrite length_take in Hval. lia. }
  assert (0 <= value) as Hvalue.
  { apply lookup_take_Some in Hval as [Hval _].
    rewrite Forall_lookup in Hsup01. by destruct (Hsup01 _ _ Hval). }
  unfold wp. rewrite collapse_cell_run.
  destruct (has_shape_entry D D a3 i j Hsh3 Hi Hj) as [c Hc]. rewrite Hc.
  split; [done|]. split; [by apply has_shape_update2|].
  apply nonneg_update2; [done|]. pose proof (nonneg_entry _ _ _ _ Hnn3 Hc). lra.
Qed.

Lemma normalize_row_in01 row :
  Forall (λ v, 0 <= v) row → Forall in01 (normalize_row row).
Proof.
  intros Hnn. unfold normalize_row. apply Forall_fmap, Forall_forall. intros c Hc. simpl.
  destruct (Req_dec_T (sum row) 0) as [_|Hne]; [unfold in01; lra|].
  pose proof (sum_nonneg _ Hnn). pose proof (sum_ge_elem _ _ Hnn Hc).
  rewrite Forall_forall in Hnn. specialize (Hnn _ Hc). simpl in Hnn.
  apply div_in01; lra.
Qed.

Lemma has_shape_normalize_rows n m a : has_shape n m a → has_shape n m (normalize_rows a).
Proof.
  unfold has_shape, normalize_rows. intros [Hlen Hrows].
  split; [by rewrite length_fmap|]. apply Forall_fmap.
  eapply Forall_impl; [exact Hrows|]. intros row Hrow. simpl.
  by rewrite normalize_row_length.
Qed.

(** What [_analyze_quantum_state] returns for a state of at most [D]
    dimensions with values in [[0, 1]]. *)
Lemma wp__analyze_quantum_state b quantum_state s :
  (length quantum_state ≤ dimensions (self s))%nat →
  unit_state quantum_state →
  wp b (_analyze_quantum_state quantum_state) s
    (λ signature_data s',
       self s' = self s ∧
       entanglement signature_data = entanglement_pairs (self s) ∧
       has_shape (dimensions (self s)) (dimensions (self s)) (amplitudes signature_data) ∧
       Forall (Forall in01) (amplitudes signature_data) ∧
       has_shape (dimensions (self s)) (dimensions (self s)) (phases signature_data)).
Proof.
  intros Hlen Hunit. unfold _analyze_quantum_state.
  apply wp_bind. eapply wp_mono; [by apply wp_collapse|].
  simpl. intros collapsed s1 (-> & Hsh & Hnn).
  apply wp_bind. eapply wp_mono; [apply wp_phase_matrix|].
  simpl. intros ph s2 (Hs2 & _ & Hph & _).
  apply wp_bind, wp_attr, wp_ret. simpl. rewrite Hs2.
  split; [done|]. split; [done|]. split; [by apply has_shape_normalize_rows|].
  split; [|done]. unfold normalize_rows. apply Forall_fmap.
  eapply Forall_impl; [exact Hnn|]. intros row Hrow. by apply normalize_row_in01.
Qed.

(** ** The uniqueness score *)

Lemma ln_2_pos : 0 < ln 2.
Proof. pose proof ln_lt_2. lra. Qed.

Lemma ln_unit_nonpos a : 0 < a <= 1 → ln a <= 0.
Proof.
  intros [H0 H1]. destruct (Req_dec_T a 1) as [->|Hne]; [rewrite ln_1; lra|].
  pose proof (ln_increasing a 1 H0). rewrite ln_1 in *. lra.
Qed.

Lemma spec_entropy_snoc entries a :
  spec_entropy (entries ++ [a]) =
  spec_entropy entries - (if Rlt_dec 0 a then a * (ln a / ln 2) else 0).
Proof. unfold spec_entropy. rewrite fmap_app, sum_app. simpl. rewrite sum_cons, sum_nil. lra. Qed.

Lemma spec_entropy_nonneg entries : Forall in01 entries → 0 <= spec_entropy entries.
Proof.
  intros H01. unfold spec_entropy.
  enough (sum ((λ a, if Rlt_dec 0 a then a * (ln a / ln 2) else 0) <$> entries) <= 0)
    by lra.
  induction H01 as [|a entries [Ha0 Ha1] _ IH]; [rewrite fmap_nil, sum_nil; lra|].
  rewrite fmap_cons, sum_cons.
  destruct (Rlt_dec 0 a) as [Hpos|_]; [|lra].
  pose proof (ln_unit_nonpos a (conj Hpos Ha1)) as Hln. pose proof ln_2_pos as H2.
  assert (0 <= a * (- ln a / ln 2)).
  { apply Rmult_le_pos; [lra|]. unfold Rdiv. apply Rmult_le_pos; [lra|].
    left. by apply Rinv_0_lt_compat. }
  assert (a * (ln a / ln 2) = - (a * (- ln a / ln 2))) as -> by (field; lra). lra.
Qed.

Lemma wp_log2 b x s (Q : R → state → Prop) :
  0 < x → Q (ln x / ln 2) s → wp b (log2 x) s Q.
Proof. intros Hx HQ. unfold wp, log2. by destruct (Rlt_dec 0 x). Qed.

Lemma length_concat_shape n m (a : Matrix) : has_shape n m a → length (concat a) = (n * m)%nat.
Proof.
  intros [<- Hrows]. induction Hrows as [|row a Hrow _ IH]; [done|].
  simpl. rewrite length_app, IH, Hrow. done.
Qed.

Lemma half_pairs_factor D n :
  D ≠ 0%nat → (2 * n ≤ D)%nat → in01 (INR n / (INR D / 2)).
Proof.
  intros HD Hn. apply div_in01.
  - split; [apply pos_INR|]. apply le_INR in Hn. rewrite mult_INR in Hn. simpl in Hn. lra.
  - assert (0 < INR D) by (apply lt_0_INR; lia). lra.
Qed.

(** [_calculate_uniqueness] computes the specified score on a signature
    with amplitudes in [[0, 1]] and at most [D / 2] pairs. *)
Lemma wp__calculate_uniqueness b signature_data s :
  dimensions (self s) ≠ 0%nat →
  has_shape (dimensions (self s)) (dimensions (self s)) (amplitudes signature_data) →
  Forall (Forall in01) (amplitudes signature_data) →
  (2 * length (entanglement signature_data) ≤ dimensions (self s))%nat →
  wp b (_calculate_uniqueness signature_data) s
    (λ u s', s' = s ∧ u = spec_uniqueness (dimensions (self s)) signature_data ∧ in01 u).
Proof.
  intros HD Hsh H01 Hpairs. unfold _calculate_uniqueness.
  set (D := dimensions (self s)) in *.
  set (entries := concat (amplitudes signature_data)).
  assert (Forall in01 entries) as Hentries by (by apply Forall_concat).
  apply wp_bind. eapply wp_mono.
  { apply (wp_for_each_prefix b (λ done entropy s1, s1 = s ∧ entropy = spec_entropy done)).
    { split; [done|]. unfold spec_entropy. rewrite fmap_nil, sum_nil. lra. }
    intros done a rest entropy s1 _ [-> ->]. rewrite spec_entropy_snoc.
    destruct (Rlt_dec 0 a) as [Ha|_]; [|by apply wp_ret; split; [|lra]].
    apply wp_bind, wp_log2; [done|]. by apply wp_ret. }
  simpl. intros entropy s1 [-> ->].
  pose proof (spec_entropy_nonneg entries Hentries) as Hnonneg.
  pose proof ln_2_pos as Hln2.
  assert (length entries = (D * D)%nat) as Hlen by (by eapply length_concat_shape).
  rewrite Hlen.
  assert (0 < INR (D * D)) as HDD by (apply lt_0_INR; nia).
  apply wp_bind, wp_log2; [done|].
  pose proof (half_pairs_factor D _ HD Hpairs) as Hfactor.
  assert (INR D / 2 ≠ 0) as Hhalf.
  { assert (0 < INR D) by (apply lt_0_INR; lia). lra. }
  assert (∀ ne, 0 <= ne →
    ne = (if decide (D * D ≤ 1)%nat then 0
          else spec_entropy entries / (ln (INR (D * D)) / ln 2)) →
    wp b (D ← attr dimensions;
          half ← truediv (INR D) 2;
          entanglement_factor ←
            truediv (INR (length (entanglement signature_data))) half;
          let uniqueness := ne * 0.7 + entanglement_factor * 0.3 in
          mret (Rmin 1 uniqueness)) s
      (λ u s', s' = s ∧ u = spec_uniqueness D signature_data ∧ in01 u)) as Hrest.
  { intros ne Hne Heq. apply wp_bind, wp_attr. fold D.
    apply wp_bind, wp_truediv; [lra|].
    apply wp_bind, wp_truediv; [done|]. apply wp_ret. split; [done|].
    unfold spec_uniqueness. fold entries. rewrite <- Heq.
    rewrite (clamp01_id _ Hfactor). destruct Hfactor as [Hf0 Hf1].
    set (ef := INR (length (entanglement signature_data)) / (INR D / 2)) in *.
    split.
    - unfold clamp01, Rmin, Rmax. repeat destruct Rle_dec; lra.
    - unfold in01, Rmin. destruct Rle_dec; lra. }
  destruct (decide (D * D ≤ 1)%nat) as [Hsmall|Hbig].
  - assert (D * D = 1)%nat as -> by nia. simpl. rewrite ln_1.
    destruct (Rlt_dec 0 (0 / ln 2)) as [Hlt|_].
    { unfold Rdiv in Hlt. rewrite Rmult_0_l in Hlt. lra. }
    apply wp_bind, wp_ret. apply Hrest; [lra|done].
  - assert (0 < ln (INR (D * D)) / ln 2) as Hmax.
    { assert (1 < INR (D * D)) as H1 by (apply lt_1_INR; lia).
      pose proof (ln_increasing 1 _ Rlt_0_1 H1) as Hln. rewrite ln_1 in Hln.
      unfold Rdiv. apply Rmult_lt_0_compat; [done|]. by apply Rinv_0_lt_compat. }
    destruct (Rlt_dec 0 (ln (INR (D * D)) / ln 2)) as [_|]; [|done].
    apply wp_bind, wp_truediv; [lra|]. apply Hrest.
    + unfold Rdiv. apply Rmult_le_pos; [done|]. left. by apply Rinv_0_lt_compat.
    + done.
Qed.

(** ** Rendering *)

Lemma clip8_byte v : is_byte (clip8 v).
Proof. unfold is_byte, clip8. lia. Qed.

Lemma valid_image_new res : valid_image res (Image_new res res (0, 0, 0, 0)%Z).
Proof.
  unfold valid_image, Image_new. simpl. rewrite length_replicate.
  repeat split. apply Forall_replicate. unfold is_byte. lia.
Qed.

Lemma valid_putpixel res img xy fill :
  valid_image res img → valid_image res (putpixel img xy fill).
Proof.
  intros (Hw & Hh & Hlen & Hpix). unfold putpixel.
  destruct xy as [x y], fill as [[[r g] b0] a].
  destruct (decide _); [|done]. unfold valid_image. simpl.
  rewrite length_insert. repeat split; try done.
  apply Forall_insert; [done|]. repeat split; apply clip8_byte.
Qed.

Lemma valid_putpixels res img fill pts :
  valid_image res img →
  valid_image res (foldl (λ img xy, putpixel img xy fill) img pts).
Proof.
  revert img. induction pts as [|xy pts IH]; intros img Himg; [done|].
  simpl. by apply IH, valid_putpixel.
Qed.

Lemma valid_tobytes res img :
  valid_image res img →
  valid_buffer res {| qdata := tobytes img; qwidth := width img; qheight := height img |}.
Proof.
  intros (Hw & Hh & Hlen & Hpix). unfold valid_buffer, tobytes. simpl.
  split; [done|]. split; [done|]. rewrite <- Hlen. clear Hlen Hw Hh.
  induction Hpix as [|[[[r g] b0] a] pix (Hr & Hg & Hb & Ha) _ [IHlen IHall]]; [done|].
  rewrite fmap_cons. cbn [concat]. split.
  - rewrite length_app, IHlen. cbn [length]. lia.
  - apply Forall_app. split; [|done].
    repeat (apply Forall_cons_2; [done|]). apply Forall_nil_2.
Qed.

Lemma py_int_nonneg x : 0 <= x → (0 ≤ py_int x)%Z.
Proof.
  intros Hx. unfold py_int. destruct (Rle_dec 0 x) as [_|]; [|done].
  destruct (base_Int_part x) as [_ Hgt].
  assert (-1 < IZR (Int_part x)) as Hlt by lra.
  apply lt_IZR in Hlt. lia.
Qed.

Lemma wp_getitem2z b n m a i j s (Q : R → state → Prop) :
  has_shape n m a → (0 ≤ i < Z.of_nat n)%Z → (0 ≤ j < Z.of_nat m)%Z →
  (∀ v, Q v s) → wp b (getitem2z a i j) s Q.
Proof.
  intros [Hlen Hrows] Hi Hj HQ. unfold getitem2z.
  rewrite !decide_False by lia.
  destruct (lookup_lt_is_Some_2 a (Z.to_nat i)) as [row Hrow]; [lia|].
  apply wp_bind, (wp_getitem _ _ _ row); [done|].
  rewrite decide_False by lia.
  rewrite Forall_lookup in Hrows. specialize (Hrows _ _ Hrow). simpl in Hrows.
  destruct (lookup_lt_is_Some_2 row (Z.to_nat j)) as [v Hv]; [lia|].
  by apply (wp_getitem _ _ _ v).
Qed.

Lemma wp_draw_cell b signature_data cell_width cell_height y x img s res :
  0 < cell_width → 0 < cell_height →
  has_shape (dimensions (self s)) (dimensions (self s)) (amplitudes signature_data) →
  has_shape (dimensions (self s)) (dimensions (self s)) (phases signature_data) →
  valid_image res img →
  wp b (draw_cell signature_data cell_width cell_height y x img) s
    (λ img' s', s' = s ∧ valid_image res img').
Proof.
  intros Hcw Hch Hamp Hph Himg. unfold draw_cell.
  apply wp_bind, wp_truediv; [lra|]. apply wp_bind, wp_truediv; [lra|].
  apply wp_bind, wp_attr.
  assert (∀ n c, 0 < c → (0 ≤ py_int (INR n / c))%Z) as Hidx.
  { intros n c Hc. apply py_int_nonneg. unfold Rdiv. apply Rmult_le_pos; [apply pos_INR|].
    left. by apply Rinv_0_lt_compat. }
  destruct (decide _) as [[Hi Hj]|_]; [|by apply wp_ret].
  eapply wp_bind, wp_getitem2z; [exact Hamp|split; [by apply Hidx|done]..|].
  intros amplitude.
  eapply wp_bind, wp_getitem2z; [exact Hph|split; [by apply Hidx|done]..|].
  intros phase. simpl.
  destruct (hsv_sector _ _ _ _ _) as [[r g] b0].
  apply wp_ret. split; [done|]. by apply valid_putpixel.
Qed.

Lemma wp_draw_step b x1 y1 x2 y2 i img s res :
  valid_image res img →
  wp b (draw_step x1 y1 x2 y2 100 i img) s (λ img' s', s' = s ∧ valid_image res img').
Proof.
  intros Himg. unfold draw_step.
  apply wp_bind, wp_truediv.
  { assert (0 < INR 100) by (apply lt_0_INR; lia). lra. }
  simpl. destruct (hsv_sector _ _ _ _ _) as [[r g] b0].
  set (t := INR i / _).
  assert (0 <= IZR (py_int (3 + 2 * sin (t * PI * 2)))) as Hsize.
  { apply IZR_le, py_int_nonneg. pose proof (SIN_bound (t * PI * 2)). lra. }
  unfold draw_ellipse.
  destruct Rlt_dec as [Hlt|_]; [lra|]. destruct Rlt_dec as [Hlt|_]; [lra|].
  apply wp_ret. split; [done|]. by apply valid_putpixels.
Qed.

(** [_visualize_quantum_signature] raises nothing on square matrices of
    [D] rows and returns a valid image buffer of the engine's resolution. *)
Lemma wp__visualize_quantum_signature b signature_data s :
  dimensions (self s) ≠ 0%nat →
  has_shape (dimensions (self s)) (dimensions (self s)) (amplitudes signature_data) →
  has_shape (dimensions (self s)) (dimensions (self s)) (phases signature_data) →
  wp b (_visualize_quantum_signature signature_data) s
    (λ q s', s' = s ∧ valid_buffer (resolution (self s)) q).
Proof.
  intros HD Hamp Hph. unfold _visualize_quantum_signature.
  assert (0 < INR (dimensions (self s))) as HDpos by (apply lt_0_INR; lia).
  set (res := resolution (self s)). set (D := dimensions (self s)) in *.
  do 3 apply wp_bind, wp_attr. apply wp_bind, wp_truediv; [by apply Rgt_not_eq|].
  do 2 apply wp_bind, wp_attr. apply wp_bind, wp_truediv; [by apply Rgt_not_eq|].
  apply wp_bind, wp_attr. fold res D.
  pose (I := λ (img : Image) (s1 : state), s1 = s ∧ valid_image res img).
  apply wp_bind. eapply wp_mono.
  { apply (wp_for_each b I); [by split; [|apply valid_image_new]|].
    intros y img1 s1 Hy [-> Himg1]. apply wp_bind, wp_attr. fold res.
    apply (wp_for_each b I); [done|].
    intros x img2 s2 Hx [-> Himg2].
    apply elem_of_seq in Hx.
    assert (0 < INR res / INR D) as Hcell.
    { unfold Rdiv. apply Rmult_lt_0_compat; [apply lt_0_INR; lia|].
      by apply Rinv_0_lt_compat. }
    by apply wp_draw_cell. }
  cbv beta. intros img1 s1 [-> Himg1].
  apply wp_bind. eapply wp_mono.
  { apply (wp_for_each b I); [done|].
    intros [dim1 dim2] img2 s2 _ [-> Himg2].
    apply (wp_for_each b I); [done|].
    intros i img3 s3 _ [-> Himg3]. by apply wp_draw_step. }
  cbv beta. intros img2 s2 [-> Himg2]. apply wp_ret. split; [done|].
  by apply valid_tobytes.
Qed.

(** ** [generate_signature] *)

Lemma wp_try_except {A} b (body : M A) handler s (Q : A → state → Prop) :
  wp b body s Q → wp b (try_except body handler) s Q.
Proof. unfold wp, try_except. by destruct (body s) as [[a|e|] s']. Qed.

(** A call on a readable file, by an engine with at least one dimension,
    raises nothing and returns a result; the generator has to be fair only
    when the engine has two dimensions or more. *)
Lemma wp_generate_signature_from_two b fs file_path evolution s c :
  fs file_path = Some {| content := c; readable := true |} →
  dimensions (self s) ≠ 0%nat →
  (b = true → (2 ≤ dimensions (self s))%nat → fair fuel (dimensions (self s))) →
  wp b (generate_signature fs file_path evolution) s
    (λ o s', ∃ r,
       o = Some r ∧
       self s' = with_pairs (self s) (entanglement (res_signature_data r)) ∧
       length (entanglement (res_signature_data r)) = (dimensions (self s) / 2)%nat ∧
       Forall (valid_pair (dimensions (self s))) (entanglement (res_signature_data r)) ∧
       has_shape (dimensions (self s)) (dimensions (self s))
         (amplitudes (res_signature_data r)) ∧
       Forall (Forall in01) (amplitudes (res_signature_data r)) ∧
       has_shape (dimensions (self s)) (dimensions (self s))
         (phases (res_signature_data r)) ∧
       valid_buffer (resolution (self s)) (res_signature_image r) ∧
       res_confidence r = confidence_level (self s) ∧
       res_uniqueness_score r =
         spec_uniqueness (dimensions (self s)) (res_signature_data r) ∧
       in01 (res_uniqueness_score r)).
Proof.
  intros Hfs HD Hfair. unfold generate_signature. apply wp_try_except.
  rewrite (_calculate_complex_hash_readable _ _ _ Hfs).
  apply wp_bind, wp_lift, wp_bind.
  eapply wp_mono; [by apply wp__hash_to_quantum_state_from_two|].
  cbv beta. intros qs s1 (Hs1 & Hlen & Hvalid & Hqs & Hunit).
  assert (dimensions (self s1) = dimensions (self s)) as HD1 by (by rewrite Hs1).
  assert (resolution (self s1) = resolution (self s)) as Hres1 by (by rewrite Hs1).
  assert (confidence_level (self s1) = confidence_level (self s)) as Hconf1
    by (by rewrite Hs1).
  set (pairs := entanglement_pairs (self s1)) in *.
  assert (wp b (if evolution
                then steps ← attr evolution_steps; evolve_rounds steps qs
                else mret qs) s1
            (λ st s2, self s2 = self s1 ∧ length st = length qs ∧ unit_state st)) as Hev.
  { destruct evolution; [|by apply wp_ret].
    apply wp_bind, wp_attr, wp_evolve_rounds; [|done]. by eapply valid_pairs_in_range. }
  apply wp_bind. eapply wp_mono; [exact Hev|].
  cbv beta. intros st s2 (Hs2 & Hst & Hunit2).
  apply wp_bind. eapply wp_mono.
  { apply wp__analyze_quantum_state; [|done]. rewrite Hs2, HD1. lia. }
  cbv beta. intros sd s3 (Hs3 & Hent & Hamp & Hamp01 & Hph).
  rewrite Hs2 in Hent, Hamp, Hph. rewrite HD1 in Hamp, Hph. fold pairs in Hent.
  apply wp_bind. eapply wp_mono.
  { apply wp__visualize_quantum_signature; rewrite Hs3, Hs2, HD1; done. }
  cbv beta. intros img s4 (-> & Himg).
  apply wp_bind, wp_attr, wp_bind. eapply wp_mono.
  { apply wp__calculate_uniqueness; rewrite ?Hs3, ?Hs2, ?HD1; try done.
    rewrite Hent, Hlen. pose proof (Nat.Div0.mul_div_le (dimensions (self s)) 2). lia. }
  cbv beta. intros u s5 (-> & Hu & Hu01). apply wp_ret.
  eexists. split; [done|]. simpl.
  rewrite Hs3, Hs2, Hres1, HD1 in *. rewrite Hent.
  repeat (split; [done|]). done.
Qed.

Lemma wp_generate_signature b fs file_path evolution s c :
  fs file_path = Some {| content := c; readable := true |} →
  dimensions (self s) ≠ 0%nat →
  (b = true → fair fuel (dimensions (self s))) →
  wp b (generate_signature fs file_path evolution) s
    (λ o s', ∃ r,
       o = Some r ∧
       self s' = with_pairs (self s) (entanglement (res_signature_data r)) ∧
       length (entanglement (res_signature_data r)) = (dimensions (self s) / 2)%nat ∧
       Forall (valid_pair (dimensions (self s))) (entanglement (res_signature_data r)) ∧
       has_shape (dimensions (self s)) (dimensions (self s))
         (amplitudes (res_signature_data r)) ∧
       Forall (Forall in01) (amplitudes (res_signature_data r)) ∧
       has_shape (dimensions (self s)) (dimensions (self s))
         (phases (res_signature_data r)) ∧
       valid_buffer (resolution (self s)) (res_signature_image r) ∧
       res_confidence r = confidence_level (self s) ∧
       res_uniqueness_score r =
         spec_uniqueness (dimensions (self s)) (res_signature_data r) ∧
       in01 (res_uniqueness_score r)).
Proof.
  intros Hfs HD Hfair. eapply wp_generate_signature_from_two; [done..|].
  intros Hb _. by apply Hfair.
Qed.

(** A call that cannot read the file returns [None] and changes nothing. *)
Lemma generate_signature_unreadable fs file_path evolution s :
  _calculate_complex_hash fs file_path = Raise (OSError file_path) →
  generate_signature fs file_path evolution s = (Ok None, s).
Proof.
  intros Hhash. unfold generate_signature, try_except, mbind, M_bind, lift.
  by rewrite Hhash.
Qed.

(** A call by an engine without dimensions returns [None] and changes
    nothing: the division by [self.dimensions] raises before any draw. *)
Lemma generate_signature_no_dimensions fs file_path evolution s hash_bytes :
  _calculate_complex_hash fs file_path = Ok hash_bytes →
  dimensions (self s) = 0%nat →
  generate_signature fs file_path evolution s = (Ok None, s).
Proof.
  intros Hhash HD. unfold generate_signature, try_except.
  unfold mbind at 1, M_bind at 1, lift. rewrite Hhash.
  unfold mbind at 1, M_bind at 1.
  by rewrite construction_raises_without_dimensions.
Qed.

Lemma _calculate_complex_hash_cases fs file_path :
  (∃ c, fs file_path = Some {| content := c; readable := true |}) ∨
  _calculate_complex_hash fs file_path = Raise (OSError file_path).
Proof.
  unfold _calculate_complex_hash, getsize, open_rb.
  destruct (fs file_path) as [[c [|]]|]; simpl; eauto.
  destruct (_ <? _)%N; eauto.
Qed.

(** Every run of [generate_signature] that returns a result went through
    the whole pipeline. *)
Lemma generate_signature_result fs file_path evolution s r s' :
  generate_signature fs file_path evolution s = (Ok (Some r), s') →
  dimensions (self s) ≠ 0%nat ∧
  self s' = with_pairs (self s) (entanglement (res_signature_data r)) ∧
  length (entanglement (res_signature_data r)) = (dimensions (self s) / 2)%nat ∧
  res_uniqueness_score r = spec_uniqueness (dimensions (self s)) (res_signature_data r) ∧
  in01 (res_uniqueness_score r).
Proof.
  intros Hrun.
  destruct (_calculate_complex_hash_cases fs file_path) as [[c Hfs]|Hraise].
  2:{ by rewrite generate_signature_unreadable in Hrun. }
  destruct (decide (dimensions (self s) = 0%nat)) as [HD|HD].
  { rewrite (generate_signature_no_dimensions _ _ _ _ _
               (_calculate_complex_hash_readable _ _ _ Hfs) HD) in Hrun. done. }
  pose proof (wp_generate_signature false fs file_path evolution s c Hfs HD) as Hwp.
  eapply wp_ok in Hwp; [|done|exact Hrun].
  destruct Hwp as (r' & [= <-] & Hself & Hlen & _ & _ & _ & _ & _ & _ & Hu & Hu01).
  done.
Qed.

(** C1 (amended): for a path whose file does not exist or cannot be read,
    [_calculate_complex_hash] raises an [OSError] that carries the path;
    [generate_signature] catches it and returns [None], so no partial
    result is returned, and leaves the engine and the generator as they
    were. *)
Theorem unreadable_path_returns_none fs file_path evolution s :
  fs file_path = None ∨
  (∃ c, fs file_path = Some {| content := c; readable := false |}) →
  _calculate_complex_hash fs file_path = Raise (OSError file_path) ∧
  generate_signature fs file_path evolution s = (Ok None, s).
Proof.
  intros Hfs.
  assert (_calculate_complex_hash fs file_path = Raise (OSError file_path)) as Hraise.
  { unfold _calculate_complex_hash, getsize, open_rb.
    destruct Hfs as [->|[c ->]]; [done|]. simpl. by destruct (_ <? _)%N. }
  split; [done|]. by apply generate_signature_unreadable.
Qed.

(** C3: the uniqueness score of every result of [generate_signature] is
    [clamp(0.7·H_norm + 0.3·entanglement_factor, 0, 1)] as specified, and
    lies in [[0, 1]]. *)
Theorem uniqueness_score_as_specified fs file_path evolution s r s' :
  generate_signature fs file_path evolution s = (Ok (Some r), s') →
  res_uniqueness_score r = spec_uniqueness (dimensions (self s)) (res_signature_data r) ∧
  0 <= res_uniqueness_score r <= 1.
Proof.
  intros Hrun. by destruct (generate_signature_result _ _ _ _ _ _ Hrun) as (_ & _ & _ & ? & ?).
Qed.

(** C4 (amended): a call that returns a result leaves the coupling set of
    that call in the [entanglement_pairs] field of the engine, with its
    [D // 2] pairs, and leaves every other field as it was; a call that
    returns [None] leaves the engine as it was. *)
Theorem engine_after_call fs file_path evolution s o s' :
  generate_signature fs file_path evolution s = (Ok o, s') →
  match o with
  | Some r =>
      self s' = with_pairs (self s) (entanglement (res_signature_data r)) ∧
      entanglement_pairs (self s') = entanglement (res_signature_data r) ∧
      length (entanglement_pairs (self s')) = (dimensions (self s) / 2)%nat
  | None => self s' = self s
  end.
Proof.
  intros Hrun. destruct o as [r|].
  - destruct (generate_signature_result _ _ _ _ _ _ Hrun) as (_ & Hself & Hlen & _).
    rewrite Hself. done.
  - destruct (_calculate_complex_hash_cases fs file_path) as [[c Hfs]|Hraise].
    2:{ rewrite generate_signature_unreadable in Hrun by done. by injection Hrun as <-. }
    destruct (decide (dimensions (self s) = 0%nat)) as [HD|HD].
    { rewrite (generate_signature_no_dimensions _ _ _ _ _
                 (_calculate_complex_hash_readable _ _ _ Hfs) HD) in Hrun.
      by injection Hrun as <-. }
    pose proof (wp_generate_signature false fs file_path evolution s c Hfs HD) as Hwp.
    eapply wp_ok in Hwp; [|done|exact Hrun]. by destruct Hwp as (r' & [=] & _).
Qed.

(** C8: a zero-byte file is valid input.  Its digest is the blake2b digest
    of the three digests of the empty byte string; for an engine with at
    least one dimension, and a generator whose rejection loop stops within
    the fuel, [generate_signature] returns a result whose uniqueness score
    lies in [[0, 1]] and whose image is a valid buffer of the engine's
    resolution. *)
Theorem empty_file_signature fs file_path evolution s :
  fs file_path = Some {| content := []; readable := true |} →
  dimensions (self s) ≠ 0%nat →
  fair fuel (dimensions (self s)) →
  _calculate_complex_hash fs file_path = Ok (blake2b (sha256 [] ++ md5 [] ++ sha1 [])) ∧
  ∃ r s',
    generate_signature fs file_path evolution s = (Ok (Some r), s') ∧
    0 <= res_uniqueness_score r <= 1 ∧
    valid_buffer (resolution (self s)) (res_signature_image r).
Proof.
  intros Hfs HD Hfair. split; [by apply _calculate_complex_hash_readable|].
  pose proof (wp_generate_signature true fs file_path evolution s [] Hfs HD) as Hwp.
  apply wp_strict_ok in Hwp as (o & s' & Hrun & r & -> & Hrest); [|done].
  exists r, s'. split; [done|].
  by destruct Hrest as (_ & _ & _ & _ & _ & _ & Himg & _ & _ & Hu01).
Qed.

Lemma generate_signature_returns fs file_path evolution s c :
  fs file_path = Some {| content := c; readable := true |} →
  dimensions (self s) ≠ 0%nat →
  fair fuel (dimensions (self s)) →
  ∃ r s', generate_signature fs file_path evolution s = (Ok (Some r), s').
Proof.
  intros Hfs HD Hfair.
  pose proof (wp_generate_signature true fs file_path evolution s c Hfs HD) as Hwp.
  apply wp_strict_ok in Hwp as (o & s' & Hrun & r & -> & _); [|done]. eauto.
Qed.

Lemma generate_signature_returns_from_two fs file_path evolution s c :
  fs file_path = Some {| content := c; readable := true |} →
  dimensions (self s) ≠ 0%nat →
  ((2 ≤ dimensions (self s))%nat → fair fuel (dimensions (self s))) →
  ∃ r s', generate_signature fs file_path evolution s = (Ok (Some r), s').
Proof.
  intros Hfs HD Hfair.
  pose proof (wp_generate_signature_from_two true fs file_path evolution s c Hfs HD
                (λ _, Hfair)) as Hwp.
  apply wp_strict_ok in Hwp as (o & s' & Hrun & r & -> & _). eauto.
Qed.

Lemma construct_and_evolve_returns hash_bytes steps s :
  dimensions (self s) ≠ 0%nat →
  fair fuel (dimensions (self s)) →
  ∃ st s',
    (quantum_state ← _hash_to_quantum_state hash_bytes;
     evolve_rounds steps quantum_state) s = (Ok st, s').
Proof.
  intros HD Hfair.
  enough (wp true (quantum_state ← _hash_to_quantum_state hash_bytes;
                   evolve_rounds steps quantum_state) s (λ _ _, True)) as Hwp.
  { apply wp_strict_ok in Hwp as (st & s' & Hrun & _). eauto. }
  apply wp_bind. eapply wp_mono; [by apply wp__hash_to_quantum_state|].
  cbv beta. intros qs s1 (_ & _ & Hvalid & Hlen & Hunit).
  eapply wp_mono; [apply wp_evolve_rounds; [|done]|done].
  by eapply valid_pairs_in_range.
Qed.

(** * Further properties *)

(** ** State construction: shape and jitter *)

Lemma chunks_cover hash_bytes D :
  D ≠ 0%nat → concat (chunk_of hash_bytes D <$> seq 0 D) = hash_bytes.
Proof.
  intros HD. destruct D as [|n]; [done|]. clear HD.
  set (cs := (length hash_bytes / S n)%nat).
  assert (∀ k, (k ≤ n)%nat →
            concat (chunk_of hash_bytes (S n) <$> seq 0 k) = take (k * cs) hash_bytes)
    as Hprefix.
  { induction k as [|k IH]; intros Hk; [done|].
    rewrite seq_S, fmap_app, concat_app, IH by lia. simpl.
    rewrite app_nil_r. unfold chunk_of, slice. fold cs.
    rewrite decide_True by lia.
    replace (k * cs + cs - k * cs)%nat with cs by lia.
    rewrite take_take_drop. f_equal. lia. }
  rewrite seq_S, fmap_app, concat_app, Hprefix by lia. simpl.
  rewrite app_nil_r. unfold chunk_of, slice. fold cs.
  rewrite decide_False by lia.
  rewrite (take_ge (drop _ _)) by (rewrite length_drop; lia).
  apply take_drop.
Qed.

Lemma scaled_in01 b : in01 (scaled b).
Proof.
  unfold scaled. apply div_in01; [|lra]. split; [apply pos_INR|].
  pose proof (le_INR _ _ (Byte.to_nat_bounded b)) as Hle.
  replace 255 with (INR 255); [done|]. by rewrite INR_IZR_INZ.
Qed.

Lemma jitter_clamp v k :
  jitter_ok (clamp01 (v + (-0.1 + (0.1 - -0.1) * unit_tape k))) v.
Proof.
  split; [apply clamp01_in01|]. intros Hdraws [Hv0 Hv1].
  destruct (Hdraws k) as [Ht0 Ht1].
  unfold clamp01, Rmin, Rmax, Rabs.
  repeat destruct Rle_dec; destruct Rcase_abs; lra.
Qed.

Lemma wp_variation_of_jitter b values s :
  wp b (variation_of values) s
    (λ variation s', self s' = self s ∧ Forall2 jitter_ok variation values).
Proof.
  unfold variation_of. revert s.
  induction values as [|v values IH]; intros s; simpl.
  - apply wp_ret. by split.
  - apply wp_bind, wp_bind, wp_uniform, wp_ret, wp_bind.
    eapply wp_mono; [apply IH|]. intros variation s' [Hs Hv]. apply wp_ret.
    split; [done|]. constructor; [apply jitter_clamp | done].
Qed.

(** The rejection loop returns a draw of the generator other than [dim1]. *)
Lemma wp_redraw_drawn b k n dim1 dim2 s :
  n ≠ 0%nat → (∃ p, dim2 = (int_tape p mod n)%nat) →
  (b = true → dim1 = dim2 →
     ∃ j, (j < k)%nat ∧ (int_tape (rng_pos s + j) mod n)%nat ≠ dim1) →
  wp b (redraw k n dim1 dim2) s
    (λ d s', self s' = self s ∧ dim1 ≠ d ∧ ∃ p, d = (int_tape p mod n)%nat).
Proof.
  intros Hn. revert dim2 s. induction k as [|k IH]; intros dim2 s Hdrawn Hfair; simpl.
  - destruct (decide (dim1 = dim2)) as [->|Hne]; [|by apply wp_ret].
    destruct b; [|done]. destruct Hfair as (j & Hj & _); [done..|lia].
  - destruct (decide (dim1 = dim2)) as [->|Hne]; [|by apply wp_ret].
    apply wp_bind, wp_randrange; [done|].
    eapply wp_mono; [apply IH|]; simpl.
    + by eexists.
    + intros Hb Heq. destruct Hfair as (j & Hj & Hd); [done..|].
      destruct j as [|j].
      * rewrite Nat.add_0_r in Hd. congruence.
      * exists j. split; [lia|]. by rewrite Nat.add_succ_r in Hd.
    + intros d s' (Hs & Hd & Hp). by rewrite Hs.
Qed.

(** What [_hash_to_quantum_state] returns, variant by variant. *)
Lemma wp__hash_to_quantum_state_values b hash_bytes s :
  dimensions (self s) ≠ 0%nat →
  (b = true → fair fuel (dimensions (self s))) →
  wp b (_hash_to_quantum_state hash_bytes) s
    (λ quantum_state s',
       length quantum_state = dimensions (self s) ∧
       (∀ i dimension, quantum_state !! i = Some dimension →
          length dimension = superposition_count (self s) ∧
          Forall (λ variation,
                    Forall2 jitter_ok variation
                      (scaled <$> chunk_of hash_bytes (dimensions (self s)) i))
            dimension) ∧
       length (entanglement_pairs (self s')) = (dimensions (self s) / 2)%nat ∧
       Forall (drawn_pair (dimensions (self s))) (entanglement_pairs (self s'))).
Proof.
  intros HD Hfair. unfold _hash_to_quantum_state.
  set (e := self s). set (D := dimensions e) in *.
  set (P := λ (i : nat) (dimension : list (list R)),
         length dimension = superposition_count e ∧
         Forall (λ variation,
                   Forall2 jitter_ok variation (scaled <$> chunk_of hash_bytes D i))
           dimension).
  apply wp_bind, wp_attr, wp_bind. unfold floordiv.
  destruct (decide (dimensions (self s) = 0%nat)) as [|_]; [done|].
  apply wp_ret, wp_bind.
  eapply wp_mono.
  { apply (wp_for_each_prefix b
             (λ done (qs : QuantumState) s',
                self s' = e ∧ length qs = length done ∧
                ∀ i dimension, qs !! i = Some dimension → P i dimension)).
    { split; [done|]. split; [done|]. intros i dimension Hi.
      by rewrite lookup_nil in Hi. }
    intros done i rest qs s1 Hseq (Hs1 & Hlen & Hqs).
    apply seq_split in Hseq as [-> Hi].
    apply wp_bind, wp_attr, wp_bind, wp_attr, wp_bind. rewrite Hs1.
    eapply wp_mono.
    { apply (wp_for_each_prefix b
               (λ (done' : list nat) (sup : list (list R)) s',
                  self s' = e ∧ length sup = length done' ∧
                  Forall (λ variation,
                            Forall2 jitter_ok variation
                              (scaled <$> chunk_of hash_bytes D (length done))) sup)).
      { repeat split; try done. }
      intros done' x rest' sup s2 _ (Hs2 & Hlen2 & Hsup). apply wp_bind.
      eapply wp_mono; [apply wp_variation_of_jitter|].
      intros variation s3 [Hs3 Hvar]. apply wp_ret. split; [congruence|].
      rewrite !length_app. simpl. split; [lia|].
      apply Forall_app. split; [done|]. apply Forall_cons_2; [|done]. exact Hvar. }
    cbv beta. intros sup s2 (Hs2 & Hlen2 & Hsup). apply wp_ret. split; [done|].
    rewrite !length_app. simpl. split; [lia|].
    intros i dimension Hlook.
    destruct (decide (i < length qs)%nat) as [Hlt|Hge].
    - rewrite lookup_app_l in Hlook by done. by apply Hqs.
    - rewrite lookup_app_r in Hlook by lia.
      apply list_lookup_singleton_Some in Hlook as [Hi0 <-].
      assert (i = length done) as -> by lia.
      split; [by rewrite Hlen2, length_seq|done]. }
  cbv beta. intros qs s1 (Hs1 & Hlen & Hqs). rewrite length_seq in Hlen.
  apply wp_bind, wp_set_entanglement_pairs, wp_bind, wp_attr; simpl.
  rewrite Hs1. fold D. apply wp_bind.
  eapply wp_mono.
  { apply (wp_for_each_prefix b
             (λ (done : list nat) (_ : unit) s',
                dimensions (self s') = D ∧
                length (entanglement_pairs (self s')) = length done ∧
                Forall (drawn_pair D) (entanglement_pairs (self s')))).
    { simpl. split; [done|]. split; [done|]. apply Forall_nil_2. }
    intros done x rest [] s2 _ (HD2 & Hlen2 & Hdrawn).
    apply wp_bind, wp_attr. rewrite HD2.
    apply wp_bind, wp_randrange; [done|].
    apply wp_bind, wp_randrange; [done|]. simpl. apply wp_bind.
    eapply wp_mono.
    { apply wp_redraw_drawn; [done|by eexists|].
      intros Hb _. apply Hfair. by rewrite Hb. }
    simpl. intros d s3 (Hs3 & Hne & k & Hk). apply wp_append_pair. simpl.
    rewrite Hs3. simpl. split; [done|]. rewrite !length_app. simpl. split; [lia|].
    apply Forall_app. split; [done|]. apply Forall_cons_2; [|apply Forall_nil_2].
    split; [done|]. simpl. eauto. }
  cbv beta. intros [] s2 (_ & Hlen2 & Hdrawn). apply wp_ret.
  rewrite length_seq in Hlen2. done.
Qed.

(** X1: the state that [_hash_to_quantum_state] returns has [D]
    dimensions of [superposition_count] variants each; every variant of the
    dimension [i] is as long as the [i]-th chunk of the digest, and the [D]
    chunks, in order, make up the digest. *)
Theorem construction_shape hash_bytes s quantum_state s' :
  _hash_to_quantum_state hash_bytes s = (Ok quantum_state, s') →
  length quantum_state = dimensions (self s) ∧
  (∀ i dimension, quantum_state !! i = Some dimension →
     length dimension = superposition_count (self s) ∧
     Forall (λ variation,
               length variation = length (chunk_of hash_bytes (dimensions (self s)) i))
       dimension) ∧
  concat (chunk_of hash_bytes (dimensions (self s)) <$> seq 0 (dimensions (self s))) =
    hash_bytes.
Proof.
  intros Hrun.
  destruct (decide (dimensions (self s) = 0%nat)) as [HD|HD].
  { by rewrite construction_raises_without_dimensions in Hrun. }
  pose proof (wp__hash_to_quantum_state_values false hash_bytes s HD) as Hwp.
  eapply wp_ok in Hwp; [|done|exact Hrun].
  destruct Hwp as (Hlen & Hdims & _). split; [done|]. split; [|by apply chunks_cover].
  intros i dimension Hlook. destruct (Hdims _ _ Hlook) as [Hcount Hvars].
  split; [done|]. eapply Forall_impl; [exact Hvars|].
  intros variation Hvar. simpl. apply Forall2_length in Hvar.
  by rewrite length_fmap in Hvar.
Qed.

(** X2: for draws of [random.random()] in [[0, 1)], every value of every
    variant that [_hash_to_quantum_state] returns lies within [0.1] of the
    scaled digest byte it was drawn around. *)
Theorem construction_jitter_bound hash_bytes s quantum_state s' i k j v :
  unit_draws →
  _hash_to_quantum_state hash_bytes s = (Ok quantum_state, s') →
  cell quantum_state i k j = Some v →
  ∃ b, chunk_of hash_bytes (dimensions (self s)) i !! j = Some b ∧
       Rabs (v - scaled b) <= 0.1.
Proof.
  intros Hdraws Hrun Hcell.
  destruct (decide (dimensions (self s) = 0%nat)) as [HD|HD].
  { by rewrite construction_raises_without_dimensions in Hrun. }
  pose proof (wp__hash_to_quantum_state_values false hash_bytes s HD) as Hwp.
  eapply wp_ok in Hwp; [|done|exact Hrun].
  destruct Hwp as (_ & Hdims & _).
  apply cell_Some in Hcell as (dimension & variation & Hdim & Hvar & Hv).
  destruct (Hdims _ _ Hdim) as [_ Hvars].
  rewrite Forall_lookup in Hvars. specialize (Hvars _ _ Hvar). simpl in Hvars.
  destruct (Forall2_lookup_l _ _ _ _ _ Hvars Hv) as (x & Hx & _ & Hjit).
  rewrite list_lookup_fmap in Hx.
  destruct (chunk_of _ _ _ !! j) as [b0|]; simpl in Hx; [|done].
  injection Hx as <-. exists b0. split; [done|].
  apply Hjit; [done|apply scaled_in01].
Qed.

(** X3: when [random.randrange(D)] keeps returning one index, the
    rejection loop of [_hash_to_quantum_state] never stops: for an engine of
    two or more dimensions the construction returns with no amount of fuel. *)
Theorem constant_draws_diverge hash_bytes s :
  (2 ≤ dimensions (self s))%nat →
  (∀ p p', (int_tape p mod dimensions (self s))%nat =
           (int_tape p' mod dimensions (self s))%nat) →
  diverges (_hash_to_quantum_state hash_bytes) s.
Proof.
  intros HD Hconst. unfold diverges.
  assert (dimensions (self s) ≠ 0%nat) as HD0 by lia.
  pose proof (wp__hash_to_quantum_state_values false hash_bytes s HD0) as Hwp.
  unfold wp in Hwp.
  destruct (_hash_to_quantum_state hash_bytes s) as [[qs|e|] s']; simpl.
  - exfalso. destruct Hwp as (_ & _ & Hlen & Hdrawn); [done|].
    assert (1 ≤ dimensions (self s) / 2)%nat as Hhalf
      by (apply Nat.div_le_lower_bound; lia).
    rewrite <- Hlen in Hhalf.
    destruct (entanglement_pairs (self s')) as [|pair pairs]; [simpl in Hhalf; lia|].
    apply Forall_cons_1 in Hdrawn as [[Hne (p1 & p2 & H1 & H2)] _].
    apply Hne. rewrite H1, H2. apply Hconst.
  - by exfalso; apply Hwp.
  - done.
Qed.

(** ** Evolution: shape and contraction *)

Lemma shape_gate (st : QuantumState) :
  shape ((λ dimension : list (list R), gate <$> dimension) <$> st) = shape st.
Proof.
  unfold shape. rewrite <- list_fmap_compose. apply list_fmap_ext.
  intros i a _. simpl. rewrite <- list_fmap_compose. apply list_fmap_ext.
  intros k ai _. simpl. apply gate_length.
Qed.

Lemma entangle_pair_self dim1 dim2 st s st' s' :
  entangle_pair (dim1, dim2) st s = (Ok st', s') → self s' = self s.
Proof.
  intros Hrun. destruct (entangle_pair_in_range _ _ _ _ _ _ Hrun) as [Hd1 Hd2].
  assert (wp false (entangle_pair (dim1, dim2) st) s
            (λ st' s', self s' = self s ∧ shape st' = shape st ∧ True)) as Hwp
    by (by apply (wp_entangle_pair false (λ _, True))).
  eapply wp_ok in Hwp; [|exact Hrun]. by destruct Hwp.
Qed.

(** X4: a round of evolution that returns leaves the shape of the state as
    it was: the same number of dimensions, of variants in each dimension and
    of values in each variant; it leaves the engine as it was. *)
Theorem evolution_keeps_shape st s st' s' :
  _evolve_quantum_state st s = (Ok st', s') →
  shape st' = shape st ∧ self s' = self s.
Proof.
  unfold _evolve_quantum_state, entangle. intros Hrun.
  apply bind_ok in Hrun as (pairs & s0 & [= <- <-] & Hrun). split.
  - rewrite <- (shape_gate st).
    apply (for_each_entangle_pair_inv (λ st1, shape st1 = shape _) _ _ _ _ _ Hrun);
      [|done].
    intros pair st1 i j x y _ Hsh _ _. by rewrite shape_couple_at.
  - apply (for_each_ok (λ _ s1, self s1 = self s) _ _ _ _ _ _ Hrun); [done|].
    intros [dim1 dim2] st1 s1 st2 s2 _ Hs1 Hpair.
    by rewrite (entangle_pair_self _ _ _ _ _ _ Hpair).
Qed.

(** X5: the replacement that the entanglement makes at a position of two
    different dimensions orders the two values (the first dimension gets the
    larger), halves their distance and keeps both between the old values. *)
Theorem entangle_value_contracts dim1 dim2 i j st s st' s' :
  dim1 ≠ dim2 →
  entangle_value dim1 dim2 i j st s = (Ok st', s') →
  ∃ x y x' y',
    cell st dim1 i j = Some x ∧ cell st dim2 i j = Some y ∧
    cell st' dim1 i j = Some x' ∧ cell st' dim2 i j = Some y' ∧
    y' <= x' ∧ x' - y' = Rabs (x - y) / 2 ∧
    Rmin x y <= y' ∧ x' <= Rmax x y.
Proof.
  intros Hne Hrun.
  destruct (cell st dim1 i j) as [x|] eqn:Hx.
  2:{ unfold entangle_value, mbind, M_bind in Hrun.
      rewrite getitem3_run, Hx in Hrun. discriminate. }
  destruct (cell st dim2 i j) as [y|] eqn:Hy.
  2:{ unfold entangle_value, mbind, M_bind in Hrun.
      rewrite getitem3_run, Hx in Hrun. simpl in Hrun.
      rewrite getitem3_run, Hy in Hrun. discriminate. }
  rewrite (entangle_value_run _ _ _ _ _ x y) in Hrun by done.
  injection Hrun as <- _.
  exists x, y, (coupled x y).1, (coupled x y).2.
  split; [done|]. split; [done|].
  split; [by apply cell_couple_at_1|]. split; [by apply cell_couple_at_2|].
  unfold coupled, Rmin, Rmax, Rabs. simpl.
  destruct Rcase_abs; destruct Rle_dec; lra.
Qed.

Lemma zero_state_cell st :
  zero_state st ↔ ∀ d i j x, cell st d i j = Some x → x = 0.
Proof.
  unfold zero_state. split.
  - intros H d i j x (a & ai & Ha & Hai & Hx)%cell_Some.
    rewrite Forall_lookup in H. specialize (H _ _ Ha).
    rewrite Forall_lookup in H. specialize (H _ _ Hai).
    rewrite Forall_lookup in H. by apply (H _ _ Hx).
  - intros H. apply Forall_lookup. intros d a Ha.
    apply Forall_lookup. intros i ai Hai.
    apply Forall_lookup. intros j x Hx.
    apply (H d i j x). apply cell_Some. eauto.
Qed.

Lemma zero_state_couple_at st dim1 dim2 i j x y :
  zero_state st → cell st dim1 i j = Some x → cell st dim2 i j = Some y →
  zero_state (couple_at st dim1 dim2 i j x y).
Proof.
  intros Hzero Hx Hy. rewrite zero_state_cell in Hzero.
  rewrite (Hzero _ _ _ _ Hx), (Hzero _ _ _ _ Hy).
  assert ((coupled 0 0).1 = 0 ∧ (coupled 0 0).2 = 0) as [H1 H2].
  { unfold coupled. simpl. rewrite Rminus_diag, Rabs_R0. lra. }
  apply zero_state_cell. intros d' i' j' v. unfold couple_at.
  rewrite cell_update3. case_decide.
  { intros Hv. apply fmap_Some in Hv as (? & _ & ->). done. }
  rewrite cell_update3. case_decide.
  { intros Hv. apply fmap_Some in Hv as (? & _ & ->). done. }
  apply Hzero.
Qed.

Lemma zeros_replicate (l : list R) : Forall (λ v, v = 0) l → l = replicate (length l) 0.
Proof. induction 1 as [|v l -> _ IH]; simpl; [done|]. by rewrite <- IH. Qed.

Lemma gate_zeros (l : list R) : Forall (λ v, v = 0) l → gate l = l.
Proof.
  intros Hl. unfold gate, normalize. rewrite (sum_zeros l Hl).
  destruct (Rlt_dec 0 0) as [Hlt|_]; [lra|].
  rewrite (zeros_replicate l Hl), fmap_replicate. f_equal.
  unfold transform. rewrite Rmult_0_l, sin_0. simpl. rewrite Rmult_0_l.
  apply clamp01_id. unfold in01. lra.
Qed.

Lemma zero_state_eq st st' :
  shape st' = shape st → zero_state st → zero_state st' → st' = st.
Proof.
  unfold shape, zero_state. revert st'.
  induction st as [|a st IH]; intros [|a' st'] Hsh Hst Hst'; try done.
  simpl in Hsh. injection Hsh as Ha Hsh.
  apply Forall_cons_1 in Hst as [Hza Hst]. apply Forall_cons_1 in Hst' as [Hza' Hst'].
  f_equal; [|by apply IH]. clear IH Hsh Hst Hst'. revert a' Ha Hza'.
  induction a as [|ai a IH]; intros [|ai' a'] Ha Hza'; try done.
  simpl in Ha. injection Ha as Hai Ha.
  apply Forall_cons_1 in Hza as [Hzai Hza]. apply Forall_cons_1 in Hza' as [Hzai' Hza'].
  f_equal; [|by apply IH].
  rewrite (zeros_replicate ai Hzai), (zeros_replicate ai' Hzai'). by rewrite Hai.
Qed.

(** X6: a state whose values are all zero is a fixed point of the
    evolution: a round that returns gives back the same state, whatever
    the pairs on the engine and the draws of the generator. *)
Theorem zero_state_fixed st s st' s' :
  zero_state st →
  _evolve_quantum_state st s = (Ok st', s') →
  st' = st.
Proof.
  unfold _evolve_quantum_state, entangle. intros Hzero Hrun.
  apply bind_ok in Hrun as (pairs & s0 & [= <- <-] & Hrun).
  assert ((λ dimension : list (list R), gate <$> dimension) <$> st = st) as Hgate.
  { rewrite <- (list_fmap_id st) at 2. apply Forall_fmap_ext, Forall_forall.
    intros a Ha. simpl. rewrite <- (list_fmap_id a) at 2.
    apply Forall_fmap_ext, Forall_forall. intros ai Hai. simpl. apply gate_zeros.
    unfold zero_state in Hzero. rewrite Forall_forall in Hzero.
    specialize (Hzero _ Ha). rewrite Forall_forall in Hzero. by apply Hzero. }
  rewrite Hgate in Hrun.
  destruct (for_each_entangle_pair_inv (λ st1, shape st1 = shape st ∧ zero_state st1)
              _ _ _ _ _ Hrun) as [Hsh Hzero']; [|done|by apply zero_state_eq].
  intros pair st1 i j x y _ [Hsh1 Hz1] Hx Hy.
  split; [by rewrite shape_couple_at|by apply zero_state_couple_at].
Qed.

(** ** Analysis: the collapsed state *)

Lemma get2_update2 n m a i j v i' j' :
  has_shape n m a → (i < n)%nat → (j < m)%nat →
  get2 (update2 a i j v) i' j' = if decide (i = i' ∧ j = j') then v else get2 a i' j'.
Proof.
  intros Hsh Hi Hj. unfold get2. rewrite entry_update2.
  case_decide; [|done]. by destruct (has_shape_entry n m a i j Hsh Hi Hj) as [w ->].
Qed.

Lemma get2_zeros n m i j : get2 (zeros n m) i j = 0.
Proof.
  unfold get2, entry, zeros.
  destruct (replicate n (replicate m 0) !! i) as [row|] eqn:Hrow; simpl; [|done].
  apply lookup_replicate in Hrow as [-> _].
  destruct (replicate m 0 !! j) as [v|] eqn:Hv; simpl; [|done].
  by apply lookup_replicate in Hv as [-> _].
Qed.

Lemma enumerate_split {A} (l : list A) done j x rest :
  enumerate l = done ++ (j, x) :: rest → j = length done ∧ l !! j = Some x.
Proof.
  intros Henum.
  pose proof (list_lookup_middle done rest (j, x) (length done) eq_refl) as Hmid.
  rewrite <- Henum in Hmid. unfold enumerate in Hmid.
  apply lookup_zip_with_Some in Hmid as (j' & x' & [= <- <-] & Hj & Hx).
  apply lookup_seq in Hj as [-> _]. done.
Qed.

(** The innermost loop of [collapse] adds the values of one variant to the
    row [i]. *)
Lemma wp_collapse_variant b D i (superposition : list R) a s :
  has_shape D D a → (i < D)%nat →
  wp b (for_each (enumerate (take D superposition))
          (λ '(j, value) collapsed_state,
             c ← getitem2 collapsed_state i j;
             setitem2 collapsed_state i j (c + value)) a) s
    (λ a' s', s' = s ∧ has_shape D D a' ∧
       ∀ i' j', get2 a' i' j' =
                get2 a i' j' +
                (if decide (i' = i) then default 0 (take D superposition !! j') else 0)).
Proof.
  intros Hsh Hi.
  set (values := take D superposition).
  eapply wp_mono.
  { apply (wp_for_each_prefix b
      (λ (done : list (nat * R)) (a1 : Matrix) s1,
         s1 = s ∧ has_shape D D a1 ∧
         ∀ i' j', get2 a1 i' j' =
                  get2 a i' j' +
                  (if decide (i' = i ∧ j' < length done)%nat
                   then default 0 (values !! j') else 0))).
    { split; [done|]. split; [done|]. intros i' j'.
      rewrite decide_False by (simpl; lia). lra. }
    intros done [j value] rest a1 s1 Henum (-> & Hsh1 & Hget).
    apply enumerate_split in Henum as [-> Hvalue].
    assert (length done < D)%nat as Hj.
    { apply lookup_lt_Some in Hvalue. unfold values in Hvalue.
      rewrite length_take in Hvalue. lia. }
    unfold wp. rewrite collapse_cell_run.
    destruct (has_shape_entry D D a1 i (length done) Hsh1 Hi Hj) as [c Hc]. rewrite Hc.
    split; [done|]. split; [by apply has_shape_update2|].
    intros i' j'. rewrite (get2_update2 D D) by done.
    rewrite length_app. simpl.
    destruct (decide (i = i' ∧ length done = j')) as [[<- <-]|Hother].
    - rewrite decide_True by lia. rewrite Hvalue. simpl.
      specialize (Hget i (length done)). unfold get2 in Hget at 1. rewrite Hc in Hget.
      simpl in Hget. rewrite decide_False in Hget by lia. lra.
    - rewrite Hget. f_equal.
      destruct (decide (i' = i ∧ j' < length done)%nat) as [[-> Hlt]|Hn].
      + by rewrite decide_True by lia.
      + rewrite decide_False; [done|]. intros [-> Hlt]. apply Hn. split; [done|].
        destruct (decide (j' = length done)) as [->|]; [|lia]. by destruct Hother. }
  cbv beta. intros a' s' (-> & Hsh' & Hget). split; [done|]. split; [done|].
  intros i' j'. rewrite Hget. f_equal.
  destruct (decide (i' = i)) as [->|Hne].
  - destruct (decide (j' < length (enumerate values))%nat) as [Hlt|Hge].
    + by rewrite decide_True by done.
    + rewrite decide_False by (intros [_ ?]; done).
      unfold enumerate in Hge. rewrite length_zip_with, length_seq in Hge.
      fold values. rewrite lookup_ge_None_2 by lia. done.
  - by rewrite decide_False by (intros [? _]; done).
Qed.

(** The loop over the variants of the dimension [i] adds their sum. *)
Lemma wp_collapse_dimension b i (dimension : list (list R)) a s :
  has_shape (dimensions (self s)) (dimensions (self s)) a →
  (i < dimensions (self s))%nat →
  wp b (for_each dimension (λ superposition collapsed_state,
          D ← attr dimensions;
          for_each (enumerate (take D superposition))
            (λ '(j, value) collapsed_state,
               c ← getitem2 collapsed_state i j;
               setitem2 collapsed_state i j (c + value)) collapsed_state) a) s
    (λ a' s', s' = s ∧ has_shape (dimensions (self s)) (dimensions (self s)) a' ∧
       ∀ i' j', get2 a' i' j' =
                get2 a i' j' +
                (if decide (i' = i)
                 then sum ((λ superposition : list R,
                              default 0 (take (dimensions (self s)) superposition !! j'))
                             <$> dimension)
                 else 0)).
Proof.
  intros Hsh Hi. set (D := dimensions (self s)) in *.
  apply (wp_for_each_prefix b
    (λ (done : list (list R)) (a1 : Matrix) s1,
       s1 = s ∧ has_shape D D a1 ∧
       ∀ i' j', get2 a1 i' j' =
                get2 a i' j' +
                (if decide (i' = i)
                 then sum ((λ superposition : list R,
                              default 0 (take D superposition !! j')) <$> done)
                 else 0))).
  { split; [done|]. split; [done|]. intros i' j'.
    rewrite fmap_nil, sum_nil. destruct (decide (i' = i)); lra. }
  intros done superposition rest a1 s1 _ (-> & Hsh1 & Hget).
  apply wp_bind, wp_attr. fold D.
  eapply wp_mono; [by apply wp_collapse_variant|].
  cbv beta. intros a2 s2 (-> & Hsh2 & Hget2). split; [done|]. split; [done|].
  intros i' j'. rewrite Hget2, Hget.
  rewrite fmap_app, sum_app, fmap_cons, fmap_nil, sum_cons, sum_nil.
  destruct (decide (i' = i)); lra.
Qed.

(** X7: on a state of at most [D] dimensions [collapse] returns, and the
    entry [(i, j)] of its matrix is the sum over the variants of the
    dimension [i] of their value at [j], zero for a dimension or a value
    that the state does not have. *)
Theorem collapse_column_sums quantum_state s :
  (length quantum_state ≤ dimensions (self s))%nat →
  ∃ collapsed_state,
    collapse quantum_state s = (Ok collapsed_state, s) ∧
    ∀ i j, (i < dimensions (self s))%nat → (j < dimensions (self s))%nat →
      entry collapsed_state i j =
      Some (column_sum quantum_state (dimensions (self s)) i j).
Proof.
  intros Hlen. set (D := dimensions (self s)) in *.
  enough (wp true (collapse quantum_state) s
            (λ a s', s' = s ∧ has_shape D D a ∧
               ∀ i j, get2 a i j = column_sum quantum_state D i j)) as Hwp.
  { apply wp_strict_ok in Hwp as (a & s' & Hrun & -> & Hsh & Hget).
    exists a. split; [done|]. intros i j Hi Hj.
    destruct (has_shape_entry D D a i j Hsh Hi Hj) as [v Hv].
    specialize (Hget i j). unfold get2 in Hget. rewrite Hv in Hget. simpl in Hget.
    by rewrite Hv, Hget. }
  unfold collapse. apply wp_bind, wp_attr. fold D.
  eapply wp_mono.
  { apply (wp_for_each_prefix true
      (λ (done : list (nat * list (list R))) (a : Matrix) s1,
         s1 = s ∧ has_shape D D a ∧
         ∀ i j, get2 a i j =
                if decide (i < length done)%nat then column_sum quantum_state D i j
                else 0)).
    { split; [done|]. split; [apply has_shape_zeros|]. intros i j.
      rewrite get2_zeros. by rewrite decide_False by (simpl; lia). }
    intros done [i dimension] rest a1 s1 Henum (-> & Hsh1 & Hget).
    apply enumerate_split in Henum as [-> Hdim].
    assert (length done < D)%nat as Hi by (apply lookup_lt_Some in Hdim; lia).
    eapply wp_mono; [by apply wp_collapse_dimension|].
    cbv beta. intros a2 s2 (-> & Hsh2 & Hget2). split; [done|]. split; [done|].
    intros i j. rewrite Hget2, Hget. rewrite length_app. simpl. fold D.
    destruct (decide (i = length done)) as [->|Hne].
    - rewrite decide_False by lia. rewrite decide_True by lia.
      unfold column_sum. rewrite Hdim. simpl. lra.
    - destruct (decide (i < length done)%nat).
      + rewrite decide_True by lia. lra.
      + rewrite decide_False by lia. lra. }
  cbv beta. intros a s' (-> & Hsh & Hget). split; [done|]. split; [done|].
  intros i j. rewrite Hget.
  unfold enumerate. rewrite length_zip_with, length_seq.
  destruct (decide (i < _)%nat) as [|Hge]; [done|].
  unfold column_sum. rewrite lookup_ge_None_2 by lia. simpl. by rewrite sum_nil.
Qed.

(** ** The results of [generate_signature] *)

Lemma signature_result_well_formed_aux fs file_path evolution s r s' :
  generate_signature fs file_path evolution s = (Ok (Some r), s') →
  Forall (Forall in01) (amplitudes (res_signature_data r)) ∧
  has_shape (dimensions (self s)) (dimensions (self s))
    (amplitudes (res_signature_data r)) ∧
  has_shape (dimensions (self s)) (dimensions (self s)) (phases (res_signature_data r)) ∧
  res_confidence r = confidence_level (self s) ∧
  valid_buffer (resolution (self s)) (res_signature_image r).
Proof.
  intros Hrun.
  destruct (_calculate_complex_hash_cases fs file_path) as [[c Hfs]|Hraise].
  2:{ by rewrite generate_signature_unreadable in Hrun. }
  destruct (decide (dimensions (self s) = 0%nat)) as [HD|HD].
  { rewrite (generate_signature_no_dimensions _ _ _ _ _
               (_calculate_complex_hash_readable _ _ _ Hfs) HD) in Hrun. done. }
  pose proof (wp_generate_signature false fs file_path evolution s c Hfs HD) as Hwp.
  eapply wp_ok in Hwp; [|done|exact Hrun].
  by destruct Hwp as (r' & [= <-] & _ & _ & _ & ? & ? & ? & ? & ? & _).
Qed.

(** X8: in every result of [generate_signature] the amplitude and phase
    matrices have [D] rows of [D] entries, every amplitude lies in
    [[0, 1]], the confidence is the engine's [confidence_level], and the
    image is a valid buffer of the engine's resolution. *)
Theorem signature_result_well_formed fs file_path evolution s r s' :
  generate_signature fs file_path evolution s = (Ok (Some r), s') →
  has_shape (dimensions (self s)) (dimensions (self s))
    (amplitudes (res_signature_data r)) ∧
  Forall (Forall in01) (amplitudes (res_signature_data r)) ∧
  has_shape (dimensions (self s)) (dimensions (self s)) (phases (res_signature_data r)) ∧
  res_confidence r = confidence_level (self s) ∧
  valid_buffer (resolution (self s)) (res_signature_image r).
Proof.
  intros Hrun.
  by destruct (signature_result_well_formed_aux _ _ _ _ _ _ Hrun) as (? & ? & ? & ? & ?).
Qed.

Lemma spec_uniqueness_floor D signature_data :
  D ≠ 0%nat → Nat.Even D →
  Forall (Forall in01) (amplitudes signature_data) →
  length (entanglement signature_data) = (D / 2)%nat →
  0.3 <= spec_uniqueness D signature_data.
Proof.
  intros HD [k ->] H01 Hlen. unfold spec_uniqueness.
  assert (0 < k)%nat as Hk by lia.
  rewrite Hlen, (Nat.mul_comm 2 k), Nat.div_mul by lia.
  assert (INR k / (INR (k * 2) / 2) = 1) as ->.
  { rewrite mult_INR. simpl. assert (0 < INR k) by (by apply lt_0_INR). field. lra. }
  rewrite (clamp01_id 1) by (unfold in01; lra).
  pose proof (spec_entropy_nonneg _ (proj2 (Forall_concat _ _) H01)) as Hent.
  assert (0 <= (if decide (k * 2 * (k * 2) ≤ 1)%nat then 0
                else spec_entropy (concat (amplitudes signature_data)) /
                     (ln (INR (k * 2 * (k * 2))) / ln 2))) as Hnorm.
  { destruct (decide _) as [|Hbig]; [lra|].
    assert (1 < INR (k * 2 * (k * 2))) as H1 by (apply lt_1_INR; lia).
    pose proof (ln_increasing 1 _ Rlt_0_1 H1) as Hln. rewrite ln_1 in Hln.
    pose proof ln_2_pos as Hln2.
    unfold Rdiv. apply Rmult_le_pos; [done|]. left. apply Rinv_0_lt_compat.
    apply Rmult_lt_0_compat; [done|]. by apply Rinv_0_lt_compat. }
  unfold clamp01, Rmin, Rmax. repeat destruct Rle_dec; lra.
Qed.

(** X9: for an engine with an even number of dimensions, as the constructed
    one, the uniqueness score of every result of [generate_signature] is at
    least [0.3]: the coupling term is always at its maximum. *)
Theorem uniqueness_score_floor fs file_path evolution s r s' :
  Nat.Even (dimensions (self s)) →
  generate_signature fs file_path evolution s = (Ok (Some r), s') →
  0.3 <= res_uniqueness_score r.
Proof.
  intros Heven Hrun.
  destruct (generate_signature_result _ _ _ _ _ _ Hrun) as (HD & _ & Hlen & -> & _).
  apply spec_uniqueness_floor; [done..| |done].
  by destruct (signature_result_well_formed_aux _ _ _ _ _ _ Hrun).
Qed.

(** X10: on signature data as [_analyze_quantum_state] produces them,
    [_visualize_quantum_signature] raises nothing and returns a buffer of
    [resolution] by [resolution] pixels, and changes neither the engine
    nor the generator.  The data are two matrices of [D] rows of [D]
    entries, amplitudes in [[0, 1]] and phases in [[0, 2π]], and pairs of
    indices below [D]; within these ranges every colour channel lies in
    [[0, 255]] and every coordinate within the image, so that no
    conversion [int(...)] of the renderer is applied to a value too large
    to convert. *)
Theorem render_shape_invariant signature_data s :
  dimensions (self s) ≠ 0%nat →
  has_shape (dimensions (self s)) (dimensions (self s)) (amplitudes signature_data) →
  has_shape (dimensions (self s)) (dimensions (self s)) (phases signature_data) →
  Forall (Forall in01) (amplitudes signature_data) →
  Forall (Forall (λ phase, 0 <= phase <= 2 * PI)) (phases signature_data) →
  Forall (λ pair, (pair.1 < dimensions (self s))%nat ∧
                  (pair.2 < dimensions (self s))%nat) (entanglement signature_data) →
  ∃ q, _visualize_quantum_signature signature_data s = (Ok q, s) ∧
       valid_buffer (resolution (self s)) q.
Proof.
  intros HD Hamp Hph _ _ _.
  pose proof (wp__visualize_quantum_signature true signature_data s HD Hamp Hph) as Hwp.
  apply wp_strict_ok in Hwp as (q & s' & Hrun & -> & Hq). eauto.
Qed.

(** X11: for a readable file, [generate_signature] returns [None] when
    the engine has no dimension and returns a result when it has one or
    more, so [None] is returned exactly when the engine has no dimension.
    The generator has to be fair only for an engine of two dimensions or
    more: with one dimension the rejection loop is never reached and the
    call returns a result whatever the generator. *)
Theorem none_only_without_dimensions fs file_path evolution s c :
  fs file_path = Some {| content := c; readable := true |} →
  ((2 ≤ dimensions (self s))%nat → fair fuel (dimensions (self s))) →
  (dimensions (self s) = 0%nat →
     generate_signature fs file_path evolution s = (Ok None, s)) ∧
  (dimensions (self s) ≠ 0%nat →
     ∃ r s', generate_signature fs file_path evolution s = (Ok (Some r), s')) ∧
  ((∃ s', generate_signature fs file_path evolution s = (Ok None, s')) ↔
   dimensions (self s) = 0%nat).
Proof.
  intros Hfs Hfair.
  assert (dimensions (self s) = 0%nat →
          generate_signature fs file_path evolution s = (Ok None, s)) as Hnone.
  { intros HD.
    by apply (generate_signature_no_dimensions _ _ _ _ _
                (_calculate_complex_hash_readable _ _ _ Hfs)). }
  assert (dimensions (self s) ≠ 0%nat →
          ∃ r s', generate_signature fs file_path evolution s = (Ok (Some r), s'))
    as Hsome.
  { intros HD. by apply (generate_signature_returns_from_two _ _ evolution _ _ Hfs HD). }
  split; [done|]. split; [done|]. split.
  - intros [s' Hrun]. destruct (decide (dimensions (self s) = 0%nat)) as [|HD]; [done|].
    destruct (Hsome HD) as (r & s1 & Hr). rewrite Hr in Hrun. discriminate.
  - intros HD. exists s. by apply Hnone.
Qed.

(** ** Rendering: every pixel is painted *)

Lemma py_int_lower x n : IZR n <= x → (0 ≤ n)%Z → (n ≤ py_int x)%Z.
Proof.
  intros Hx Hn. unfold py_int.
  assert (0 <= x) as H0 by (apply IZR_le in Hn; lra).
  destruct (Rle_dec 0 x) as [_|]; [|done].
  destruct (base_Int_part x) as [_ Hgt].
  assert (IZR n - 1 < IZR (Int_part x)) as Hlt by lra.
  rewrite <- minus_IZR in Hlt. apply lt_IZR in Hlt. lia.
Qed.

Lemma py_int_below x n : 0 <= x → x < IZR n → (py_int x < n)%Z.
Proof.
  intros H0 Hx. unfold py_int. destruct (Rle_dec 0 x) as [_|]; [|done].
  destruct (base_Int_part x) as [Hle _]. apply lt_IZR. lra.
Qed.

Lemma cell_index_below (y res D : nat) :
  (y < res)%nat → D ≠ 0%nat →
  (0 ≤ py_int (INR y / (INR res / INR D)) < Z.of_nat D)%Z.
Proof.
  intros Hy HD.
  assert (0 < INR res) as Hres by (apply lt_0_INR; lia).
  assert (0 < INR D) as HDpos by (apply lt_0_INR; lia).
  assert (INR y < INR res) as Hlt by (by apply lt_INR).
  pose proof (pos_INR y) as Hy0.
  assert (INR y / (INR res / INR D) = INR y * INR D / INR res) as -> by (field; lra).
  assert (0 <= INR y * INR D / INR res) as Hnn.
  { unfold Rdiv. apply Rmult_le_pos; [apply Rmult_le_pos; lra|].
    left. by apply Rinv_0_lt_compat. }
  split; [by apply py_int_nonneg|].
  apply py_int_below; [done|]. rewrite <- INR_IZR_INZ.
  apply (Rmult_lt_reg_r (INR res)); [done|].
  unfold Rdiv. rewrite Rmult_assoc, Rinv_l by lra.
  rewrite Rmult_1_r, (Rmult_comm (INR D)). apply Rmult_lt_compat_r; lra.
Qed.

Lemma wp_getitem2z_in b n m (P : R → Prop) a i j s (Q : R → state → Prop) :
  has_shape n m a → Forall (Forall P) a →
  (0 ≤ i < Z.of_nat n)%Z → (0 ≤ j < Z.of_nat m)%Z →
  (∀ v, P v → Q v s) → wp b (getitem2z a i j) s Q.
Proof.
  intros [Hlen Hrows] HP Hi Hj HQ. unfold getitem2z.
  rewrite !decide_False by lia.
  destruct (lookup_lt_is_Some_2 a (Z.to_nat i)) as [row Hrow]; [lia|].
  apply wp_bind, (wp_getitem _ _ _ row); [done|].
  rewrite decide_False by lia.
  rewrite Forall_lookup in Hrows. specialize (Hrows _ _ Hrow). simpl in Hrows.
  rewrite Forall_lookup in HP. specialize (HP _ _ Hrow).
  destruct (lookup_lt_is_Some_2 row (Z.to_nat j)) as [v Hv]; [lia|].
  apply (wp_getitem _ _ _ v); [done|]. apply HQ.
  rewrite Forall_lookup in HP. by eapply HP.
Qed.

Lemma putpixel_lookup res img x y fill k :
  valid_image res img → (x < res)%nat → (y < res)%nat →
  pixels (putpixel img (x, y) fill) !! k =
  if decide (k = y * res + x)%nat
  then Some (clip8 fill.1.1.1, clip8 fill.1.1.2, clip8 fill.1.2, clip8 fill.2)
  else pixels img !! k.
Proof.
  intros (Hw & Hh & Hlen & _) Hx Hy. unfold putpixel.
  destruct fill as [[[r g] b0] a]. rewrite Hw, Hh.
  rewrite decide_True by done. simpl.
  destruct (decide (k = y * res + x)%nat) as [->|Hne].
  - apply list_lookup_insert_eq. rewrite Hlen. nia.
  - by apply list_lookup_insert_ne.
Qed.

Lemma painted_putpixel img xy fill :
  (127 ≤ fill.2)%Z → Forall painted (pixels img) →
  Forall painted (pixels (putpixel img xy fill)).
Proof.
  intros Ha Hall. unfold putpixel. destruct xy as [x y], fill as [[[r g] b0] a].
  destruct (decide _); [|done]. simpl.
  apply Forall_insert; [done|]. unfold painted, clip8. simpl in *. lia.
Qed.

Lemma painted_putpixels img fill pts :
  (127 ≤ fill.2)%Z → Forall painted (pixels img) →
  Forall painted (pixels (foldl (λ img xy, putpixel img xy fill) img pts)).
Proof.
  intros Ha. revert img. induction pts as [|xy pts IH]; intros img Himg; [done|].
  simpl. by apply IH, painted_putpixel.
Qed.

(** The body of the background loop paints the pixel [(x, y)]. *)
Lemma wp_draw_cell_paints b signature_data y x img s res :
  dimensions (self s) ≠ 0%nat → resolution (self s) = res →
  (y < res)%nat → (x < res)%nat →
  has_shape (dimensions (self s)) (dimensions (self s)) (amplitudes signature_data) →
  Forall (Forall in01) (amplitudes signature_data) →
  has_shape (dimensions (self s)) (dimensions (self s)) (phases signature_data) →
  valid_image res img → painted_upto (y * res + x) img →
  wp b (draw_cell signature_data (INR res / INR (dimensions (self s)))
          (INR res / INR (dimensions (self s))) y x img) s
    (λ img' s', s' = s ∧ valid_image res img' ∧ painted_upto (y * res + x + 1) img').
Proof.
  intros HD Hres Hy Hx Hamp H01 Hph Himg Hpainted. unfold draw_cell.
  assert (0 < INR res / INR (dimensions (self s))) as Hcell.
  { unfold Rdiv. apply Rmult_lt_0_compat; [apply lt_0_INR; lia|].
    apply Rinv_0_lt_compat, lt_0_INR. lia. }
  apply wp_bind, wp_truediv; [lra|]. apply wp_bind, wp_truediv; [lra|].
  apply wp_bind, wp_attr.
  pose proof (cell_index_below y res _ Hy HD) as Hi.
  pose proof (cell_index_below x res _ Hx HD) as Hj.
  rewrite decide_True by lia.
  eapply wp_bind, (wp_getitem2z_in _ _ _ in01); [exact Hamp|exact H01|done..|].
  intros amplitude [Ha0 Ha1].
  eapply wp_bind, wp_getitem2z; [exact Hph|done..|].
  intros phase. simpl.
  destruct (hsv_sector _ _ _ _ _) as [[r g] b0].
  apply wp_ret. split; [done|]. split; [by apply valid_putpixel|].
  intros idx p Hidx. rewrite (putpixel_lookup res) by done. simpl.
  destruct (decide (idx = y * res + x)%nat) as [->|Hne].
  - intros [= <-]. unfold painted, clip8. simpl.
    assert (127 ≤ py_int (127 + 128 * amplitude))%Z; [|lia].
    apply py_int_lower; [lra|lia].
  - apply Hpainted. lia.
Qed.

(** The body of the connector loop keeps a painted image painted. *)
Lemma wp_draw_step_painted b x1 y1 x2 y2 i img s res :
  valid_image res img → Forall painted (pixels img) →
  wp b (draw_step x1 y1 x2 y2 100 i img) s
    (λ img' s', s' = s ∧ valid_image res img' ∧ Forall painted (pixels img')).
Proof.
  intros Himg Hpainted. unfold draw_step.
  apply wp_bind, wp_truediv.
  { assert (0 < INR 100) by (apply lt_0_INR; lia). lra. }
  simpl. destruct (hsv_sector _ _ _ _ _) as [[r g] b0].
  set (t := INR i / _).
  assert (0 <= IZR (py_int (3 + 2 * sin (t * PI * 2)))) as Hsize.
  { apply IZR_le, py_int_nonneg. pose proof (SIN_bound (t * PI * 2)). lra. }
  unfold draw_ellipse.
  destruct Rlt_dec as [Hlt|_]; [lra|]. destruct Rlt_dec as [Hlt|_]; [lra|].
  apply wp_ret. split; [done|]. split; [by apply valid_putpixels|].
  apply painted_putpixels; [simpl; lia|done].
Qed.

Lemma tobytes_alpha (pix : list (Z * Z * Z * Z)) k a :
  concat ((λ '(r, g, b, a), [r; g; b; a]) <$> pix) !! (4 * k + 3)%nat = Some a →
  ∃ p, pix !! k = Some p ∧ p.2 = a.
Proof.
  revert k. induction pix as [|[[[r g] b0] a0] pix IH]; intros k Hk; [done|].
  rewrite fmap_cons in Hk. cbn [concat] in Hk.
  destruct k as [|k].
  - simpl in Hk. injection Hk as <-. by eexists.
  - rewrite lookup_app_r in Hk by (simpl; lia).
    replace (4 * S k + 3 - length [r; g; b0; a0])%nat with (4 * k + 3)%nat in Hk
      by (simpl; lia).
    apply IH in Hk as (p & Hp & Ha). by eexists.
Qed.

(** X12: for amplitudes in [[0, 1]], every pixel of the image that
    [_visualize_quantum_signature] returns has been painted: the alpha byte
    of each pixel lies between [127] and [255]. *)
Theorem rendered_image_opaque signature_data s :
  dimensions (self s) ≠ 0%nat →
  has_shape (dimensions (self s)) (dimensions (self s)) (amplitudes signature_data) →
  Forall (Forall in01) (amplitudes signature_data) →
  has_shape (dimensions (self s)) (dimensions (self s)) (phases signature_data) →
  ∃ q, _visualize_quantum_signature signature_data s = (Ok q, s) ∧
       length (qdata q) = (4 * (resolution (self s) * resolution (self s)))%nat ∧
       ∀ k a, qdata q !! (4 * k + 3)%nat = Some a → (127 ≤ a ≤ 255)%Z.
Proof.
  intros HD Hamp H01 Hph.
  enough (wp true (_visualize_quantum_signature signature_data) s
            (λ q s', s' = s ∧ valid_buffer (resolution (self s)) q ∧
               ∀ k a, qdata q !! (4 * k + 3)%nat = Some a → (127 ≤ a ≤ 255)%Z)) as Hwp.
  { apply wp_strict_ok in Hwp as (q & s' & Hrun & -> & (_ & _ & Hlen & _) & Halpha).
    eauto. }
  unfold _visualize_quantum_signature.
  assert (0 < INR (dimensions (self s))) as HDpos by (apply lt_0_INR; lia).
  set (res := resolution (self s)). set (D := dimensions (self s)) in *.
  do 3 apply wp_bind, wp_attr. apply wp_bind, wp_truediv; [by apply Rgt_not_eq|].
  do 2 apply wp_bind, wp_attr. apply wp_bind, wp_truediv; [by apply Rgt_not_eq|].
  apply wp_bind, wp_attr. fold res D.
  apply wp_bind. eapply wp_mono.
  { apply (wp_for_each_prefix true
      (λ (done : list nat) (img : Image) s1,
         s1 = s ∧ valid_image res img ∧ painted_upto (length done * res) img)).
    { split; [done|]. split; [apply valid_image_new|]. intros idx p Hidx. simpl in Hidx. lia. }
    intros done y rest img1 s1 Hseq (-> & Himg1 & Hp1).
    apply seq_split in Hseq as [-> Hy].
    apply wp_bind, wp_attr. fold res.
    eapply wp_mono.
    { apply (wp_for_each_prefix true
        (λ (donex : list nat) (img : Image) s2,
           s2 = s ∧ valid_image res img ∧
           painted_upto (length done * res + length donex) img)).
      { split; [done|]. split; [done|]. simpl. by rewrite Nat.add_0_r. }
      intros donex x restx img2 s2 Hseqx (-> & Himg2 & Hp2).
      apply seq_split in Hseqx as [-> Hx].
      eapply wp_mono; [by apply (wp_draw_cell_paints true _ _ _ _ _ res)|].
      cbv beta. intros img3 s3 (-> & Himg3 & Hp3). split; [done|]. split; [done|].
      rewrite length_app. simpl. by rewrite Nat.add_assoc. }
    cbv beta. intros img2 s2 (-> & Himg2 & Hp2). split; [done|]. split; [done|].
    rewrite length_seq in Hp2. rewrite length_app. simpl.
    intros idx p Hidx. apply Hp2. lia. }
  cbv beta. intros img1 s1 (-> & Himg1 & Hp1). rewrite length_seq in Hp1.
  assert (Forall painted (pixels img1)) as Hall.
  { apply Forall_lookup. intros idx p Hp. apply (Hp1 idx); [|done].
    apply lookup_lt_Some in Hp. destruct Himg1 as (_ & _ & Hlen & _). lia. }
  apply wp_bind. eapply wp_mono.
  { apply (wp_for_each true
      (λ (img : Image) s2, s2 = s ∧ valid_image res img ∧ Forall painted (pixels img)));
      [done|].
    intros [dim1 dim2] img2 s2 _ (-> & Himg2 & Hall2).
    apply (wp_for_each true
      (λ (img : Image) s2, s2 = s ∧ valid_image res img ∧ Forall painted (pixels img)));
      [done|].
    intros i img3 s3 _ (-> & Himg3 & Hall3). by apply wp_draw_step_painted. }
  cbv beta. intros img2 s2 (-> & Himg2 & Hall2). apply wp_ret. split; [done|].
  split; [by apply valid_tobytes|]. simpl. unfold tobytes.
  intros k a Hk. apply tobytes_alpha in Hk as (p & Hp & <-).
  rewrite Forall_lookup in Hall2. by apply (Hall2 _ _ Hp).
Qed.

End Pipeline.

(** * Properties of the integration hub *)

Section HubProperties.

Import Hub.

(** ** Rules for runs *)

Lemma ends_mono {A} (m : M A) w (Q Q' : A → world → Prop) (E E' : exn → world → Prop) :
  ends m w Q E → (∀ a w', Q a w' → Q' a w') → (∀ e w', E e w' → E' e w') →
  ends m w Q' E'.
Proof. unfold ends. destruct (m w) as [[a|e] w']; auto. Qed.

Lemma ends_ret {A} (a : A) w Q E : Q a w → ends (mret a) w Q E.
Proof. done. Qed.

Lemma ends_raise {A} e w (Q : A → world → Prop) (E : exn → world → Prop) :
  E e w → ends (raise e) w Q E.
Proof. done. Qed.

Lemma ends_bind {A B} (m : M A) (k : A → M B) w Q E :
  ends m w (λ a w', ends (k a) w' Q E) E → ends (m ≫= k) w Q E.
Proof. unfold ends, mbind, M_bind. destruct (m w) as [[a|e] w']; auto. Qed.

Lemma ends_try_except {A} (body : M A) handler w Q E :
  ends body w Q (λ e w', ends (handler e) w' Q E) → ends (try_except body handler) w Q E.
Proof. unfold ends, try_except. destruct (body w) as [[a|e] w']; auto. Qed.

Lemma ends_for_each {A S} (I : S → world → Prop) E (l : list A) (body : A → S → M S) acc w :
  I acc w →
  (∀ x acc w, x ∈ l → I acc w → ends (body x acc) w I E) →
  ends (for_each l body acc) w I E.
Proof.
  revert acc w. induction l as [|x l IH]; intros acc w HI Hbody; [done|].
  simpl. apply ends_bind. eapply ends_mono.
  - apply Hbody; [by left|done].
  - intros acc' w' HI'. apply IH; [done|].
    intros y acc'' w'' Hy. apply Hbody. by right.
  - done.
Qed.

Lemma for_each_step {A S} (x : A) l (body : A → S → M S) acc w acc' w' :
  body x acc w = (Ok acc', w') →
  for_each (x :: l) body acc w = for_each l body acc' w'.
Proof. intros Hrun. simpl. unfold mbind, M_bind. by rewrite Hrun. Qed.

Lemma for_each_step_raise {A S} (x : A) l (body : A → S → M S) acc w e w' :
  body x acc w = (Raise e, w') →
  for_each (x :: l) body acc w = (Raise e, w').
Proof. intros Hrun. simpl. unfold mbind, M_bind. by rewrite Hrun. Qed.

Lemma ends_ok {A} (m : M A) w Q E a w' : ends m w Q E → m w = (Ok a, w') → Q a w'.
Proof. unfold ends. intros H Hrun. by rewrite Hrun in H. Qed.

Lemma ends_run {A} (m : M A) w : ends m w (λ a w', m w = (Ok a, w')) (λ e w', m w = (Raise e, w')).
Proof. unfold ends. by destruct (m w) as [[a|e] w']. Qed.

(** ** Dictionaries *)

Lemma dict_get_set {V} (d : list (string * V)) key v key' :
  dict_get (dict_set d key v) key' =
  if String.eqb key' key then Some v else dict_get d key'.
Proof.
  induction d as [|[k x] d IH]; simpl.
  - done.
  - destruct (String.eqb key k) eqn:Hk; simpl.
    + apply String.eqb_eq in Hk as ->.
      by destruct (String.eqb key' k).
    + destruct (String.eqb key' k) eqn:Hk'.
      * apply String.eqb_eq in Hk' as ->.
        rewrite String.eqb_sym, Hk. done.
      * done.
Qed.

Lemma dict_set_keys {V} (d : list (string * V)) key v :
  is_Some (dict_get d key) → fst <$> dict_set d key v = fst <$> d.
Proof.
  induction d as [|[k x] d IH]; simpl.
  - by intros [? ?].
  - destruct (String.eqb key k) eqn:Hk; [done|].
    intros H. rewrite !fmap_cons. f_equal. by apply IH.
Qed.

Lemma dict_get_elem {V} (d : list (string * V)) key v :
  dict_get d key = Some v → (key, v) ∈ d.
Proof.
  induction d as [|[k x] d IH]; simpl; [done|].
  destruct (String.eqb key k) eqn:Hk.
  - apply String.eqb_eq in Hk as ->. intros [= ->]. by left.
  - intros H. right. by apply IH.
Qed.

Lemma dict_set_other {V} (d : list (string * V)) key v key' x :
  key' ≠ key → (key', x) ∈ d → (key', x) ∈ dict_set d key v.
Proof.
  intros Hne. induction d as [|[k y] d IH]; simpl.
  - by intros ?%elem_of_nil.
  - intros [[= -> ->]|Hin]%elem_of_cons.
    + destruct (String.eqb key k) eqn:Hk.
      * apply String.eqb_eq in Hk. done.
      * by left.
    + destruct (String.eqb key k); right; [done|by apply IH].
Qed.

(** ** Recording a threat *)

Lemma trimmed_length history :
  (length history ≤ 1001)%nat → length (trimmed history) = (length history `min` 1000)%nat.
Proof.
  unfold trimmed. intros H. destruct decide; [|lia]. rewrite length_drop. lia.
Qed.

Lemma _record_threat_run threat_data w :
  json_ok threat_data = true →
  _record_threat threat_data w =
  (Ok tt,
   {| self := with_threat_history (self w)
                (trimmed (threat_history (self w) ++ [threat_data]));
      events := events w ++ [logged_warning threat_data];
      clock := clock w; clock_pos := clock_pos w |}).
Proof.
  intros Hjson. unfold _record_threat, json_dumps, mbind, M_bind, on_self, attr, emit.
  rewrite Hjson. simpl. unfold trimmed.
  destruct (decide (1000 < length (threat_history (self w) ++ [threat_data]))%nat); done.
Qed.

(** ** The threat analysis *)

Lemma analyze_signature_run file_path signature w :
  match read_score signature with
  | Some x =>
      analyze_signature file_path signature w =
      (Ok tt, if Rgt_dec x 0.9 then flagged file_path signature x w else w)
  | None => ∃ e, analyze_signature file_path signature w = (Raise e, w)
  end.
Proof.
  destruct signature as [| | | | |d|]; simpl; try (by eexists).
  unfold analyze_signature, py_get, py_gt, py_float, mbind, M_bind. simpl.
  destruct (dict_get d "uniqueness_score") as [v|] eqn:Hv; simpl.
  - destruct (as_num v) as [x|] eqn:Hx; simpl; [|by eexists].
    destruct (Rgt_dec x 0.9) as [Hgt|Hle]; simpl; [|done].
    rewrite _record_threat_run by (by destruct v).
    unfold flagged, quantum_threat. simpl. rewrite Hv. simpl.
    by rewrite <- app_assoc.
  - destruct (Rgt_dec 0 0.9) as [Hgt|Hle]; [lra|done].
Qed.

Lemma same_but_history_flagged file_path signature x w :
  same_but_history (self w) (self (flagged file_path signature x w)).
Proof. done. Qed.

Lemma flagged_length file_path signature x w :
  (length (threat_history (self w)) ≤ 1000)%nat →
  length (threat_history (self (flagged file_path signature x w))) =
  (S (length (threat_history (self w))) `min` 1000)%nat.
Proof.
  intros Hlen. simpl. rewrite trimmed_length; rewrite length_app; simpl; lia.
Qed.

(** The loop of the analysis on signatures with readable scores. *)
Lemma analyze_readable (signatures : pydict) w :
  Forall (λ item, is_Some (read_score item.2)) signatures →
  (length (threat_history (self w)) ≤ 1000)%nat →
  ∃ w',
    for_each signatures
      (λ '(file_path, signature) _, analyze_signature file_path signature) tt w =
      (Ok tt, w') ∧
    same_but_history (self w) (self w') ∧
    length (threat_history (self w')) =
      ((length (threat_history (self w)) + count_suspicious signatures) `min` 1000)%nat.
Proof.
  revert w. induction signatures as [|[file_path signature] signatures IH];
    intros w Hread Hlen.
  - exists w. split; [done|]. split; [done|]. unfold count_suspicious. simpl. lia.
  - apply Forall_cons_1 in Hread as [[x Hx] Hread]. simpl in Hx.
    pose proof (analyze_signature_run file_path signature w) as Hrun.
    rewrite Hx in Hrun. simpl. unfold mbind, M_bind. rewrite Hrun.
    assert (is_suspicious signature = if Rgt_dec x 0.9 then true else false) as Hsus
      by (unfold is_suspicious; by rewrite Hx).
    unfold count_suspicious.
    destruct (Rgt_dec x 0.9) as [Hgt|Hle].
    + destruct (IH (flagged file_path signature x w)) as (w' & Hrun' & Hsame & Hlen');
        [done|rewrite flagged_length by done; lia|].
      exists w'. split; [done|]. split.
      { unfold same_but_history in *. by rewrite Hsame. }
      rewrite Hlen', flagged_length by done.
      rewrite filter_cons_True by (simpl; by rewrite Hsus).
      simpl. unfold count_suspicious. lia.
    + destruct (IH w) as (w' & Hrun' & Hsame & Hlen'); [done..|].
      exists w'. split; [done|]. split; [done|].
      rewrite filter_cons_False by (simpl; rewrite Hsus; intros []). done.
Qed.

Lemma analysed_refl w : analysed w w.
Proof.
  split; [done|]. split; [done|]. exists []. split; [by rewrite app_nil_r|].
  apply Forall_nil_2.
Qed.

Lemma analysed_flagged w w' file_path signature x :
  analysed w w' → analysed w (flagged file_path signature x w').
Proof.
  intros (Hsame & Hlen & new & Hnew & Hquiet). split; [|split].
  - unfold same_but_history in *. by rewrite <- Hsame.
  - intros Hb. specialize (Hlen Hb). unfold bounded in *.
    rewrite flagged_length by done. lia.
  - eexists. split.
    + simpl. rewrite Hnew, <- app_assoc. reflexivity.
    + apply Forall_app. split; [done|].
      repeat (apply Forall_cons_2; [done|]). apply Forall_nil_2.
Qed.

(** The loop of the analysis, whatever the signatures. *)
Lemma analyze_ends (signatures : pydict) w :
  ends (for_each signatures
          (λ '(file_path, signature) _, analyze_signature file_path signature) tt) w
    (λ _ w', analysed w w') (λ _ w', analysed w w').
Proof.
  apply (ends_for_each (λ _ w', analysed w w')); [by apply analysed_refl|].
  intros [file_path signature] [] w1 _ H1.
  pose proof (analyze_signature_run file_path signature w1) as Hrun. unfold ends.
  destruct (read_score signature) as [x|].
  - rewrite Hrun. destruct (Rgt_dec x 0.9); [by apply analysed_flagged|done].
  - destruct Hrun as [e ->]. done.
Qed.

Lemma _analyze_quantum_threats_ends w :
  ends _analyze_quantum_threats w (λ _ w', analysed w w') (λ _ w', analysed w w').
Proof. apply (analyze_ends (quantum_signatures (self w)) w). Qed.

(** A signature whose score cannot be read stops the analysis. *)
Lemma analyze_unreadable (signatures : pydict) w :
  Exists (λ item, read_score item.2 = None) signatures →
  ∃ e w',
    for_each signatures
      (λ '(file_path, signature) _, analyze_signature file_path signature) tt w =
    (Raise e, w').
Proof.
  revert w. induction signatures as [|[file_path signature] signatures IH];
    intros w Hex; [by apply Exists_nil in Hex|].
  pose proof (analyze_signature_run file_path signature w) as Hrun.
  simpl. unfold mbind, M_bind.
  destruct (read_score signature) as [x|] eqn:Hx.
  - rewrite Hrun. apply IH. apply Exists_cons in Hex as [Hhead|Htail]; [|done].
    simpl in Hhead. congruence.
  - destruct Hrun as [e ->]. eauto.
Qed.

(** ** The scores read the world only *)

Lemma reads_ret {A} (a : A) : reads (mret a).
Proof. done. Qed.

Lemma reads_raise {A} e : reads (raise e : M A).
Proof. done. Qed.

Lemma reads_attr {A} (field : IntegrationHub → A) : reads (attr field).
Proof. done. Qed.

Lemma reads_bind {A B} (m : M A) (k : A → M B) :
  reads m → (∀ a, reads (k a)) → reads (m ≫= k).
Proof.
  intros Hm Hk w. unfold mbind, M_bind. specialize (Hm w).
  destruct (m w) as [[a|e] w']; simpl in *; subst; [apply Hk|done].
Qed.

Lemma reads_for_each {A S} (l : list A) (body : A → S → M S) acc :
  (∀ x acc, reads (body x acc)) → reads (for_each l body acc).
Proof.
  intros Hbody. revert acc. induction l as [|x l IH]; intros acc; [done|].
  simpl. apply reads_bind; [apply Hbody|]. intros acc'. apply IH.
Qed.

Lemma reads_py_float v : reads (py_float v).
Proof. unfold py_float. by destruct (as_num v). Qed.

Lemma reads_py_gt v c : reads (py_gt v c).
Proof. apply reads_bind; [apply reads_py_float|]. intros x. apply reads_ret. Qed.

Lemma reads_py_get v key fallback : reads (py_get v key fallback).
Proof. by destruct v. Qed.

Lemma reads_py_values v : reads (py_values v).
Proof. by destruct v. Qed.

Lemma reads_py_take n v : reads (py_take n v).
Proof. by destruct v. Qed.

Lemma reads_py_sum l : reads (py_sum l).
Proof.
  apply reads_for_each. intros v total.
  apply reads_bind; [apply reads_py_float|]. intros x. apply reads_ret.
Qed.

Lemma reads__calculate_neural_score : reads _calculate_neural_score.
Proof.
  apply reads_bind; [apply reads_attr|]. intros data.
  destruct (bool_decide _); [apply reads_ret|].
  apply reads_bind; [apply reads_py_values|]. intros processes.
  apply reads_bind.
  { apply reads_for_each. intros p count.
    apply reads_bind; [apply reads_py_get|]. intros score.
    apply reads_bind; [apply reads_py_gt|]. intros anomalous. apply reads_ret. }
  intros anomaly_count. apply reads_bind; [apply reads_py_float|].
  intros health. apply reads_ret.
Qed.

Lemma reads__calculate_quantum_score : reads _calculate_quantum_score.
Proof.
  apply reads_bind; [apply reads_attr|]. intros signatures.
  destruct (bool_decide _); [apply reads_ret|].
  destruct (collect_scores signatures) as [uniqueness_scores confidence_scores].
  destruct (_ || _); [apply reads_ret|].
  apply reads_bind; [apply reads_py_sum|]. intros total.
  apply reads_bind; [apply reads_py_sum|]. intros total'. apply reads_ret.
Qed.

Lemma reads__calculate_temporal_score : reads _calculate_temporal_score.
Proof.
  apply reads_bind; [apply reads_attr|]. intros predictions.
  destruct (bool_decide _); [apply reads_ret|]. cbv zeta.
  destruct (negb (truthy _)); [apply reads_ret|].
  apply reads_bind; [apply reads_py_take|]. intros days.
  destruct (bool_decide _); [apply reads_ret|].
  apply reads_bind; [apply reads_py_sum|]. intros total. apply reads_ret.
Qed.

Lemma reads_add_component item acc : reads (add_component item acc).
Proof.
  destruct item as [component status], acc as [[total_score active_components] total_weight].
  unfold add_component. destruct status; [|apply reads_ret].
  apply reads_bind.
  { apply reads_bind; [apply reads_attr|]. intros weights.
    destruct (dict_get weights component); [apply reads_ret|apply reads_raise]. }
  intros weight. apply reads_bind; [|intros score; apply reads_ret].
  destruct (String.eqb component "neural_ecosystem");
    [apply reads__calculate_neural_score|].
  destruct (String.eqb component "quantum_signatures");
    [apply reads__calculate_quantum_score|apply reads__calculate_temporal_score].
Qed.

(** [_update_protection_score] leaves the hub as it is; an exception
    leaves the world as it is. *)
Lemma _update_protection_score_ends w :
  ends _update_protection_score w
    (λ final w', self w' = self w ∧ ∃ new, events w' = events w ++ new)
    (λ _ w', w' = w).
Proof.
  unfold _update_protection_score. apply ends_bind. unfold ends at 1. simpl.
  apply ends_bind.
  pose proof (reads_for_each (components_status (self w)) add_component (0, 0%nat, 0)
                reads_add_component w) as Hreads.
  unfold ends at 1.
  destruct (for_each _ _ _ w) as [[[[total_score active_components] total_weight]|e] w'];
    simpl in Hreads; subst w'; [|done].
  destruct (_ && _); [|unfold ends; simpl; split; [done|]; exists []; by rewrite app_nil_r].
  unfold ends. simpl. split; [done|]. eexists. rewrite <- app_assoc. reflexivity.
Qed.

Lemma same_but_history_signatures h h' :
  same_but_history h h' → quantum_signatures h' = quantum_signatures h.
Proof. intros H. by apply (f_equal quantum_signatures) in H. Qed.

Lemma same_but_history_status h h' :
  same_but_history h h' → components_status h' = components_status h.
Proof. intros H. by apply (f_equal components_status) in H. Qed.

(** ** Updates of a signature *)

(** The run of [update_quantum_signature] in terms of the analysis and of
    the score update. *)
Lemma update_quantum_signature_run file_path signature_data w :
  ∃ w',
    update_quantum_signature file_path signature_data w = (Ok tt, w') ∧
    match signature_data with
    | PDict _ =>
        match _analyze_quantum_threats (stored file_path signature_data w) with
        | (Ok _, w1) =>
            analysed (stored file_path signature_data w) w1 ∧
            ((∃ final w2, _update_protection_score w1 = (Ok final, w2) ∧
                self w' = self w2 ∧
                events w' = events w2 ++
                  [logged_info (String.append "Quantum signature updated for " file_path)])
             ∨ (∃ e, _update_protection_score w1 = (Raise e, w1) ∧
                  self w' = with_components_status (self w1)
                    (dict_set (components_status (self w1)) "quantum_signatures" false) ∧
                  events w' = events w1 ++
                    [logged_error "Error updating quantum signature" e]))
        | (Raise e, w1) =>
            analysed (stored file_path signature_data w) w1 ∧
            self w' = with_components_status (self w1)
              (dict_set (components_status (self w1)) "quantum_signatures" false) ∧
            events w' = events w1 ++ [logged_error "Error updating quantum signature" e]
        end
    | _ =>
        self w' = with_components_status (self w)
          (dict_set (components_status (self w)) "quantum_signatures" false) ∧
        events w' = events w ++
          [logged_error "Error updating quantum signature"
             (ValueError "Signature data must be a dictionary")]
    end.
Proof.
  unfold update_quantum_signature, try_except.
  destruct signature_data as [| | | | |d|]; try (eexists; split; [reflexivity|done]).
  set (message := String.append _ _).
  unfold mbind at 1, M_bind at 1. simpl.
  unfold mbind at 1, M_bind at 1. simpl.
  unfold mbind at 1, M_bind at 1. simpl.
  fold (stored file_path (PDict d) w).
  pose proof (_analyze_quantum_threats_ends (stored file_path (PDict d) w)) as Hends.
  unfold ends in Hends.
  unfold mbind at 1, M_bind at 1.
  destruct (_analyze_quantum_threats (stored file_path (PDict d) w)) as [[u|e] w1].
  - unfold mbind at 1, M_bind at 1.
    pose proof (_update_protection_score_ends w1) as Hscore. unfold ends in Hscore.
    destruct (_update_protection_score w1) as [[final|e] w2]; cbv beta iota.
    + eexists. split; [reflexivity|]. split; [done|]. left.
      eexists _, _. split; [done|]. done.
    + subst w2. eexists. split; [reflexivity|]. split; [done|]. right.
      eexists. split; [done|]. done.
  - cbv beta iota. eexists. split; [reflexivity|]. done.
Qed.

Lemma _analyze_quantum_threats_eq w :
  _analyze_quantum_threats w =
  for_each (quantum_signatures (self w))
    (λ '(file_path, signature) _, analyze_signature file_path signature) tt w.
Proof. done. Qed.

Lemma Forall_dict_set {V} (P : V → Prop) (d : list (string * V)) key v :
  Forall (λ item, P item.2) d → P v → Forall (λ item, P item.2) (dict_set d key v).
Proof.
  intros Hd Hv. induction d as [|[k x] d IH]; simpl.
  - by apply Forall_singleton.
  - apply Forall_cons_1 in Hd as [Hx Hd].
    destruct (String.eqb key k); apply Forall_cons_2; auto.
Qed.

(** X13: [update_quantum_signature] raises nothing, whatever it is given;
    it stores the data under the path exactly when the data is a dict, and a
    history of at most [1000] threats holds at most [1000] threats
    afterwards. *)
Theorem update_keeps_history_bounded file_path signature_data w :
  bounded (self w) →
  ∃ w',
    update_quantum_signature file_path signature_data w = (Ok tt, w') ∧
    bounded (self w') ∧
    quantum_signatures (self w') =
      match signature_data with
      | PDict _ => dict_set (quantum_signatures (self w)) file_path signature_data
      | _ => quantum_signatures (self w)
      end.
Proof.
  intros Hb.
  destruct (update_quantum_signature_run file_path signature_data w) as (w' & Hrun & H).
  exists w'. split; [done|].
  destruct signature_data as [| | | | |d|];
    try (destruct H as [-> _]; by split).
  destruct (_analyze_quantum_threats (stored file_path (PDict d) w)) as [[u|e] w1].
  - destruct H as ((Hsame & Hb1 & _) & [(final & w2 & Hscore & -> & _)|(e & _ & -> & _)]).
    + pose proof (_update_protection_score_ends w1) as Hends.
      eapply ends_ok in Hends; [|exact Hscore]. destruct Hends as [-> _].
      split; [by apply Hb1|]. by rewrite (same_but_history_signatures _ _ Hsame).
    + split; [by apply Hb1|]. simpl. by rewrite (same_but_history_signatures _ _ Hsame).
  - destruct H as ((Hsame & Hb1 & _) & -> & _).
    split; [by apply Hb1|]. simpl. by rewrite (same_but_history_signatures _ _ Hsame).
Qed.

(** X14: when the score of every stored signature and of the new one can
    be read, [update_quantum_signature] records one threat for every stored
    signature that the analysis flags, the ones recorded by earlier calls
    included: the history grows by their number, up to [1000]. *)
Theorem update_records_every_flagged file_path d w :
  Forall (λ item, is_Some (read_score item.2)) (quantum_signatures (self w)) →
  is_Some (read_score (PDict d)) →
  bounded (self w) →
  ∃ w',
    update_quantum_signature file_path (PDict d) w = (Ok tt, w') ∧
    quantum_signatures (self w') = dict_set (quantum_signatures (self w)) file_path (PDict d) ∧
    length (threat_history (self w')) =
      ((length (threat_history (self w)) + count_suspicious (quantum_signatures (self w')))
         `min` 1000)%nat.
Proof.
  intros Hread Hd Hb.
  destruct (update_quantum_signature_run file_path (PDict d) w) as (w' & Hrun & H).
  exists w'. split; [done|]. cbv beta iota in H.
  destruct (analyze_readable (quantum_signatures (self (stored file_path (PDict d) w)))
              (stored file_path (PDict d) w)) as (w1 & Hrun1 & Hsame & Hlen).
  { simpl. by apply (Forall_dict_set (λ v, is_Some (read_score v))). }
  { done. }
  rewrite <- _analyze_quantum_threats_eq in Hrun1. rewrite Hrun1 in H.
  simpl in Hsame, Hlen.
  assert (self w' = self w1 ∨
          self w' = with_components_status (self w1)
                      (dict_set (components_status (self w1)) "quantum_signatures" false))
    as Hself.
  { destruct H as (_ & [(final & w2 & Hscore & -> & _)|(e & _ & -> & _)]); [|by right].
    pose proof (_update_protection_score_ends w1) as Hends.
    eapply ends_ok in Hends; [|exact Hscore]. destruct Hends as [-> _]. by left. }
  assert (quantum_signatures (self w') =
          dict_set (quantum_signatures (self w)) file_path (PDict d)) as Hsig.
  { destruct Hself as [->| ->]; simpl;
      by rewrite (same_but_history_signatures _ _ Hsame). }
  split; [done|]. rewrite Hsig.
  destruct Hself as [->| ->]; done.
Qed.

(** X15: a stored signature whose score cannot be read blocks the
    component: every later [update_quantum_signature] for another path ends
    with the status of the component [False], logs an error and emits no
    protection score. *)
Theorem unreadable_score_blocks_updates file_path d w blocked signature :
  dict_get (quantum_signatures (self w)) blocked = Some signature →
  read_score signature = None →
  file_path ≠ blocked →
  ∃ w' new e,
    update_quantum_signature file_path (PDict d) w = (Ok tt, w') ∧
    active (self w') "quantum_signatures" = false ∧
    dict_get (quantum_signatures (self w')) blocked = Some signature ∧
    events w' = events w ++ new ++ [logged_error "Error updating quantum signature" e] ∧
    no_score new.
Proof.
  intros Hget Hscore Hne.
  destruct (update_quantum_signature_run file_path (PDict d) w) as (w' & Hrun & H).
  exists w'. cbv beta iota in H.
  destruct (analyze_unreadable (quantum_signatures (self (stored file_path (PDict d) w)))
              (stored file_path (PDict d) w)) as (e & w1 & Hrun1).
  { apply Exists_exists. exists (blocked, signature). split; [|done].
    simpl. apply dict_set_other; [done|]. by apply dict_get_elem. }
  rewrite <- _analyze_quantum_threats_eq in Hrun1. rewrite Hrun1 in H.
  destruct H as ((Hsame & _ & new & Hnew & Hquiet) & Hself & Hevents).
  exists new, e. split; [done|]. split; [|split; [|split; [|done]]].
  - rewrite Hself. unfold active. simpl. rewrite dict_get_set. done.
  - rewrite Hself. simpl. rewrite (same_but_history_signatures _ _ Hsame). simpl.
    rewrite dict_get_set. destruct (String.eqb blocked file_path) eqn:Heq; [|done].
    apply String.eqb_eq in Heq. congruence.
  - rewrite Hevents, Hnew. simpl. by rewrite <- app_assoc.
Qed.

(** ** The scores *)

Lemma py_sum_nums (xs : list R) w : py_sum (PNum <$> xs) w = (Ok (sum xs), w).
Proof.
  unfold py_sum, sum. generalize 0. revert w.
  induction xs as [|x xs IH]; intros w acc; [done|].
  simpl. unfold mbind, M_bind. simpl. apply IH.
Qed.

Lemma sum_replicate n x : sum (replicate n x) = INR n * x.
Proof.
  induction n as [|n IH]; [unfold sum; simpl; lra|].
  rewrite S_INR. simpl replicate. rewrite sum_cons, IH. lra.
Qed.

Lemma collect_scores_confident (signatures : pydict) cs :
  Forall2 (λ item c, confident item.2 c) signatures cs →
  collect_scores signatures = (PNum <$> replicate (length cs) 0.5, PNum <$> cs).
Proof.
  unfold collect_scores.
  enough (∀ us cs0,
    Forall2 (λ item c, confident item.2 c) signatures cs →
    foldl (λ '(uniqueness_scores, confidence_scores) '(file_path, signature_data),
             match signature_data with
             | PDict d =>
                 (uniqueness_scores ++ [default (PNum 0.5) (dict_get d "uniqueness")],
                  confidence_scores ++ [default (PNum 0.5) (dict_get d "confidence")])
             | _ => (uniqueness_scores, confidence_scores)
             end) (us, cs0) signatures =
    (us ++ (PNum <$> replicate (length cs) 0.5), cs0 ++ (PNum <$> cs))) as H
    by (intros; by apply (H [] [])).
  intros us cs0 Hall. revert us cs0.
  induction Hall as [|[file_path signature] c signatures cs (d & Hd & Hu & Hc) _ IH];
    intros us cs0.
  - by rewrite !app_nil_r.
  - simpl in Hd. subst signature. simpl. rewrite Hu, Hc. simpl.
    rewrite IH, <- !app_assoc. done.
Qed.

Lemma _calculate_quantum_score_run w cs :
  cs ≠ [] →
  Forall2 (λ item c, confident item.2 c) (quantum_signatures (self w)) cs →
  _calculate_quantum_score w = (Ok (0.5 * 0.7 + sum cs / INR (length cs) * 0.3), w).
Proof.
  intros Hne Hall. unfold _calculate_quantum_score, mbind at 1, M_bind at 1, attr.
  pose proof (Forall2_length _ _ _ Hall) as Hlen.
  assert (length cs ≠ 0%nat) as Hn by (by destruct cs).
  rewrite bool_decide_false by lia.
  rewrite (collect_scores_confident _ _ Hall).
  rewrite !length_fmap, length_replicate.
  rewrite !bool_decide_false by done. cbn [orb].
  unfold mbind, M_bind. rewrite !py_sum_nums. unfold mret, M_ret. do 3 f_equal.
  rewrite sum_replicate. field. by apply not_0_INR.
Qed.

(** X16: the quantum score does not read the uniqueness score: for stored
    signatures that are dicts with a numeric ['confidence'] and without the
    key ['uniqueness'], whatever else they hold, it is
    [0.5 * 0.7 + mean * 0.3] for the mean of the confidences. *)
Theorem quantum_score_ignores_uniqueness_score w cs :
  cs ≠ [] →
  Forall2 (λ item c, confident item.2 c) (quantum_signatures (self w)) cs →
  _calculate_quantum_score w = (Ok (0.35 + 0.3 * (sum cs / INR (length cs))), w).
Proof.
  intros Hne Hall. rewrite (_calculate_quantum_score_run w cs) by done.
  do 2 f_equal. lra.
Qed.

(** ** The protection score *)

Lemma standard_components h :
  standard h →
  components_status h =
  [("neural_ecosystem", active h "neural_ecosystem");
   ("quantum_signatures", active h "quantum_signatures");
   ("temporal_prediction", active h "temporal_prediction")]%string.
Proof.
  intros [Hkeys _]. unfold active.
  destruct (components_status h) as [|[k1 b1] [|[k2 b2] [|[k3 b3] [|]]]]; try done.
  simpl in Hkeys. injection Hkeys as -> -> ->. done.
Qed.

Lemma add_component_inactive component acc w :
  add_component (component, false) acc w = (Ok acc, w).
Proof. by destruct acc as [[? ?] ?]. Qed.

Lemma add_component_active component total_score active_components total_weight w
    weight score :
  dict_get (protection_weights (self w)) component = Some weight →
  (if String.eqb component "neural_ecosystem" then _calculate_neural_score
   else if String.eqb component "quantum_signatures" then _calculate_quantum_score
   else _calculate_temporal_score) w = (Ok score, w) →
  add_component (component, true) (total_score, active_components, total_weight) w =
  (Ok (total_score + score * weight, S active_components, total_weight + weight), w).
Proof.
  intros Hweight Hscore. unfold add_component, weight_of, mbind, M_bind, attr.
  rewrite Hweight. unfold mret at 1, M_ret at 1. cbv beta iota. rewrite Hscore. done.
Qed.

Lemma add_component_raises component total_score active_components total_weight w
    weight e :
  dict_get (protection_weights (self w)) component = Some weight →
  (if String.eqb component "neural_ecosystem" then _calculate_neural_score
   else if String.eqb component "quantum_signatures" then _calculate_quantum_score
   else _calculate_temporal_score) w = (Raise e, w) →
  add_component (component, true) (total_score, active_components, total_weight) w =
  (Raise e, w).
Proof.
  intros Hweight Hscore. unfold add_component, weight_of, mbind, M_bind, attr.
  rewrite Hweight. unfold mret at 1, M_ret at 1. cbv beta iota. rewrite Hscore. done.
Qed.

Lemma weighted_between lo hi total weight :
  0 < weight → lo * weight <= total <= hi * weight → lo <= total / weight <= hi.
Proof.
  intros Hpos [Hlo Hhi]. split.
  - apply (Rmult_le_reg_r weight); [done|]. unfold Rdiv.
    rewrite Rmult_assoc, Rinv_l by lra. lra.
  - apply (Rmult_le_reg_r weight); [done|]. unfold Rdiv.
    rewrite Rmult_assoc, Rinv_l by lra. lra.
Qed.

(** The run of [_update_protection_score] on a hub with its constructed
    components, for scores that the active components return. *)
Lemma _update_protection_score_run w (score : string → R) :
  standard (self w) →
  (active (self w) "neural_ecosystem" = true →
   _calculate_neural_score w = (Ok (score "neural_ecosystem"%string), w)) →
  (active (self w) "quantum_signatures" = true →
   _calculate_quantum_score w = (Ok (score "quantum_signatures"%string), w)) →
  (active (self w) "temporal_prediction" = true →
   _calculate_temporal_score w = (Ok (score "temporal_prediction"%string), w)) →
  for_each (components_status (self w)) add_component (0, 0%nat, 0) w =
  (Ok (foldl (λ '(total_score, active_components, total_weight) '(component, weight),
                if active (self w) component
                then (total_score + score component * weight, S active_components,
                      total_weight + weight)
                else (total_score, active_components, total_weight))
         (0, 0%nat, 0) (protection_weights __init__)), w).
Proof.
  intros Hstd Hn Hq Ht. rewrite (standard_components _ Hstd).
  destruct Hstd as [_ Hweights]. simpl foldl.
  destruct (active (self w) "neural_ecosystem");
    destruct (active (self w) "quantum_signatures");
    destruct (active (self w) "temporal_prediction");
    repeat (erewrite for_each_step;
            [|first
                [ apply add_component_inactive
                | apply add_component_active;
                  [by rewrite Hweights
                  |first [by apply Hn|by apply Hq|by apply Ht]] ]]);
    done.
Qed.

(** X17: on a hub with its constructed components, when every active
    component returns a score between [lo] and [hi] and one is active,
    [_update_protection_score] returns and emits a score between [lo] and
    [hi], the weighted mean of the scores; it leaves the hub as it is. *)
Theorem protection_score_between lo hi w (score : string → R) :
  standard (self w) →
  (∃ component, active (self w) component = true) →
  (active (self w) "neural_ecosystem" = true →
   _calculate_neural_score w = (Ok (score "neural_ecosystem"%string), w) ∧
   lo <= score "neural_ecosystem"%string <= hi) →
  (active (self w) "quantum_signatures" = true →
   _calculate_quantum_score w = (Ok (score "quantum_signatures"%string), w) ∧
   lo <= score "quantum_signatures"%string <= hi) →
  (active (self w) "temporal_prediction" = true →
   _calculate_temporal_score w = (Ok (score "temporal_prediction"%string), w) ∧
   lo <= score "temporal_prediction"%string <= hi) →
  ∃ final w' current_status,
    _update_protection_score w = (Ok final, w') ∧
    lo <= final <= hi ∧
    self w' = self w ∧
    events w' = events w ++ [protection_score final; system_status current_status] ∧
    dict_get current_status "protection_score" = Some (PNum final).
Proof.
  intros Hstd [component Hactive] Hn Hq Ht.
  unfold _update_protection_score, mbind at 1, M_bind at 1, attr.
  cbv beta iota. unfold mbind at 1, M_bind at 1.
  rewrite (_update_protection_score_run w score Hstd)
    by (intros H; first [by apply Hn|by apply Hq|by apply Ht]).
  assert (component = "neural_ecosystem" ∨ component = "quantum_signatures" ∨
          component = "temporal_prediction")%string as Hcases.
  { unfold active in Hactive. rewrite (standard_components _ Hstd) in Hactive.
    simpl in Hactive.
    destruct (String.eqb component "neural_ecosystem") eqn:H1;
      [apply String.eqb_eq in H1; auto|].
    destruct (String.eqb component "quantum_signatures") eqn:H2;
      [apply String.eqb_eq in H2; auto|].
    destruct (String.eqb component "temporal_prediction") eqn:H3;
      [apply String.eqb_eq in H3; auto|done]. }
  cbn [foldl protection_weights __init__].
  destruct (active (self w) "neural_ecosystem") eqn:Han;
    destruct (active (self w) "quantum_signatures") eqn:Haq;
    destruct (active (self w) "temporal_prediction") eqn:Hat;
    try (destruct Hcases as [->|[->| ->]]; congruence);
    try (destruct (Hn eq_refl) as [_ Hbn]); try (destruct (Hq eq_refl) as [_ Hbq]);
    try (destruct (Ht eq_refl) as [_ Hbt]);
    cbv beta iota; rewrite bool_decide_true by lia; cbn [andb];
    (destruct Rgt_dec as [Hpos|Hnpos]; [|exfalso; apply Hnpos; lra]);
    unfold mbind, M_bind, emit, attr, now_isoformat; cbn [self events clock clock_pos];
    (eexists _, _, _; split; [reflexivity|]);
    (split; [apply weighted_between; lra|]);
    (split; [done|]); (split; [by rewrite <- app_assoc|done]).
Qed.

Lemma py_sum_any_world l w w' : (py_sum l w).1 = (py_sum l w').1.
Proof.
  unfold py_sum. generalize 0.
  induction l as [|v l IH]; intros acc; [reflexivity|].
  simpl. unfold mbind, M_bind, py_float.
  destruct (as_num v) as [x|]; [|done]. simpl. apply IH.
Qed.

(** X21: the temporal score reads the first seven entries of the history
    of the predictions and nothing behind them: two hubs whose histories
    are lists with the same first seven entries get the same score, or the
    same exception. *)
Theorem temporal_score_reads_first_seven w1 w2 days more1 more2 :
  length days = 7%nat →
  dict_get (temporal_predictions (self w1)) "history" = Some (PList (days ++ more1)) →
  dict_get (temporal_predictions (self w2)) "history" = Some (PList (days ++ more2)) →
  (_calculate_temporal_score w1).1 = (_calculate_temporal_score w2).1.
Proof.
  intros Hlen H1 H2.
  assert (∀ w more,
    dict_get (temporal_predictions (self w)) "history" = Some (PList (days ++ more)) →
    (_calculate_temporal_score w).1 =
    (let threat_counts :=
       omap (λ day_data,
               match day_data with
               | PDict d => Some (default (PNum 0) (dict_get d "count"))
               | _ => None
               end) days in
     if bool_decide (length threat_counts = 0%nat) then Ok 0.5
     else match (py_sum threat_counts w).1 with
          | Ok total => Ok (Rmax 0 (1 - total / INR (length threat_counts) / 10))
          | Raise e => Raise e
          end)) as Hrun.
  { intros w more Hget. unfold _calculate_temporal_score, mbind at 1, M_bind at 1, attr.
    cbv beta iota.
    assert (temporal_predictions (self w) ≠ []) as Hne by (intros Heq; by rewrite Heq in Hget).
    rewrite bool_decide_false by (by destruct (temporal_predictions (self w))).
    rewrite Hget. cbn [default from_option Datatypes.id truthy].
    rewrite bool_decide_false by (rewrite length_app; lia). cbn [negb].
    unfold mbind at 1, M_bind at 1. cbn [py_take mret M_ret].
    rewrite take_app_length' by done. cbv zeta.
    destruct (bool_decide _); [done|].
    unfold mbind, M_bind. by destruct (py_sum _ w) as [[total|e] w']. }
  rewrite (Hrun w1 more1 H1), (Hrun w2 more2 H2). cbv zeta.
  destruct (bool_decide _); [done|].
  by rewrite (py_sum_any_world _ w1 w2).
Qed.

(** X22: a neural data dict that holds its processes in a list, which has
    no [values], makes [_calculate_neural_score] raise [AttributeError];
    with the neural component active the update of the protection score
    then raises it and emits nothing. *)
Theorem neural_score_rejects_process_list w processes :
  dict_get (neural_data (self w)) "processes" = Some (PList processes) →
  _calculate_neural_score w = (Raise AttributeError, w) ∧
  (standard (self w) → active (self w) "neural_ecosystem" = true →
   _update_protection_score w = (Raise AttributeError, w)).
Proof.
  intros Hget.
  assert (_calculate_neural_score w = (Raise AttributeError, w)) as Hraise.
  { unfold _calculate_neural_score, mbind at 1, M_bind at 1, attr. cbv beta iota.
    rewrite bool_decide_false
      by (destruct (neural_data (self w)); [done|simpl; lia]).
    by rewrite Hget. }
  split; [done|]. intros Hstd Hactive.
  unfold _update_protection_score, mbind at 1, M_bind at 1, attr. cbv beta iota.
  unfold mbind at 1, M_bind at 1.
  rewrite (standard_components _ Hstd), Hactive.
  cbn [for_each]. unfold mbind at 1, M_bind at 1.
  rewrite (add_component_raises _ _ _ _ _ 0.4 AttributeError);
    [done|by destruct Hstd as [_ ->]|done].
Qed.

(** With the quantum component alone active, the protection score is the
    quantum score. *)
Lemma _update_protection_score_quantum_alone w s :
  standard (self w) →
  active (self w) "neural_ecosystem" = false →
  active (self w) "quantum_signatures" = true →
  active (self w) "temporal_prediction" = false →
  _calculate_quantum_score w = (Ok s, w) →
  ∃ w' current_status,
    _update_protection_score w = (Ok s, w') ∧
    self w' = self w ∧
    events w' = events w ++ [protection_score s; system_status current_status].
Proof.
  intros Hstd Hn Hq Ht Hscore.
  unfold _update_protection_score, mbind at 1, M_bind at 1, attr.
  cbv beta iota. unfold mbind at 1, M_bind at 1.
  rewrite (_update_protection_score_run w (λ _, s) Hstd) by (intros; congruence).
  cbn [foldl protection_weights __init__]. rewrite Hn, Hq, Ht.
  cbv beta iota. rewrite bool_decide_true by lia. cbn [andb].
  destruct Rgt_dec as [Hpos|Hnpos]; [|exfalso; apply Hnpos; lra].
  unfold mbind, M_bind, emit, attr, now_isoformat. cbn [self events clock clock_pos].
  assert ((0 + s * 0.3) / (0 + 0.3) = s) as -> by (field; lra).
  eexists _, _. split; [reflexivity|]. split; [done|]. by rewrite <- app_assoc.
Qed.

(** ** Predictions that cannot be logged *)

Lemma _record_threat_unserialisable threat_data w :
  json_ok threat_data = false →
  _record_threat threat_data w =
  (Raise TypeError,
   {| self := with_threat_history (self w) (threat_history (self w) ++ [threat_data]);
      events := events w; clock := clock w; clock_pos := clock_pos w |}).
Proof.
  intros Hjson. unfold _record_threat, json_dumps, mbind, M_bind, on_self.
  by rewrite Hjson.
Qed.

(** X25: the bound of [1000] on the history of threats does not hold on
    every path: when the first of the predicted threats is probable and
    holds a value that [json.dumps] rejects, [update_temporal_prediction]
    appends its record to the history and stops before the history is cut,
    so a history of [1000] threats has [1001] afterwards; the component is
    left inactive. *)
Theorem unserialisable_prediction_exceeds_bound predictions d rest p w :
  dict_get predictions "future_threats" = Some (PList (PDict d :: rest)) →
  dict_get d "probability" = Some (PNum p) →
  p > 0.7 →
  json_ok (PDict d) = false →
  ∃ w',
    update_temporal_prediction (PDict predictions) w = (Ok tt, w') ∧
    threat_history (self w') =
      threat_history (self w) ++
      [PDict [("type", PStr "predicted_threat");
              ("source", PStr "temporal_prediction");
              ("timestamp", PStr (clock w (clock_pos w)));
              ("details", PDict d)]%string] ∧
    temporal_predictions (self w') = predictions ∧
    active (self w') "temporal_prediction" = false.
Proof.
  intros Hfuture Hprobability Hp Hjson.
  assert (predictions ≠ []) as Hne by (intros ->; done).
  unfold update_temporal_prediction, try_except.
  unfold mbind at 1, M_bind at 1. cbn [on_self].
  unfold mbind at 1, M_bind at 1. cbn [on_self].
  unfold mbind at 1, M_bind at 1.
  unfold _analyze_temporal_threats at 1, mbind at 1, M_bind at 1, attr.
  cbn [self temporal_predictions with_components_status with_temporal_predictions].
  rewrite bool_decide_false by (by destruct predictions).
  rewrite Hfuture. cbn [default from_option Datatypes.id py_iter].
  unfold mbind at 1, M_bind at 1, mret at 1, M_ret at 1.
  rewrite (for_each_step_raise _ _ _ _ _ TypeError
             {| self := with_threat_history
                          (with_components_status
                             (with_temporal_predictions (self w) predictions)
                             (dict_set (components_status (self w)) "temporal_prediction"
                                true))
                          (threat_history (self w) ++
                           [PDict [("type", PStr "predicted_threat");
                                   ("source", PStr "temporal_prediction");
                                   ("timestamp", PStr (clock w (clock_pos w)));
                                   ("details", PDict d)]%string]);
                events := events w ++
                          [threat_detected "Прогноз потенциальной угрозы" p
                             "Temporal Prediction"];
                clock := clock w; clock_pos := S (clock_pos w) |}).
  - eexists. split; [reflexivity|]. split; [done|]. split; [done|].
    unfold active. simpl. by rewrite dict_get_set.
  - unfold analyze_prediction, py_get, py_gt, py_float, py_getitem, mbind, M_bind.
    rewrite Hprobability. simpl.
    destruct (Rgt_dec p 0.7) as [_|Hn]; [|done]. simpl.
    rewrite _record_threat_unserialisable; [done|].
    simpl. simpl in Hjson. by rewrite Hjson.
Qed.

(** ** The system monitor *)

Lemma monitored_refl w :
  Forall (λ item, 0 ≤ item.2)%Z (anomaly_counters (self w)) → monitored w w.
Proof.
  intros Hpos. split; [done|]. split; [done|]. exists []. split; [by rewrite app_nil_r|].
  apply Forall_nil_2.
Qed.

Lemma monitored_emit w w1 e :
  (∀ threat_type confidence source,
     e = threat_detected threat_type confidence source →
     0.6 <= confidence <= 0.9 ∧ source = "system_monitor"%string) →
  monitored w w1 → monitored w (emit e w1).2.
Proof.
  intros He (Hpos & Hframe & new & Hnew & Hall). split; [done|]. split; [done|].
  exists (new ++ [e]). split; [simpl; by rewrite Hnew, <- app_assoc|].
  apply Forall_app. split; [done|]. by apply Forall_singleton.
Qed.

Lemma ends_reads {A} (m : M A) w w1 :
  reads m → monitored w w1 →
  ends m w1 (λ _ w2, monitored w w2) (λ _ w2, monitored w w2).
Proof.
  intros Hreads Hmon. unfold ends. specialize (Hreads w1).
  destruct (m w1) as [[a|e] w2]; simpl in Hreads; by subst.
Qed.

Lemma ends_count_anomaly counter high w w1 :
  counter = "high_cpu"%string ∨ counter = "high_memory"%string →
  monitored w w1 →
  ends (count_anomaly counter high) w1 (λ _ w2, monitored w w2) (λ _ w2, monitored w w2).
Proof.
  intros Hcounter (Hpos & Hframe & Hnew).
  unfold ends, count_anomaly, mbind, M_bind, attr. cbv beta iota.
  destruct (dict_get (anomaly_counters (self w1)) counter) as [value|] eqn:Hget;
    [|by repeat split].
  simpl. split; [|split; [|done]].
  - simpl. apply (Forall_dict_set (λ v, 0 ≤ v)%Z); [done|].
    apply dict_get_elem in Hget. rewrite Forall_forall in Hpos.
    specialize (Hpos _ Hget). simpl in Hpos. destruct high; lia.
  - intros other H1 H2. simpl. rewrite dict_get_set.
    destruct (String.eqb other counter) eqn:Heq; [|by apply Hframe].
    apply String.eqb_eq in Heq. destruct Hcounter; congruence.
Qed.

Lemma ends_report_anomaly item w w1 :
  monitored w w1 →
  ends (report_anomaly item) w1 (λ _ w2, monitored w w2) (λ _ w2, monitored w w2).
Proof.
  intros Hmon. destruct item as [counter_name counter_value]. unfold report_anomaly.
  destruct (decide (5 < counter_value)%Z) as [Hgt|Hle]; [|done].
  unfold ends. apply (monitored_emit w w1); [|done].
  intros threat_type confidence source [= _ <- <-]. split; [|done].
  assert (6 <= IZR counter_value) as H6 by (apply IZR_le; lia).
  unfold Rmin. destruct Rle_dec; lra.
Qed.

(** X24: [update_system_status] raises nothing, whatever it is given; it
    keeps the counters non-negative and changes no counter but the two of
    the processor and of the memory, so the two other counters stay as
    constructed; every threat that it emits has a confidence within
    [[0.6, 0.9]]. *)
Theorem update_system_status_monitored status_info w :
  Forall (λ item, 0 ≤ item.2)%Z (anomaly_counters (self w)) →
  ∃ w', update_system_status status_info w = (Ok tt, w') ∧ monitored w w'.
Proof.
  intros Hpos.
  enough (ends (update_system_status status_info) w
            (λ _ w', monitored w w') (λ _ _, False)) as Hends.
  { unfold ends in Hends.
    destruct (update_system_status status_info w) as [[[]|e] w']; [eauto|done]. }
  unfold update_system_status. apply ends_try_except.
  assert (∀ e w1, monitored w w1 →
            ends (emit (logged_error "Error updating system status" e)) w1
              (λ _ w', monitored w w') (λ _ _, False)) as Hhandler.
  { intros e w1 Hmon. unfold ends. by apply (monitored_emit w w1). }
  eapply (ends_mono _ _ (λ _ w1, monitored w w1) _ (λ _ w1, monitored w w1));
    [|done|intros e w' H; by apply Hhandler].
  apply ends_bind.
  eapply (ends_mono _ _ (λ _ w1, monitored w w1) _ (λ _ w1, monitored w w1));
    [|intros _ w1 Hmon|done].
  { destruct status_info; try (by apply monitored_refl).
    unfold ends. simpl. by apply monitored_refl in Hpos. }
  apply ends_bind. eapply ends_mono; [by apply ends_reads; [apply reads_py_get|]| |done].
  cbv beta. intros cpu_percent w2 Hmon2.
  apply ends_bind. eapply ends_mono; [by apply ends_reads; [apply reads_py_get|]| |done].
  cbv beta. intros mem_percent w3 Hmon3.
  apply ends_bind. eapply ends_mono; [by apply ends_reads; [apply reads_py_gt|]| |done].
  cbv beta. intros high w4 Hmon4.
  apply ends_bind. eapply ends_mono; [by apply ends_count_anomaly; [left|]| |done].
  cbv beta. intros _ w5 Hmon5.
  apply ends_bind. eapply ends_mono; [by apply ends_reads; [apply reads_py_gt|]| |done].
  cbv beta. intros high' w6 Hmon6.
  apply ends_bind. eapply ends_mono; [by apply ends_count_anomaly; [right|]| |done].
  cbv beta. intros _ w7 Hmon7.
  apply ends_bind. unfold ends at 1, attr.
  apply ends_bind.
  eapply (ends_mono _ _ (λ _ w1, monitored w w1) _ (λ _ w1, monitored w w1)); [| |done].
  { apply (ends_for_each (λ _ w', monitored w w')); [done|].
    intros item [] w8 _ Hmon8. by apply ends_report_anomaly. }
  cbv beta. intros _ w8 Hmon8. unfold ends. by apply (monitored_emit w w8).
Qed.

End HubProperties.

(** ** The hub on the results of the engine *)

Section Composition.

Variables sha256 md5 sha1 blake2b : bytes → bytes.
Variable unit_tape : nat → R.
Variable int_tape : nat → nat.
Variable fuel : nat.
Variable ellipse_pixels : R → R → R → R → list (nat * nat).

(** X18: a constructed hub that is handed a result of [generate_signature]
    stores it, sets the component active and emits the protection score
    [0.35 + 0.3 * confidence_level]: the score does not depend on the file.
    It records a threat exactly when the uniqueness score of the result
    exceeds [0.9]. *)
Theorem hub_on_engine_result fs file_path evolution s r s' w :
  generate_signature sha256 md5 sha1 blake2b unit_tape int_tape fuel ellipse_pixels
    fs file_path evolution s = (Ok (Some r), s') →
  Hub.self w = Hub.__init__ →
  ∃ w',
    Hub.update_quantum_signature file_path (signature_dict r) w = (Hub.Ok tt, w') ∧
    Hub.quantum_signatures (Hub.self w') = [(file_path, signature_dict r)] ∧
    Hub.active (Hub.self w') "quantum_signatures" = true ∧
    Hub.protection_score (0.35 + 0.3 * confidence_level (self s)) ∈ Hub.events w' ∧
    length (Hub.threat_history (Hub.self w')) =
      (if Rgt_dec (res_uniqueness_score r) 0.9 then 1 else 0)%nat.
Proof.
  intros Hgen Hinit.
  destruct (signature_result_well_formed_aux _ _ _ _ _ _ _ _ _ _ _ _ _ _ Hgen)
    as (_ & _ & _ & Hconf & _).
  destruct (update_quantum_signature_run file_path (signature_dict r) w)
    as (w' & Hrun & H).
  exists w'. split; [done|]. cbv beta iota in H.
  assert (Hub.read_score (signature_dict r) = Some (res_uniqueness_score r)) as Hread
    by done.
  destruct (analyze_readable
              (Hub.quantum_signatures (Hub.self (Hub.stored file_path (signature_dict r) w)))
              (Hub.stored file_path (signature_dict r) w)) as (w1 & Hrun1 & Hsame & Hlen).
  { simpl. rewrite Hinit. simpl. apply Forall_singleton. by eexists. }
  { simpl. rewrite Hinit. simpl. lia. }
  rewrite <- _analyze_quantum_threats_eq in Hrun1. rewrite Hrun1 in H.
  simpl in Hsame, Hlen. rewrite Hinit in Hsame, Hlen. simpl in Hsame, Hlen.
  pose proof (same_but_history_signatures _ _ Hsame) as Hsig.
  pose proof (same_but_history_status _ _ Hsame) as Hstatus.
  assert (Hub.protection_weights (Hub.self w1) = Hub.protection_weights Hub.__init__)
    as Hweights by (by apply (f_equal Hub.protection_weights) in Hsame).
  simpl in Hsig, Hstatus.
  assert (Hub.count_suspicious [(file_path, signature_dict r)] =
          if Rgt_dec (res_uniqueness_score r) 0.9 then 1 else 0)%nat as Hcount.
  { unfold Hub.count_suspicious.
    destruct (Rgt_dec (res_uniqueness_score r) 0.9) as [Hgt|Hle].
    - rewrite filter_cons_True; [done|]. simpl. unfold Hub.is_suspicious.
      rewrite Hread. by destruct Rgt_dec.
    - rewrite filter_cons_False; [done|]. simpl. unfold Hub.is_suspicious.
      rewrite Hread. destruct Rgt_dec; [done|]. intros []. }
  rewrite Hcount in Hlen.
  destruct (_update_protection_score_quantum_alone w1
              (0.35 + 0.3 * confidence_level (self s)))
    as (w2 & current_status & Hscore & Hself2 & Hevents2).
  { split; [by rewrite Hstatus|done]. }
  { unfold Hub.active. by rewrite Hstatus. }
  { unfold Hub.active. by rewrite Hstatus. }
  { unfold Hub.active. by rewrite Hstatus. }
  { rewrite (_calculate_quantum_score_run w1 [res_confidence r]); [|done|].
    - do 2 f_equal. rewrite Hconf. unfold sum. simpl. lra.
    - rewrite Hsig. constructor; [|constructor].
      simpl. eexists. split; [reflexivity|]. split; reflexivity. }
  destruct H as (_ & [(final & w2' & Hscore' & Hself & Hevents)|(e & Hraise & _)]);
    [|congruence].
  rewrite Hscore in Hscore'. injection Hscore' as <- <-.
  rewrite Hself, Hself2, Hsig, Hevents, Hevents2.
  split; [done|]. split; [unfold Hub.active; by rewrite Hstatus|].
  split; [|by destruct Rgt_dec; simpl in Hlen; lia].
  apply elem_of_app. left. apply elem_of_app. right. by left.
Qed.

End Composition.

(** * Properties of the metrics *)

Section MetricsProperties.

Import Metrics.

Lemma dict_update_cons {V} (d : list (string * V)) k x new :
  dict_update d ((k, x) :: new) = dict_update (dict_set d k x) new.
Proof. done. Qed.

Lemma dict_get_update_other {V} (d new : list (string * V)) key :
  key ∉ fst <$> new → dict_get (dict_update d new) key = dict_get d key.
Proof.
  revert d. induction new as [|[k x] new IH]; intros d Hnot; [done|].
  rewrite dict_update_cons, IH.
  - rewrite dict_get_set. destruct (String.eqb key k) eqn:Hk; [|done].
    apply String.eqb_eq in Hk as ->. exfalso. apply Hnot. rewrite fmap_cons. by left.
  - intros Hin. apply Hnot. rewrite fmap_cons. by right.
Qed.

Lemma dict_get_update {V} (d new : list (string * V)) key v :
  NoDup (fst <$> new) → (key, v) ∈ new → dict_get (dict_update d new) key = Some v.
Proof.
  revert d. induction new as [|[k x] new IH]; intros d Hnodup Hin.
  - by apply elem_of_nil in Hin.
  - rewrite fmap_cons in Hnodup. apply NoDup_cons in Hnodup as [Hk Hnodup].
    rewrite dict_update_cons. apply elem_of_cons in Hin as [[= -> ->]|Hin].
    + rewrite dict_get_update_other by done. rewrite dict_get_set.
      by rewrite String.eqb_refl.
    + by apply IH.
Qed.

(** The run of [update_metrics] for a component of the object. *)
Lemma update_metrics_run component new_metrics address w :
  dict_get (metrics (self w)) component = Some address →
  update_metrics component new_metrics w =
  (Hub.Ok tt,
   {| self := with_history (self w)
                (let history := metrics_history (self w) ++
                                [(clock_pos w, metrics (self w))] in
                 if decide (max_history (self w) < length history)%nat
                 then drop 1 history else history);
      heap := alter (λ d, dict_update d new_metrics) address (heap w);
      emitted := emitted w ++ [metrics (self w)];
      clock_pos := S (clock_pos w) |}).
Proof.
  intros Hget. unfold update_metrics, mbind, M_bind, attr. rewrite Hget.
  cbn. destruct (decide _); done.
Qed.

(** X19: the history of [update_metrics] keeps no past value: after an
    update of a component, every entry of the history, the older ones
    included, shows for each key of [new_metrics] the value just written,
    since the entries are shallow copies that share the dict of the
    component with the live metrics. *)
Theorem history_shows_latest component new_metrics address w key v :
  shallow_copies (self w) →
  dict_get (metrics (self w)) component = Some address →
  (address < length (heap w))%nat →
  NoDup (fst <$> new_metrics) →
  (key, v) ∈ new_metrics →
  ∃ w',
    update_metrics component new_metrics w = (Hub.Ok tt, w') ∧
    shallow_copies (self w') ∧
    shown w' (metrics (self w')) component key = Some v ∧
    ∀ entry, entry ∈ metrics_history (self w') →
             shown w' entry.2 component key = Some v.
Proof.
  intros Hcopies Hget Haddress Hnodup Hin.
  rewrite (update_metrics_run _ _ _ _ Hget). eexists. split; [reflexivity|].
  set (history := metrics_history (self w) ++ [(clock_pos w, metrics (self w))]).
  assert (Forall (λ entry, entry.2 = metrics (self w)) history) as Hall.
  { apply Forall_app. split; [done|]. by apply Forall_singleton. }
  assert (Forall (λ entry, entry.2 = metrics (self w))
            (if decide (max_history (self w) < length history)%nat
             then drop 1 history else history)) as Hall'.
  { destruct (decide _); [|done]. by apply Forall_drop. }
  assert (shown
            {| self := with_history (self w)
                         (if decide (max_history (self w) < length history)%nat
                          then drop 1 history else history);
               heap := alter (λ d, dict_update d new_metrics) address (heap w);
               emitted := emitted w ++ [metrics (self w)];
               clock_pos := S (clock_pos w) |}
            (metrics (self w)) component key = Some v) as Hshown.
  { unfold shown. rewrite Hget. simpl.
    destruct (lookup_lt_is_Some_2 (heap w) address Haddress) as [inner Hinner].
    rewrite list_lookup_alter_eq, Hinner. simpl. by apply dict_get_update. }
  split; [done|]. split; [done|].
  intros entry Hentry. simpl in Hentry.
  rewrite Forall_forall in Hall'. by rewrite (Hall' _ Hentry).
Qed.

(** X20: [update_metrics] keeps a history of at most [max_history] entries
    within [max_history] entries, and for a component that the metrics do
    not have it changes nothing. *)
Theorem update_metrics_history_bounded component new_metrics w :
  (length (metrics_history (self w)) ≤ max_history (self w))%nat →
  ∃ w',
    update_metrics component new_metrics w = (Hub.Ok tt, w') ∧
    (length (metrics_history (self w')) ≤ max_history (self w'))%nat ∧
    (dict_get (metrics (self w)) component = None → w' = w).
Proof.
  intros Hlen. destruct (dict_get (metrics (self w)) component) as [address|] eqn:Hget.
  - rewrite (update_metrics_run _ _ _ _ Hget). eexists. split; [reflexivity|].
    split; [|done]. simpl. destruct (decide _) as [Hgt|Hle].
    + rewrite length_drop, length_app. simpl. lia.
    + lia.
  - exists w. split; [|done]. unfold update_metrics, mbind, M_bind, attr.
    by rewrite Hget.
Qed.

Lemma getitem2_shown w d component key v :
  shown w d component key = Some v → getitem2 d component key w = (Hub.Ok v, w).
Proof.
  unfold shown, getitem2. destruct (dict_get d component) as [address|]; [|done].
  simpl. destruct (heap w !! address) as [inner|]; [|done]. simpl. by intros ->.
Qed.

(** X23: for a system health and a number of suspicious files within
    [[0, 100]] and a risk level that is a string, [get_threat_level]
    returns a level within [[0, 1]], and [get_system_status] returns; when
    no file is suspicious the level is at most [0.7], so the status is not
    the critical one. *)
Theorem threat_level_range w health suspicious risk :
  shown w (metrics (self w)) "neural" "system_health" = Some (PNum health) →
  shown w (metrics (self w)) "quantum" "suspicious_files" = Some (PNum suspicious) →
  shown w (metrics (self w)) "temporal" "risk_level" = Some (PStr risk) →
  0 <= health <= 100 → 0 <= suspicious <= 100 →
  ∃ level status,
    get_threat_level w = (Hub.Ok level, w) ∧
    get_system_status w = (Hub.Ok status, w) ∧
    0 <= level <= 1 ∧
    (suspicious = 0 → level <= 0.7 ∧ status ≠ "Критическая ситуация"%string).
Proof.
  intros Hh Hs Hr Hhealth Hsuspicious.
  set (t := if String.eqb risk "Low" then 0.2
            else if String.eqb risk "Medium" then 0.5
            else if String.eqb risk "High" then 0.8
            else if String.eqb risk "Critical" then 1
            else 0).
  assert (0 <= t <= 1) as Ht.
  { unfold t. repeat (destruct (String.eqb risk _); [lra|]). lra. }
  assert (get_threat_level w =
          (Hub.Ok ((100 - health) / 100 * 0.4 + suspicious / 100 * 0.3 + t * 0.3), w))
    as Hlevel.
  { unfold get_threat_level, mbind, M_bind, attr.
    rewrite (getitem2_shown _ _ _ _ _ Hh). cbn [py_float as_num mret M_ret].
    rewrite (getitem2_shown _ _ _ _ _ Hs). cbn [py_float as_num mret M_ret].
    rewrite (getitem2_shown _ _ _ _ _ Hr). done. }
  eexists _, _. split; [exact Hlevel|]. split.
  { unfold get_system_status, mbind, M_bind. rewrite Hlevel. reflexivity. }
  split; [lra|]. intros ->.
  assert ((100 - health) / 100 * 0.4 + 0 / 100 * 0.3 + t * 0.3 <= 0.7) as Hle by lra.
  split; [done|].
  repeat (destruct Rlt_dec as [?|?]; [done|]). lra.
Qed.

End MetricsProperties.

(** * Examples *)

Lemma example_tape_fair : fair example_int_tape 2 8.
Proof.
  intros p d. unfold example_int_tape.
  destruct (decide ((p mod 8)%nat = d)) as [<-|Hne].
  - exists 1%nat. split; [lia|].
    rewrite (Nat.Div0.add_mod p 1 8).
    pose proof (Nat.mod_upper_bound p 8) as Hlt.
    destruct (p mod 8)%nat as [|[|[|[|[|[|[|[|q]]]]]]]]; simpl; lia.
  - exists 0%nat. split; [lia|]. by rewrite Nat.add_0_r.
Qed.

Lemma example_unit_draws : unit_draws example_unit_tape.
Proof. intros k. unfold example_unit_tape. lra. Qed.

(** The state construction on a digest of 64 zero bytes. *)
Lemma example_construction :
  _hash_to_quantum_state example_unit_tape example_int_tape 2 (replicate 64 x00)
    example_state =
  (Ok (replicate 8 (replicate 16 (replicate 8
         (clamp01 (INR (Byte.to_nat x00) / 255 + (-0.1 + (0.1 - -0.1) * 0)))))),
   {| self := with_pairs __init__ [(0, 1); (2, 3); (4, 5); (6, 7)]%nat;
      rng_pos := 1032 |}).
Proof. vm_compute. reflexivity. Qed.

(** The state construction on the same digest with a generator whose
    integer draws come in equal pairs: the first two draws, at positions
    1024 and 1025, are both [512 mod 8 = 0], the rejection loop draws
    again, and the run takes nine integer draws for its four pairs. *)
Lemma example_colliding_construction :
  _hash_to_quantum_state example_unit_tape example_colliding_tape 3 (replicate 64 x00)
    example_state =
  (Ok (replicate 8 (replicate 16 (replicate 8
         (clamp01 (INR (Byte.to_nat x00) / 255 + (-0.1 + (0.1 - -0.1) * 0)))))),
   {| self := with_pairs __init__ [(0, 1); (1, 2); (2, 3); (3, 4)]%nat;
      rng_pos := 1033 |}).
Proof. vm_compute. reflexivity. Qed.

Lemma example_colliding_tape_fair : fair example_colliding_tape 3 8.
Proof.
  intros p d. unfold example_colliding_tape.
  destruct (decide (((p / 2) mod 8)%nat = d)) as [<-|Hne].
  - exists 2%nat. split; [lia|].
    replace ((p + 2) / 2)%nat with (p / 2 + 1)%nat
      by (rewrite <- (Nat.div_add p 1 2) by lia; f_equal; lia).
    rewrite (Nat.Div0.add_mod (p / 2) 1 8).
    pose proof (Nat.mod_upper_bound (p / 2) 8) as Hlt.
    destruct ((p / 2) mod 8)%nat as [|[|[|[|[|[|[|[|q]]]]]]]]; simpl; lia.
  - exists 0%nat. split; [lia|]. by rewrite Nat.add_0_r.
Qed.

Lemma coupling_cardinality_witness :
  _hash_to_quantum_state example_unit_tape example_colliding_tape 3 (replicate 64 x00)
    example_state =
  (Ok (replicate 8 (replicate 16 (replicate 8
         (clamp01 (INR (Byte.to_nat x00) / 255 + (-0.1 + (0.1 - -0.1) * 0)))))),
   {| self := with_pairs __init__ [(0, 1); (1, 2); (2, 3); (3, 4)]%nat;
      rng_pos := 1033 |}) ∧
  length [(0, 1); (1, 2); (2, 3); (3, 4)]%nat = (8 / 2)%nat ∧
  ∀ dim1 dim2, (dim1, dim2) ∈ [(0, 1); (1, 2); (2, 3); (3, 4)]%nat →
    dim1 ≠ dim2 ∧ (dim1 < 8)%nat ∧ (dim2 < 8)%nat.
Proof.
  destruct (coupling_cardinality example_unit_tape example_colliding_tape 3
              (replicate 64 x00) example_state) as [Hreturns Hpairs].
  destruct Hreturns as (quantum_state & s' & Hrun).
  - simpl. lia.
  - intros _. exact example_colliding_tape_fair.
  - split; [exact example_colliding_construction|].
    exact (Hpairs _ _ example_colliding_construction).
Defined.

(** The analysis of a state with one non-zero and one zero dimension, by
    an engine whose pairs couple the dimensions [0] and [1]. *)
Notation example_analysis :=
  (_analyze_quantum_state example_unit_tape example_quantum_state example_analysis_state).
Notation example_signature_data := (value_of empty_signature_data example_analysis.1).

Lemma example_analysis_returns :
  example_analysis = (Ok example_signature_data, example_analysis.2).
Proof. vm_compute. reflexivity. Qed.

Lemma amplitude_rows_stochastic_witness :
  ∃ collapsed_state s1,
    collapse example_quantum_state example_analysis_state = (Ok collapsed_state, s1) ∧
    length (amplitudes example_signature_data) = 8%nat ∧
    ∀ i row, amplitudes example_signature_data !! i = Some row →
      ∃ collapsed_row, collapsed_state !! i = Some collapsed_row ∧
        (Rabs (sum row - 1) <= 1e-9 ∨ Forall (λ v, v = 0) row) ∧
        (Forall (λ v, v = 0) row ↔ sum collapsed_row = 0).
Proof.
  exact (amplitude_rows_stochastic example_unit_tape example_quantum_state
           example_analysis_state _ _ example_analysis_returns).
Defined.

Lemma phase_matrix_entries_witness :
  has_shape 8 8 (phases example_signature_data) ∧
  ∀ i j v, entry (phases example_signature_data) i j = Some v →
    0 <= v < 2 * PI ∧
    (participates i j example_pairs →
       ∃ k, (1032 ≤ k < rng_pos example_analysis.2)%nat ∧
            v = 0 + (2 * PI - 0) * example_unit_tape k) ∧
    (¬ participates i j example_pairs → v = fmod (INR (i * j)) (2 * PI)).
Proof.
  exact (phase_matrix_entries example_unit_tape example_quantum_state
           example_analysis_state _ _ example_unit_draws example_analysis_returns).
Defined.

Lemma evolution_keeps_unit_interval_witness :
  ∃ st s',
    (quantum_state ←
       _hash_to_quantum_state example_unit_tape example_int_tape 2 (replicate 64 x00);
     evolve_rounds example_unit_tape 3 quantum_state) example_state = (Ok st, s') ∧
    unit_state st.
Proof.
  destruct (construct_and_evolve_returns example_unit_tape example_int_tape 2
              (replicate 64 x00) 3 example_state) as (st & s' & Hrun).
  - simpl. lia.
  - apply example_tape_fair.
  - exists st, s'. split; [exact Hrun|].
    exact (proj2 (proj2 (proj2
             (evolution_keeps_unit_interval example_unit_tape example_int_tape 2)))
             _ _ _ _ _ Hrun).
Defined.

(** The entanglement of two dimensions with the values [1] and [0]. *)
Lemma example_entangle :
  entangle example_unit_tape [[[1]]; [[0]]]
    {| self := with_pairs __init__ [(0, 1)]%nat; rng_pos := 0 |} =
  (Ok [[[(coupled 1 0).1]]; [[(coupled 1 0).2]]],
   {| self := with_pairs __init__ [(0, 1)]%nat; rng_pos := 1 |}).
Proof.
  unfold entangle, example_unit_tape, mbind, M_bind, attr. simpl.
  unfold mbind, M_bind, random. simpl.
  destruct (Rlt_dec 0 0.5) as [_|Hn]; [reflexivity|exfalso; apply Hn; lra].
Qed.

Lemma coupling_preserves_pair_sum_witness :
  pair_sum [[[(coupled 1 0).1]]; [[(coupled 1 0).2]]] 0 1 0 0 =
  pair_sum [[[1]]; [[0]]] 0 1 0 0.
Proof.
  refine (proj2 (coupling_preserves_pair_sum example_unit_tape) 0%nat 1%nat _ _ _ _
            0%nat 0%nat _ _ example_entangle).
  - lia.
  - intros pair Hin. left. simpl in Hin. by apply list_elem_of_singleton in Hin.
Defined.

(** C10, as stated, fails when two pairs share a dimension: after the
    entanglement of [(0, 1)] and then [(1, 2)], the values of the dimensions
    [0] and [1] sum to [25/16], not to [1] as before. *)
Lemma coupling_changes_shared_pair_sum :
  entangle example_unit_tape overlap_state overlap_start =
    (Ok overlap_result, {| self := self overlap_start; rng_pos := 4 |}) ∧
  (0, 1)%nat ∈ entanglement_pairs (self overlap_start) ∧
  pair_sum overlap_state 0 1 0 0 = Some (1 + 0) ∧
  pair_sum overlap_result 0 1 0 0 = Some ((coupled 1 0).1 + (coupled (coupled 1 0).2 1).1) ∧
  (coupled 1 0).1 + (coupled (coupled 1 0).2 1).1 = 25 / 16 ∧
  pair_sum overlap_result 0 1 0 0 ≠ pair_sum overlap_state 0 1 0 0.
Proof.
  assert ((coupled 1 0).1 + (coupled (coupled 1 0).2 1).1 = 25 / 16) as Hsum.
  { unfold coupled. simpl. unfold Rabs. repeat destruct Rcase_abs; lra. }
  split; [|split; [|split; [|split; [|split]]]].
  - unfold entangle, overlap_state, overlap_start, overlap_pairs, example_unit_tape.
    unfold mbind, M_bind, attr. simpl. unfold mbind, M_bind, random. simpl.
    destruct (Rlt_dec 0 0.5) as [_|Hn]; [reflexivity|exfalso; apply Hn; lra].
  - simpl. apply elem_of_cons. by left.
  - reflexivity.
  - reflexivity.
  - exact Hsum.
  - change (Some ((coupled 1 0).1 + (coupled (coupled 1 0).2 1).1) ≠ Some (1 + 0)).
    rewrite Hsum. intros [= H]. lra.
Qed.

(** A call on the empty file, by a fresh engine. *)
Notation example_call :=
  (generate_signature (example_digest 32) (example_digest 16) (example_digest 20)
     (example_digest 64) example_unit_tape example_int_tape 2 example_ellipse_pixels
     example_fs "empty.bin" true example_state).

Lemma example_call_returns : ∃ r s', example_call = (Ok (Some r), s').
Proof.
  apply (generate_signature_returns _ _ _ _ _ _ _ _ _ _ _ _ []).
  - reflexivity.
  - simpl. lia.
  - apply example_tape_fair.
Qed.

Lemma uniqueness_score_as_specified_witness :
  ∃ r s',
    example_call = (Ok (Some r), s') ∧
    res_uniqueness_score r = spec_uniqueness 8 (res_signature_data r) ∧
    0 <= res_uniqueness_score r <= 1.
Proof.
  destruct example_call_returns as (r & s' & Hrun).
  exists r, s'. split; [exact Hrun|].
  exact (uniqueness_score_as_specified _ _ _ _ _ _ _ _ _ _ _ _ _ _ Hrun).
Defined.

Lemma engine_after_call_witness :
  ∃ r s',
    example_call = (Ok (Some r), s') ∧
    self s' = with_pairs __init__ (entanglement (res_signature_data r)) ∧
    entanglement_pairs (self s') = entanglement (res_signature_data r) ∧
    length (entanglement_pairs (self s')) = (8 / 2)%nat.
Proof.
  destruct example_call_returns as (r & s' & Hrun).
  exists r, s'. split; [exact Hrun|].
  exact (engine_after_call _ _ _ _ _ _ _ _ _ _ _ _ (Some r) _ Hrun).
Defined.

(** C4, as stated, fails: after a call on the empty file, the engine is not
    the engine that [__init__] constructed: it holds four pairs. *)
Lemma engine_changed_by_call :
  self example_call.2 ≠ __init__ ∧
  length (entanglement_pairs (self example_call.2)) = 4%nat.
Proof.
  destruct example_call_returns as (r & s' & Hrun).
  destruct (generate_signature_result _ _ _ _ _ _ _ _ _ _ _ _ _ _ Hrun)
    as (_ & Hself & Hlen & _).
  rewrite Hrun. simpl in *.
  assert (length (entanglement_pairs (self s')) = 4%nat) as H4 by (by rewrite Hself).
  split; [|done]. intros Heq. rewrite Heq in H4. simpl in H4. lia.
Qed.

Lemma empty_file_signature_witness :
  _calculate_complex_hash (example_digest 32) (example_digest 16) (example_digest 20)
    (example_digest 64) example_fs "empty.bin" =
    Ok (example_digest 64
          (example_digest 32 [] ++ example_digest 16 [] ++ example_digest 20 [])) ∧
  ∃ r s',
    example_call = (Ok (Some r), s') ∧
    0 <= res_uniqueness_score r <= 1 ∧
    valid_buffer 256 (res_signature_image r).
Proof.
  apply (empty_file_signature (example_digest 32) (example_digest 16) (example_digest 20)
           (example_digest 64) example_unit_tape example_int_tape 2
           example_ellipse_pixels example_fs "empty.bin" true example_state).
  - reflexivity.
  - simpl. lia.
  - apply example_tape_fair.
Defined.

Lemma unreadable_path_returns_none_witness :
  _calculate_complex_hash (example_digest 32) (example_digest 16) (example_digest 20)
    (example_digest 64) example_fs "missing.bin" = Raise (OSError "missing.bin") ∧
  generate_signature (example_digest 32) (example_digest 16) (example_digest 20)
    (example_digest 64) example_unit_tape example_int_tape 2 example_ellipse_pixels
    example_fs "missing.bin" true example_state = (Ok None, example_state).
Proof.
  apply unreadable_path_returns_none. left. reflexivity.
Defined.

(** C1, as stated, fails: for a missing file the caller gets [None], the
    value that stands for every failure, and no error that names the path. *)
Lemma missing_file_error_not_returned :
  generate_signature (example_digest 32) (example_digest 16) (example_digest 20)
    (example_digest 64) example_unit_tape example_int_tape 2 example_ellipse_pixels
    example_fs "missing.bin" true example_state = (Ok None, example_state) ∧
  ∀ s', generate_signature (example_digest 32) (example_digest 16) (example_digest 20)
    (example_digest 64) example_unit_tape example_int_tape 2 example_ellipse_pixels
    example_fs "missing.bin" true example_state ≠ (Raise (OSError "missing.bin"), s').
Proof.
  assert (generate_signature (example_digest 32) (example_digest 16) (example_digest 20)
    (example_digest 64) example_unit_tape example_int_tape 2 example_ellipse_pixels
    example_fs "missing.bin" true example_state = (Ok None, example_state)) as Hrun
    by reflexivity.
  split; [exact Hrun|]. intros s'. rewrite Hrun. discriminate.
Qed.

(** ** Examples for the further properties *)

Lemma construction_shape_witness :
  ∃ quantum_state s',
    _hash_to_quantum_state example_unit_tape example_int_tape 2 (replicate 64 x00)
      example_state = (Ok quantum_state, s') ∧
    length quantum_state = 8%nat ∧
    (∀ i dimension, quantum_state !! i = Some dimension →
       length dimension = 16%nat ∧
       Forall (λ variation,
                 length variation = length (chunk_of (replicate 64 x00) 8 i))
         dimension) ∧
    concat (chunk_of (replicate 64 x00) 8 <$> seq 0 8) = replicate 64 x00.
Proof.
  eexists _, _. split; [exact example_construction|].
  exact (construction_shape example_unit_tape example_int_tape 2 (replicate 64 x00)
           example_state _ _ example_construction).
Defined.

Lemma construction_jitter_bound_witness :
  ∃ quantum_state s' v,
    _hash_to_quantum_state example_unit_tape example_int_tape 2 (replicate 64 x00)
      example_state = (Ok quantum_state, s') ∧
    cell quantum_state 3 5 7 = Some v ∧
    ∃ b, chunk_of (replicate 64 x00) 8 3 !! 7%nat = Some b ∧
         Rabs (v - scaled b) <= 0.1.
Proof.
  eexists _, _, _. split; [exact example_construction|].
  split; [reflexivity|].
  apply (construction_jitter_bound example_unit_tape example_int_tape 2
           (replicate 64 x00) example_state _ _ 3 5 7 _
           example_unit_draws example_construction).
  reflexivity.
Defined.

Lemma constant_draws_diverge_witness :
  diverges (_hash_to_quantum_state example_unit_tape example_constant_tape 1000
              (replicate 64 x00)) example_state.
Proof.
  apply constant_draws_diverge.
  - simpl. lia.
  - intros p p'. reflexivity.
Defined.

Lemma evolution_keeps_shape_witness :
  ∃ st' s',
    _evolve_quantum_state example_unit_tape example_quantum_state
      {| self := with_pairs __init__ [(0, 1)]%nat; rng_pos := 0 |} = (Ok st', s') ∧
    shape st' = [[1%nat]; [1%nat]] ∧
    self s' = with_pairs __init__ [(0, 1)]%nat.
Proof.
  destruct (wp_strict_ok _ _ _
              (wp__evolve_quantum_state example_unit_tape true example_quantum_state
                 {| self := with_pairs __init__ [(0, 1)]%nat; rng_pos := 0 |}
                 ltac:(repeat constructor))) as (st' & s' & Hrun & _).
  exists st', s'. split; [exact Hrun|].
  exact (evolution_keeps_shape example_unit_tape _ _ _ _ Hrun).
Defined.

Lemma entangle_value_contracts_witness :
  ∃ x y x' y',
    cell example_quantum_state 0 0 0 = Some x ∧
    cell example_quantum_state 1 0 0 = Some y ∧
    cell (couple_at example_quantum_state 0 1 0 0 1 0) 0 0 0 = Some x' ∧
    cell (couple_at example_quantum_state 0 1 0 0 1 0) 1 0 0 = Some y' ∧
    y' <= x' ∧ x' - y' = Rabs (x - y) / 2 ∧
    Rmin x y <= y' ∧ x' <= Rmax x y.
Proof.
  apply (entangle_value_contracts 0 1 0 0 example_quantum_state example_state
           _ example_state).
  - lia.
  - apply entangle_value_run; reflexivity.
Defined.

Lemma zero_state_fixed_witness :
  ∃ st' s',
    _evolve_quantum_state example_unit_tape [[[0; 0]]; [[0; 0]]]
      {| self := with_pairs __init__ [(0, 1)]%nat; rng_pos := 0 |} = (Ok st', s') ∧
    st' = [[[0; 0]]; [[0; 0]]].
Proof.
  destruct (wp_strict_ok _ _ _
              (wp__evolve_quantum_state example_unit_tape true [[[0; 0]]; [[0; 0]]]
                 {| self := with_pairs __init__ [(0, 1)]%nat; rng_pos := 0 |}
                 ltac:(repeat constructor))) as (st' & s' & Hrun & _).
  exists st', s'. split; [exact Hrun|].
  refine (zero_state_fixed example_unit_tape [[[0; 0]]; [[0; 0]]] _ st' s' _ Hrun).
  repeat constructor.
Defined.

Lemma collapse_column_sums_witness :
  ∃ collapsed_state,
    collapse example_quantum_state example_analysis_state =
      (Ok collapsed_state, example_analysis_state) ∧
    ∀ i j, (i < 8)%nat → (j < 8)%nat →
      entry collapsed_state i j = Some (column_sum example_quantum_state 8 i j).
Proof.
  apply (collapse_column_sums example_quantum_state example_analysis_state).
  simpl. lia.
Defined.

Lemma signature_result_well_formed_witness :
  ∃ r s',
    example_call = (Ok (Some r), s') ∧
    has_shape 8 8 (amplitudes (res_signature_data r)) ∧
    Forall (Forall in01) (amplitudes (res_signature_data r)) ∧
    has_shape 8 8 (phases (res_signature_data r)) ∧
    res_confidence r = 0.95 ∧
    valid_buffer 256 (res_signature_image r).
Proof.
  destruct example_call_returns as (r & s' & Hrun).
  exists r, s'. split; [exact Hrun|].
  exact (signature_result_well_formed _ _ _ _ _ _ _ _ _ _ _ _ _ _ Hrun).
Defined.

Lemma uniqueness_score_floor_witness :
  ∃ r s', example_call = (Ok (Some r), s') ∧ 0.3 <= res_uniqueness_score r.
Proof.
  destruct example_call_returns as (r & s' & Hrun).
  exists r, s'. split; [exact Hrun|].
  refine (uniqueness_score_floor (example_digest 32) (example_digest 16)
            (example_digest 20) (example_digest 64) example_unit_tape example_int_tape 2
            example_ellipse_pixels example_fs "empty.bin" true example_state r s' _ Hrun).
  exists 4%nat. reflexivity.
Defined.

Lemma example_flat_shape : has_shape 8 8 (replicate 8 (replicate 8 0)).
Proof. split; [reflexivity|]. by apply Forall_replicate. Qed.

Lemma example_flat_in01 : Forall (Forall in01) (replicate 8 (replicate 8 0)).
Proof. apply Forall_replicate, Forall_replicate. unfold in01. lra. Qed.

Lemma example_flat_phases :
  Forall (Forall (λ phase, 0 <= phase <= 2 * PI)) (replicate 8 (replicate 8 0)).
Proof.
  apply Forall_replicate, Forall_replicate. pose proof PI_RGT_0. lra.
Qed.

Lemma render_shape_invariant_witness :
  ∃ q, _visualize_quantum_signature example_ellipse_pixels example_flat_data
         example_state = (Ok q, example_state) ∧
       valid_buffer 256 q.
Proof.
  apply (render_shape_invariant example_ellipse_pixels example_flat_data example_state).
  - simpl. lia.
  - exact example_flat_shape.
  - exact example_flat_shape.
  - exact example_flat_in01.
  - exact example_flat_phases.
  - repeat constructor.
Defined.

(** With one dimension the call returns a result on a generator whose
    integer draws are all equal and with no iteration allowed to the
    rejection loop; with eight it returns one on the generator whose draws
    collide. *)
Lemma none_only_without_dimensions_witness :
  (∃ r s', generate_signature (example_digest 32) (example_digest 16) (example_digest 20)
             (example_digest 64) example_unit_tape example_constant_tape 0
             example_ellipse_pixels example_fs "empty.bin" true example_single_state =
           (Ok (Some r), s')) ∧
  (∃ r s', generate_signature (example_digest 32) (example_digest 16) (example_digest 20)
             (example_digest 64) example_unit_tape example_colliding_tape 3
             example_ellipse_pixels example_fs "empty.bin" true example_state =
           (Ok (Some r), s')).
Proof.
  split.
  - refine (proj1 (proj2 (none_only_without_dimensions (example_digest 32)
              (example_digest 16) (example_digest 20) (example_digest 64)
              example_unit_tape example_constant_tape 0 example_ellipse_pixels
              example_fs "empty.bin" true example_single_state [] _ _)) _).
    + reflexivity.
    + simpl. lia.
    + simpl. lia.
  - refine (proj1 (proj2 (none_only_without_dimensions (example_digest 32)
              (example_digest 16) (example_digest 20) (example_digest 64)
              example_unit_tape example_colliding_tape 3 example_ellipse_pixels
              example_fs "empty.bin" true example_state [] _ _)) _).
    + reflexivity.
    + intros _. exact example_colliding_tape_fair.
    + simpl. lia.
Defined.

Lemma rendered_image_opaque_witness :
  ∃ q, _visualize_quantum_signature example_ellipse_pixels example_flat_data
         example_state = (Ok q, example_state) ∧
       length (qdata q) = (4 * (256 * 256))%nat ∧
       ∀ k a, qdata q !! (4 * k + 3)%nat = Some a → (127 ≤ a ≤ 255)%Z.
Proof.
  apply (rendered_image_opaque example_ellipse_pixels example_flat_data example_state).
  - simpl. lia.
  - exact example_flat_shape.
  - exact example_flat_in01.
  - exact example_flat_shape.
Defined.

(** ** Examples for the hub and the metrics *)

Lemma update_keeps_history_bounded_witness :
  ∃ w',
    Hub.update_quantum_signature "a.bin" PNone example_hub = (Hub.Ok tt, w') ∧
    Hub.bounded (Hub.self w') ∧
    Hub.quantum_signatures (Hub.self w') = [].
Proof.
  apply (update_keeps_history_bounded "a.bin" PNone example_hub).
  unfold Hub.bounded. simpl. lia.
Defined.

Lemma update_records_every_flagged_witness :
  ∃ w',
    Hub.update_quantum_signature "b.bin" (PDict [("uniqueness_score", PNum 0.95)]%string)
      (example_hub_with example_signatures example_quantum_active) = (Hub.Ok tt, w') ∧
    Hub.quantum_signatures (Hub.self w') =
      dict_set example_signatures "b.bin" (PDict [("uniqueness_score", PNum 0.95)]%string) ∧
    length (Hub.threat_history (Hub.self w')) =
      ((0 + Hub.count_suspicious (Hub.quantum_signatures (Hub.self w'))) `min` 1000)%nat.
Proof.
  apply (update_records_every_flagged "b.bin" [("uniqueness_score", PNum 0.95)]%string
           (example_hub_with example_signatures example_quantum_active)).
  - apply Forall_singleton. by eexists.
  - by eexists.
  - unfold Hub.bounded. simpl. lia.
Defined.

Lemma unreadable_score_blocks_updates_witness :
  ∃ w' new e,
    Hub.update_quantum_signature "new.bin" (PDict [])
      (example_hub_with example_unreadable example_quantum_active) = (Hub.Ok tt, w') ∧
    Hub.active (Hub.self w') "quantum_signatures" = false ∧
    dict_get (Hub.quantum_signatures (Hub.self w')) "old.bin" =
      Some (PDict [("uniqueness_score", PStr "high")]%string) ∧
    Hub.events w' =
      [] ++ new ++ [Hub.logged_error "Error updating quantum signature" e] ∧
    Hub.no_score new.
Proof.
  apply (unreadable_score_blocks_updates "new.bin" []
           (example_hub_with example_unreadable example_quantum_active) "old.bin").
  - reflexivity.
  - reflexivity.
  - discriminate.
Defined.

Lemma example_confident :
  Forall2 (λ item c, Hub.confident item.2 c) example_signatures [0.95].
Proof.
  constructor; [|constructor]. eexists. split; [reflexivity|]. split; reflexivity.
Qed.

Lemma quantum_score_ignores_uniqueness_score_witness :
  Hub._calculate_quantum_score (example_hub_with example_signatures example_quantum_active) =
  (Hub.Ok (0.35 + 0.3 * (sum [0.95] / INR 1)),
   example_hub_with example_signatures example_quantum_active).
Proof.
  apply (quantum_score_ignores_uniqueness_score
           (example_hub_with example_signatures example_quantum_active) [0.95]).
  - discriminate.
  - exact example_confident.
Defined.

Lemma protection_score_between_witness :
  ∃ final w' current_status,
    Hub._update_protection_score
      (example_hub_with example_signatures example_quantum_active) = (Hub.Ok final, w') ∧
    0 <= final <= 1 ∧
    Hub.self w' = Hub.self (example_hub_with example_signatures example_quantum_active) ∧
    Hub.events w' =
      [] ++ [Hub.protection_score final; Hub.system_status current_status] ∧
    dict_get current_status "protection_score" = Some (PNum final).
Proof.
  apply (protection_score_between 0 1
           (example_hub_with example_signatures example_quantum_active)
           (λ _, 0.5 * 0.7 + sum [0.95] / INR (length [0.95]) * 0.3)).
  - split; reflexivity.
  - exists "quantum_signatures"%string. reflexivity.
  - discriminate.
  - intros _. split.
    + apply _calculate_quantum_score_run; [discriminate|exact example_confident].
    + unfold sum. simpl. lra.
  - discriminate.
Defined.

Lemma hub_on_engine_result_witness :
  ∃ r s' w',
    example_call = (Ok (Some r), s') ∧
    Hub.update_quantum_signature "empty.bin" (signature_dict r) example_hub =
      (Hub.Ok tt, w') ∧
    Hub.quantum_signatures (Hub.self w') = [("empty.bin"%string, signature_dict r)] ∧
    Hub.active (Hub.self w') "quantum_signatures" = true ∧
    Hub.protection_score (0.35 + 0.3 * 0.95) ∈ Hub.events w' ∧
    length (Hub.threat_history (Hub.self w')) =
      (if Rgt_dec (res_uniqueness_score r) 0.9 then 1 else 0)%nat.
Proof.
  destruct example_call_returns as (r & s' & Hrun).
  destruct (hub_on_engine_result _ _ _ _ _ _ _ _ _ _ _ _ r s' example_hub Hrun eq_refl)
    as (w' & H).
  exists r, s', w'. split; [exact Hrun|exact H].
Defined.

Lemma history_shows_latest_witness :
  ∃ w',
    Metrics.update_metrics "neural" [("system_health", PNum 50)]%string Metrics.__init__ =
      (Hub.Ok tt, w') ∧
    Metrics.shallow_copies (Metrics.self w') ∧
    Metrics.shown w' (Metrics.metrics (Metrics.self w')) "neural" "system_health" =
      Some (PNum 50) ∧
    ∀ entry, entry ∈ Metrics.metrics_history (Metrics.self w') →
             Metrics.shown w' entry.2 "neural" "system_health" = Some (PNum 50).
Proof.
  apply (history_shows_latest "neural" [("system_health", PNum 50)]%string 0
           Metrics.__init__ "system_health" (PNum 50)).
  - apply Forall_nil_2.
  - reflexivity.
  - simpl. lia.
  - apply NoDup_singleton.
  - by left.
Defined.

Lemma update_metrics_history_bounded_witness :
  ∃ w',
    Metrics.update_metrics "neural" [("system_health", PNum 50)]%string Metrics.__init__ =
      (Hub.Ok tt, w') ∧
    (length (Metrics.metrics_history (Metrics.self w')) ≤
     Metrics.max_history (Metrics.self w'))%nat ∧
    (dict_get (Metrics.metrics (Metrics.self Metrics.__init__)) "neural" = None →
     w' = Metrics.__init__).
Proof.
  apply (update_metrics_history_bounded "neural" [("system_health", PNum 50)]%string
           Metrics.__init__).
  simpl. lia.
Defined.

Lemma threat_level_range_witness :
  ∃ level status,
    Metrics.get_threat_level Metrics.__init__ = (Hub.Ok level, Metrics.__init__) ∧
    Metrics.get_system_status Metrics.__init__ = (Hub.Ok status, Metrics.__init__) ∧
    0 <= level <= 1 ∧
    (0 = 0 → level <= 0.7 ∧ status ≠ "Критическая ситуация"%string).
Proof.
  apply (threat_level_range Metrics.__init__ 100 0 "Low").
  - reflexivity.
  - reflexivity.
  - reflexivity.
  - lra.
  - lra.
Defined.

Lemma temporal_score_reads_first_seven_witness :
  (Hub._calculate_temporal_score
     (example_hub_data [] [("history", PList (example_week ++ [PNum 3]))]%string)).1 =
  (Hub._calculate_temporal_score
     (example_hub_data [] [("history", PList (example_week ++ []))]%string)).1.
Proof.
  apply (temporal_score_reads_first_seven _ _ example_week [PNum 3] []).
  - reflexivity.
  - reflexivity.
  - reflexivity.
Defined.

Lemma neural_score_rejects_process_list_witness :
  Hub._calculate_neural_score
    (example_hub_data [("processes", PList [])]%string []) =
    (Hub.Raise Hub.AttributeError, example_hub_data [("processes", PList [])]%string []) ∧
  Hub._update_protection_score
    (example_hub_data [("processes", PList [])]%string []) =
    (Hub.Raise Hub.AttributeError, example_hub_data [("processes", PList [])]%string []).
Proof.
  destruct (neural_score_rejects_process_list
              (example_hub_data [("processes", PList [])]%string []) [])
    as [Hscore Hupdate].
  - reflexivity.
  - split; [exact Hscore|]. apply Hupdate.
    + split; reflexivity.
    + reflexivity.
Defined.

Lemma unserialisable_prediction_exceeds_bound_witness :
  ∃ w',
    Hub.update_temporal_prediction
      (PDict [("future_threats", PList [PDict example_prediction])]%string) example_hub =
      (Hub.Ok tt, w') ∧
    Hub.threat_history (Hub.self w') =
      [] ++
      [PDict [("type", PStr "predicted_threat");
              ("source", PStr "temporal_prediction");
              ("timestamp", PStr (example_clock 0));
              ("details", PDict example_prediction)]%string] ∧
    Hub.temporal_predictions (Hub.self w') =
      [("future_threats", PList [PDict example_prediction])]%string ∧
    Hub.active (Hub.self w') "temporal_prediction" = false.
Proof.
  apply (unserialisable_prediction_exceeds_bound
           [("future_threats", PList [PDict example_prediction])]%string
           example_prediction [] 0.9 example_hub).
  - reflexivity.
  - reflexivity.
  - lra.
  - reflexivity.
Defined.

Lemma update_system_status_monitored_witness :
  ∃ w',
    Hub.update_system_status (PDict [("cpu_percent", PNum 95)]%string) example_hub =
      (Hub.Ok tt, w') ∧
    Hub.monitored example_hub w'.
Proof.
  apply (update_system_status_monitored (PDict [("cpu_percent", PNum 95)]%string)
           example_hub).
  simpl. repeat (apply Forall_cons_2; [simpl; lia|]). apply Forall_nil_2.
Defined.
